(** * A shallow embedding of the torch backend of ivy's linear-algebra API

    The development follows
    [ivy/functional/backends/torch/linear_algebra.py],
    [ivy/functional/ivy/linear_algebra.py], [ivy/container/norms.py] and,
    for [trace] and [diagonal],
    [ivy/functional/frontends/torch/miscellaneous_ops.py].

    - [Torch] is a reference model of the native library the backend
      calls into: dtypes, scalars with IEEE-754 rounding (the standard
      library's [SpecFloat]), row-major tensors and the shape kernels.
    - [Py] models what the Python code observes: exceptions, object
      identity through a store of tensor objects, and the log of native
      calls.
    - [Backend] embeds the backend functions themselves.
    - [Frontend] embeds the two functions of the torch frontend that call
      them.
    - [Nestable] models the container broadcast of the dispatch pipeline.  *)

From Stdlib Require Import ZArith List String Bool Lia.
From Stdlib Require Import Floats.SpecFloat.
From stdpp Require Import base list.
Import ListNotations.
Local Open Scope Z_scope.

(** ** Exceptions *)

(** The exceptions the modelled code can raise. *)
Inductive exn :=
| UnsupportedDtype | KeyMismatch
| OverflowError | ValueError | IndexError | RuntimeError
| SystemError.

#[global] Instance exn_eq_dec : EqDecision exn.
Proof. solve_decision. Defined.

(** The result of a call: a value, or a raised exception. *)
Inductive Outcome (A : Type) :=
| Ok (a : A)
| Raise (e : exn).
Arguments Ok {A} a.
Arguments Raise {A} e.

#[global] Instance Outcome_ret : MRet Outcome := fun A a => Ok a.
#[global] Instance Outcome_bind : MBind Outcome := fun A B f m =>
  match m with
  | Ok a => f a
  | Raise e => Raise e
  end.
#[global] Instance Outcome_fmap : FMap Outcome := fun A B f m =>
  match m with
  | Ok a => Ok (f a)
  | Raise e => Raise e
  end.

(** ** Python values passed as options *)

(** A Python number: an [int], or a [float] (binary64). *)
Inductive pynum :=
| PInt (z : Z)
| PFloat (f : spec_float).

(** An [axis] argument: [None], an integer, or a sequence of integers. *)
Inductive pyaxis :=
| AxNone
| AxInt (z : Z)
| AxSeq (l : list Z).

(** The [ord] argument of [matrix_norm]: a number, or ["fro"], ["nuc"]. *)
Inductive pyord :=
| OrdNum (n : pynum)
| OrdStr (s : string).

(** The [axes] argument of [tensordot]: an integer, or a pair of lists. *)
Inductive pyaxes :=
| AxesInt (z : Z)
| AxesPair (a b : list Z).

(** ** The native library: dtypes and scalars *)

Module Torch.

(** The dtype tags of native tensors. *)
Inductive dtype :=
| bool_ | uint8 | int8 | int16 | int32 | int64
| bfloat16 | float16 | float32 | float64.

#[global] Instance dtype_eq_dec : EqDecision dtype.
Proof. solve_decision. Defined.

(** Mantissa width (implicit bit included) and infinity exponent of the
    floating-point dtypes. *)
Definition float_format (d : dtype) : option (Z * Z) :=
  match d with
  | bfloat16 => Some (8, 128)
  | float16 => Some (11, 16)
  | float32 => Some (24, 128)
  | float64 => Some (53, 1024)
  | _ => None
  end.

(** Bit width and signedness of the integer dtypes. *)
Definition int_format (d : dtype) : option (Z * bool) :=
  match d with
  | uint8 => Some (8, false)
  | int8 => Some (8, true)
  | int16 => Some (16, true)
  | int32 => Some (32, true)
  | int64 => Some (64, true)
  | _ => None
  end.

(** One element of a tensor. *)
Inductive scalar :=
| SBool (b : bool)
| SInt (z : Z)
| SFloat (f : spec_float).

(** Two's complement wrap-around of [z] to [w] bits. *)
Definition wrap (w : Z) (signed : bool) (z : Z) : Z :=
  let m := z mod 2 ^ w in
  if signed && (2 ^ (w - 1) <=? m) then m - 2 ^ w else m.

(** Truncation of a float toward zero; the result for NaN and the
    infinities is unspecified by the native library and taken as [0]. *)
Definition trunc_float (f : spec_float) : Z :=
  match f with
  | S754_finite s m e =>
      let a := match e with
               | Zneg p => Z.shiftr (Zpos m) (Zpos p)
               | _ => Z.shiftl (Zpos m) e
               end in
      if s then - a else a
  | _ => 0
  end.

Definition is_zero_float (f : spec_float) : bool :=
  match f with S754_zero _ => true | _ => false end.

Definition is_nan_float (f : spec_float) : bool :=
  match f with S754_nan => true | _ => false end.

(** The absolute values that are not NaN: zero, the finite positive
    floats and infinity. *)
Definition nonneg (f : spec_float) : Prop :=
  match f with
  | S754_zero false | S754_infinity false | S754_finite false _ _ => True
  | _ => False
  end.

(** Rounding of a float to the format [(prec, emax)], to nearest even. *)
Definition round_float (prec emax : Z) (f : spec_float) : spec_float :=
  match f with
  | S754_finite s m e => binary_round prec emax s m e
  | _ => f
  end.

Definition scalar_to_Z (v : scalar) : Z :=
  match v with
  | SBool b => if b then 1 else 0
  | SInt z => z
  | SFloat f => trunc_float f
  end.

Definition scalar_to_bool (v : scalar) : bool :=
  match v with
  | SBool b => b
  | SInt z => negb (z =? 0)
  | SFloat f => negb (is_zero_float f)
  end.

Definition scalar_to_float (prec emax : Z) (v : scalar) : spec_float :=
  match v with
  | SBool b => binary_normalize prec emax (if b then 1 else 0) 0 false
  | SInt z => binary_normalize prec emax z 0 false
  | SFloat f => round_float prec emax f
  end.

(** Conversion of one element to dtype [d], as [Tensor.to] and
    [Tensor.type] do element by element. *)
Definition cast_scalar (d : dtype) (v : scalar) : scalar :=
  match float_format d, int_format d with
  | Some (prec, emax), _ => SFloat (scalar_to_float prec emax v)
  | None, Some (w, sg) => SInt (wrap w sg (scalar_to_Z v))
  | None, None => SBool (scalar_to_bool v)
  end.

(** Arithmetic carried out in dtype [d]. *)
Definition lift2 (d : dtype)
    (fop : Z -> Z -> spec_float -> spec_float -> spec_float)
    (zop : Z -> Z -> Z) (bop : bool -> bool -> bool) (a b : scalar) : scalar :=
  match float_format d, int_format d with
  | Some (prec, emax), _ =>
      SFloat (fop prec emax (scalar_to_float prec emax a)
                            (scalar_to_float prec emax b))
  | None, Some (w, sg) =>
      SInt (wrap w sg (zop (wrap w sg (scalar_to_Z a))
                           (wrap w sg (scalar_to_Z b))))
  | None, None => SBool (bop (scalar_to_bool a) (scalar_to_bool b))
  end.

Definition add (d : dtype) : scalar -> scalar -> scalar :=
  lift2 d SFadd Z.add orb.
Definition mul (d : dtype) : scalar -> scalar -> scalar :=
  lift2 d SFmul Z.mul andb.

Definition zero (d : dtype) : scalar := cast_scalar d (SInt 0).

(** The sum of a list of elements, accumulated from the left.  Integers
    (and booleans, counted in an integer dtype) wrap around, so their sum
    does not depend on the order of the additions.  The native kernels
    accumulate floats in an order of their own: a float sum is the native
    one where the additions are exact, and the results below state the
    value of a float sum on such operands only. *)
Definition sum_scalars (d : dtype) (l : list scalar) : scalar :=
  fold_left (add d) l (zero d).

(** ** Tensors *)

(** A native tensor: a dtype tag, a shape, and the elements in row-major
    order. *)
Record Tensor := mkTensor {
  t_dtype : dtype;
  t_shape : list nat;
  t_data : list scalar
}.

Definition numel (sh : list nat) : nat := fold_right Nat.mul 1%nat sh.

Definition rank (x : Tensor) : nat := length (t_shape x).

(** A tensor is well formed when it holds one element per index. *)
Definition wf (x : Tensor) : Prop := length (t_data x) = numel (t_shape x).

(** All multi-indices of a shape, in row-major order. *)
Fixpoint indices (sh : list nat) : list (list nat) :=
  match sh with
  | [] => [[]]
  | n :: sh' =>
      flat_map (fun i => map (cons i) (indices sh')) (seq 0 n)
  end.

(** The position of a multi-index in the row-major layout. *)
Fixpoint offset (sh idx : list nat) : nat :=
  match sh, idx with
  | n :: sh', i :: idx' => (i * numel sh' + offset sh' idx')%nat
  | _, _ => 0%nat
  end.

(** [in_range sh idx] holds when [idx] addresses an element of shape [sh]. *)
Fixpoint in_range (sh idx : list nat) : Prop :=
  match sh, idx with
  | [], [] => True
  | n :: sh', i :: idx' => (i < n)%nat /\ in_range sh' idx'
  | _, _ => False
  end.

Definition get (x : Tensor) (idx : list nat) : scalar :=
  nth (offset (t_shape x) idx) (t_data x) (zero (t_dtype x)).

(** The tensor of shape [sh] whose element at [idx] is [f idx]. *)
Definition tabulate (d : dtype) (sh : list nat) (f : list nat -> scalar)
  : Tensor :=
  mkTensor d sh (map f (indices sh)).

(** [Tensor.to(dtype)] and [Tensor.type(dtype)], element by element. *)
Definition astype (d : dtype) (x : Tensor) : Tensor :=
  mkTensor d (t_shape x) (map (cast_scalar d) (t_data x)).

(** The tensor of dtype [d] and shape [sh] holding the integers [l]. *)
Definition of_ints (d : dtype) (sh : list nat) (l : list Z) : Tensor :=
  mkTensor d sh (map (fun z => cast_scalar d (SInt z)) l).

(** *** Shape kernels *)

(** A dimension argument is a Python integer; negative values count from
    the end.  A zero-dimensional tensor accepts [-1] and [0]. *)
Definition normalize_dim (r : nat) (d : Z) : Outcome nat :=
  let n := Z.max (Z.of_nat r) 1 in
  if (- n <=? d) && (d <? n)
  then Ok (Z.to_nat (if d <? 0 then d + n else d))
  else Raise IndexError.

(** Exchange of the entries at positions [i] and [j]. *)
Definition swap_at (i j : nat) (l : list nat) : list nat :=
  match l !! i, l !! j with
  | Some a, Some b => <[i:=b]> (<[j:=a]> l)
  | _, _ => l
  end.

(** [torch.transpose(x, dim0, dim1)]. *)
Definition transpose (x : Tensor) (dim0 dim1 : Z) : Outcome Tensor :=
  i ← normalize_dim (rank x) dim0;
  j ← normalize_dim (rank x) dim1;
  Ok (tabulate (t_dtype x) (swap_at i j (t_shape x))
        (fun idx => get x (swap_at i j idx))).

(** [torch.swapaxes] is an alias of [torch.transpose]. *)
Definition swapaxes := transpose.

(** [torch.t(x)]: tensors of rank 0 and 1 are returned as they are, a
    matrix is transposed, anything larger is refused. *)
Definition t (x : Tensor) : Outcome Tensor :=
  if (rank x <=? 1)%nat then Ok x
  else if (rank x =? 2)%nat then transpose x 0 1
  else Raise RuntimeError.

(** [torch.unsqueeze(x, dim)]: a new axis of size one at [dim]. *)
Definition unsqueeze (x : Tensor) (dim : Z) : Outcome Tensor :=
  let n := Z.of_nat (rank x) + 1 in
  if (- n <=? dim) && (dim <? n)
  then
    let p := Z.to_nat (if dim <? 0 then dim + n else dim) in
    Ok (mkTensor (t_dtype x) (take p (t_shape x) ++ 1%nat :: drop p (t_shape x))
          (t_data x))
  else Raise IndexError.

(** [torch.squeeze(x, dim)]: the axis [dim] is removed when its size is
    one. *)
Definition squeeze (x : Tensor) (dim : Z) : Outcome Tensor :=
  p ← normalize_dim (rank x) dim;
  match t_shape x !! p with
  | Some 1%nat => Ok (mkTensor (t_dtype x) (delete p (t_shape x)) (t_data x))
  | _ => Ok x
  end.

(** [torch.reshape(x, shape)] for a fully given shape. *)
Definition reshape (x : Tensor) (sh : list nat) : Outcome Tensor :=
  if (numel sh =? length (t_data x))%nat
  then Ok (mkTensor (t_dtype x) sh (t_data x))
  else Raise RuntimeError.

Fixpoint broadcast_rev (a b : list nat) : Outcome (list nat) :=
  match a, b with
  | [], _ => Ok b
  | _, [] => Ok a
  | x :: a', y :: b' =>
      r ← broadcast_rev a' b';
      if (x =? y)%nat then Ok (x :: r)
      else if (x =? 1)%nat then Ok (y :: r)
      else if (y =? 1)%nat then Ok (x :: r)
      else Raise RuntimeError
  end.

(** [torch.broadcast_shapes(a, b)]: shapes are aligned from the trailing
    dimension; paired sizes must agree or one of them be one. *)
Definition broadcast_shapes (a b : list nat) : Outcome (list nat) :=
  r ← broadcast_rev (rev a) (rev b); Ok (rev r).

(** [x.nelement()]. *)
Definition nelement (x : Tensor) : nat := numel (t_shape x).

(** *** Reductions and products *)

(** Removal of the entries at the positions listed in [dims]. *)
Definition drop_dims (dims : list nat) (sh : list nat) : list nat :=
  omap (fun '(p, n) => if bool_decide (p ∈ dims) then None else Some n)
       (zip (seq 0 (length sh)) sh).

(** Reduction of the axes [dims] by [f], which receives the elements of
    one slice in row-major order. *)
Definition reduce (d : dtype) (dims : list nat) (keepdim : bool)
    (f : list scalar -> scalar) (x : Tensor) : Tensor :=
  let keep := imap (fun p n => if bool_decide (p ∈ dims) then 1%nat else n)
                   (t_shape x) in
  let red := imap (fun p n => if bool_decide (p ∈ dims) then n else 1%nat)
                  (t_shape x) in
  mkTensor d (if keepdim then keep else drop_dims dims (t_shape x))
    (map (fun idx =>
            f (map (fun r => get x (zip_with Nat.add idx r)) (indices red)))
         (indices keep)).

(** The dtype of [torch.sum]: integers and booleans accumulate in int64. *)
Definition sum_dtype (d : dtype) : dtype :=
  match float_format d with Some _ => d | None => int64 end.

(** [torch.sum(x)]: the zero-dimensional sum of all elements. *)
Definition sum (x : Tensor) : Tensor :=
  mkTensor (sum_dtype (t_dtype x)) [] [sum_scalars (sum_dtype (t_dtype x)) (t_data x)].

(** The index into the operand of [diagonal] for the element [k] of the
    diagonal addressed by [rest] in the remaining axes. *)
Fixpoint weave (n p d1 d2 v1 v2 : nat) (rest : list nat) : list nat :=
  match n with
  | O => []
  | S n' =>
      if (p =? d1)%nat then v1 :: weave n' (S p) d1 d2 v1 v2 rest
      else if (p =? d2)%nat then v2 :: weave n' (S p) d1 d2 v1 v2 rest
      else match rest with
           | i :: rest' => i :: weave n' (S p) d1 d2 v1 v2 rest'
           | [] => 0%nat :: weave n' (S p) d1 d2 v1 v2 []
           end
  end.

(** [torch.diagonal(x, offset, dim1, dim2)]: the diagonal is appended as
    the last axis of the result. *)
Definition diagonal (x : Tensor) (off dim1 dim2 : Z) : Outcome Tensor :=
  if (rank x <? 2)%nat then Raise IndexError else
  d1 ← normalize_dim (rank x) dim1;
  d2 ← normalize_dim (rank x) dim2;
  if (d1 =? d2)%nat then Raise RuntimeError else
  let n1 := Z.of_nat (nth d1 (t_shape x) 0%nat) in
  let n2 := Z.of_nat (nth d2 (t_shape x) 0%nat) in
  let len := Z.to_nat (if 0 <=? off then Z.min n1 (n2 - off)
                       else Z.min (n1 + off) n2) in
  let rest := drop_dims [d1; d2] (t_shape x) in
  Ok (tabulate (t_dtype x) (rest ++ [len])
        (fun idx =>
           let k := Z.of_nat (List.last idx 0%nat) in
           get x (weave (rank x) 0 d1 d2
                    (Z.to_nat (k + Z.max (- off) 0))
                    (Z.to_nat (k + Z.max off 0))
                    (removelast idx)))).

(** The index into an operand of batch shape [sh] for the broadcast
    batch index [idx]. *)
Definition bcast_index (sh idx : list nat) : list nat :=
  zip_with (fun n i => if (n =? 1)%nat then 0%nat else i)
           sh (drop (length idx - length sh) idx).

(** [torch.matmul(a, b)]: a vector operand is promoted to a matrix and the
    added axis removed from the result; batch axes broadcast. *)
Definition matmul (a b : Tensor) : Outcome Tensor :=
  if negb (bool_decide (t_dtype a = t_dtype b)) then Raise RuntimeError else
  if (rank a =? 0)%nat || (rank b =? 0)%nat then Raise RuntimeError else
  let d := t_dtype a in
  let sa := if (rank a =? 1)%nat then 1%nat :: t_shape a else t_shape a in
  let sb := if (rank b =? 1)%nat then t_shape b ++ [1%nat] else t_shape b in
  let a' := mkTensor d sa (t_data a) in
  let b' := mkTensor d sb (t_data b) in
  let ba := take (length sa - 2) sa in
  let bb := take (length sb - 2) sb in
  let m := nth (length sa - 2) sa 0%nat in
  let k := nth (length sa - 1) sa 0%nat in
  let k' := nth (length sb - 2) sb 0%nat in
  let n := nth (length sb - 1) sb 0%nat in
  if negb (k =? k')%nat then Raise RuntimeError else
  batch ← broadcast_shapes ba bb;
  let nb := length batch in
  let full := tabulate d (batch ++ [m; n]) (fun idx =>
    let bi := take nb idx in
    let i := nth nb idx 0%nat in
    let j := nth (S nb) idx 0%nat in
    sum_scalars d
      (map (fun l => mul d (get a' (bcast_index ba bi ++ [i; l]))
                           (get b' (bcast_index bb bi ++ [l; j])))
           (seq 0 k))) in
  Ok (mkTensor d
        (batch ++ (if (rank a =? 1)%nat then [] else [m])
               ++ (if (rank b =? 1)%nat then [] else [n]))
        (t_data full)).

(** *** Vector norms *)

(** The cases [torch.linalg.vector_norm] distinguishes on [ord]. *)
Inductive ord_class :=
| OrdInf | OrdNegInf | OrdZero | OrdOne | OrdTwo
| OrdP (p : spec_float).

Definition b64 (z : Z) : spec_float := binary_normalize 53 1024 z 0 false.

Definition classify_ord (o : pynum) : ord_class :=
  let f := match o with PInt z => b64 z | PFloat f => f end in
  match f with
  | S754_infinity false => OrdInf
  | S754_infinity true => OrdNegInf
  | _ => if SFeqb f (b64 0) then OrdZero
         else if SFeqb f (b64 1) then OrdOne
         else if SFeqb f (b64 2) then OrdTwo
         else OrdP f
  end.

Section VectorNorm.
(** The power function of the native math library, in the format
    [(prec, emax)]; it is only reached for an [ord] other than
    [0], [1], [2] and the infinities. *)
Variable fpow : Z -> Z -> spec_float -> spec_float -> spec_float.
Variables prec emax : Z.

Definition of_Z (z : Z) : spec_float := binary_normalize prec emax z 0 false.

(** The sum of floats, accumulated from the left (see [sum_scalars] for
    the order of the native accumulation). *)
Definition fsum (l : list spec_float) : spec_float :=
  fold_left (SFadd prec emax) l (of_Z 0).

(** The norm of the absolute values [l] of one slice.  The maximum and
    the minimum propagate NaN. *)
Definition norm_of (c : ord_class) (l : list spec_float) : spec_float :=
  match c with
  | OrdInf =>
      fold_left (fun a v => if is_nan_float v || SFltb a v then v else a)
                l (of_Z 0)
  | OrdNegInf =>
      fold_left (fun a v => if is_nan_float v || SFltb v a then v else a)
                l (S754_infinity false)
  | OrdZero => fsum (map (fun v => if is_zero_float v then of_Z 0 else of_Z 1) l)
  | OrdOne => fsum l
  | OrdTwo => SFsqrt prec emax (fsum (map (fun v => SFmul prec emax v v) l))
  | OrdP p =>
      let p' := round_float prec emax p in
      fpow prec emax (fsum (map (fun v => fpow prec emax v p') l))
                     (SFdiv prec emax (of_Z 1) p')
  end.

Definition norm_slice (c : ord_class) (l : list scalar) : scalar :=
  SFloat (norm_of c (map (fun v => SFabs (scalar_to_float prec emax v)) l)).
End VectorNorm.

(** [torch.linalg.vector_norm(x, ord, dim, keepdim)]; [dim=None] and the
    empty sequence reduce every axis. *)
Definition linalg_vector_norm
    (fpow : Z -> Z -> spec_float -> spec_float -> spec_float)
    (x : Tensor) (ord : pynum) (dim : pyaxis) (keepdim : bool)
  : Outcome Tensor :=
  match float_format (t_dtype x) with
  | None => Raise RuntimeError
  | Some (prec, emax) =>
      dims ← match dim with
             | AxNone | AxSeq [] => Ok (seq 0 (rank x))
             | AxInt z => d ← normalize_dim (rank x) z; Ok [d]
             | AxSeq l => mapM (normalize_dim (rank x)) l
             end;
      let c := classify_ord ord in
      if negb (bool_decide (NoDup dims)) then Raise RuntimeError
      else if (nelement x =? 0)%nat
              && match c with OrdInf | OrdNegInf => true | _ => false end
      then Raise RuntimeError
      else Ok (reduce (t_dtype x) dims keepdim (norm_slice fpow prec emax c) x)
  end.

(** *** Vocabulary for matrices *)

(** The swap of the last two axes. *)
Definition transpose_last2 (x : Tensor) : Outcome Tensor :=
  transpose x (Z.of_nat (rank x) - 1) (Z.of_nat (rank x) - 2).

(** A stack of matrices is symmetric when it is equal to the swap of its
    last two axes. *)
Definition symmetric (x : Tensor) : Prop := transpose_last2 x = Ok x.

(** Every element above (below) the main diagonal of every matrix of the
    stack is zero. *)
Definition lower_triangular (x : Tensor) : Prop :=
  forall b i j, in_range (t_shape x) (b ++ [i; j]) -> (i < j)%nat ->
    scalar_to_bool (get x (b ++ [i; j])) = false.

Definition upper_triangular (x : Tensor) : Prop :=
  forall b i j, in_range (t_shape x) (b ++ [i; j]) -> (j < i)%nat ->
    scalar_to_bool (get x (b ++ [i; j])) = false.

(** The value of [x.to(dtype=d)]. *)
Definition to_value (d : dtype) (x : Tensor) : Tensor :=
  if bool_decide (t_dtype x = d) then x else astype d x.

(** *** Slicing, negation and concatenation *)

(** The Python slice [start:stop] with non-negative bounds on an axis of
    size [n]: the first position it selects and how many it selects. *)
Definition slice_bounds (start stop n : nat) : nat * nat :=
  let a := Nat.min start n in
  let b := Nat.min stop n in
  (a, (b - a)%nat).

(** [x[..., start:stop, :]]: the slice [start:stop] of the axis before
    the last; a tensor of rank below two has too few axes for the two
    indices. *)
Definition slice_before_last (x : Tensor) (start stop : nat)
  : Outcome Tensor :=
  if (rank x <? 2)%nat then Raise IndexError else
  let p := (rank x - 2)%nat in
  let '(a, len) := slice_bounds start stop (nth p (t_shape x) 0%nat) in
  Ok (tabulate (t_dtype x) (<[p:=len]> (t_shape x))
        (fun idx => get x (<[p:=(nth p idx 0 + a)%nat]> idx))).

(** The negation of one element in dtype [d]; integers wrap around. *)
Definition neg_scalar (d : dtype) (v : scalar) : scalar :=
  match float_format d, int_format d with
  | Some (prec, emax), _ => SFloat (SFopp (scalar_to_float prec emax v))
  | None, Some (w, sg) => SInt (wrap w sg (- wrap w sg (scalar_to_Z v)))
  | None, None => v
  end.

(** [-x], that is [torch.neg(x)]; a boolean tensor is refused. *)
Definition neg (x : Tensor) : Outcome Tensor :=
  if bool_decide (t_dtype x = bool_) then Raise RuntimeError
  else Ok (mkTensor (t_dtype x) (t_shape x)
             (map (neg_scalar (t_dtype x)) (t_data x))).

(** [torch.zeros(sh, dtype=d)]. *)
Definition zeros (d : dtype) (sh : list nat) : Tensor :=
  tabulate d sh (fun _ => zero d).

(** The operand of a concatenation that holds position [i] of the
    concatenated axis, and the position within that operand, for operands
    of the given sizes along the axis. *)
Fixpoint locate (sizes : list nat) (i : nat) : nat * nat :=
  match sizes with
  | [] => (0%nat, i)
  | n :: sizes' =>
      if (i <? n)%nat then (0%nat, i)
      else let '(k, j) := locate sizes' (i - n) in (S k, j)
  end.

(** [torch.cat(ts, dim)] on operands of one dtype: the operands agree on
    every axis but [dim].  (The promotion between operands of different
    dtypes and the exemption of empty one-dimensional operands are not
    modelled: [RuntimeError] stands for them.) *)
Definition cat (ts : list Tensor) (dim : Z) : Outcome Tensor :=
  match ts with
  | [] => Raise RuntimeError
  | t0 :: _ =>
      if (rank t0 =? 0)%nat then Raise RuntimeError else
      p ← normalize_dim (rank t0) dim;
      if forallb (fun u => bool_decide (t_dtype u = t_dtype t0)
                           && bool_decide (<[p:=0%nat]> (t_shape u)
                                           = <[p:=0%nat]> (t_shape t0))) ts
      then
        let sizes := map (fun u => nth p (t_shape u) 0%nat) ts in
        Ok (tabulate (t_dtype t0) (<[p:=sum_list sizes]> (t_shape t0))
              (fun idx =>
                 let '(k, j) := locate sizes (nth p idx 0%nat) in
                 get (nth k ts t0) (<[p:=j]> idx)))
      else Raise RuntimeError
  end.

End Torch.

(** ** What the Python code observes *)

Module Py.
Import Torch.

(** A tensor object is known by its identity; the store maps identities
    to the current value of the object.  Views are modelled as new
    objects: the sharing of storage between a view and its base is not
    represented. *)
Definition ref := nat.
Definition Heap := list Tensor.

(** One call into the native library, with the values of its tensor
    operands at the time of the call. *)
Record Call := mkCall {
  call_fn : string;
  call_args : list Tensor
}.

(** A computation reads and updates the store, emits native calls and
    returns or raises.  The store and the calls made so far survive an
    exception. *)
Record M (A : Type) := mkM { run : Heap -> Outcome A * Heap * list Call }.
Arguments mkM {A} _.
Arguments run {A} _ _.

#[global] Instance M_ret : MRet M := fun A a => mkM (fun h => (Ok a, h, [])).
#[global] Instance M_bind : MBind M := fun A B f m =>
  mkM (fun h =>
    match run m h with
    | (Ok a, h1, c1) =>
        match run (f a) h1 with
        | (o, h2, c2) => (o, h2, c1 ++ c2)
        end
    | (Raise e, h1, c1) => (Raise e, h1, c1)
    end).

Definition raise {A} (e : exn) : M A := mkM (fun h => (Raise e, h, [])).

Definition lift {A} (o : Outcome A) : M A := mkM (fun h => (o, h, [])).

(** The value of an object; [SystemError] stands for a dangling
    identity, which Python code cannot produce. *)
Definition deref (r : ref) : M Tensor :=
  mkM (fun h => match h !! r with
                | Some v => (Ok v, h, [])
                | None => (Raise SystemError, h, [])
                end).

(** A new object holding [v]. *)
Definition alloc (v : Tensor) : M ref :=
  mkM (fun h => (Ok (length h), h ++ [v], [])).

(** Overwriting the value of the object [r], whose identity is kept. *)
Definition store (r : ref) (v : Tensor) : M unit :=
  mkM (fun h => (Ok (), <[r:=v]> h, [])).

Definition emit (c : Call) : M unit := mkM (fun h => (Ok (), h, [c])).

(** A native call [fn(args, out=out)] whose kernel computes [res]: with
    no [out] the result is a new object; with [out] the result is written
    into that object, which must have the dtype of the result, and that
    same object is returned. *)
Definition native (fn : string) (args : list Tensor) (res : Outcome Tensor)
    (out : option ref) : M ref :=
  emit (mkCall fn args);;
  v ← lift res;
  match out with
  | None => alloc v
  | Some o =>
      b ← deref o;
      if bool_decide (t_dtype b = t_dtype v)
      then store o v;; mret o
      else raise RuntimeError
  end.

(** [x.to(dtype=d)] and [x.type(d)]: the object itself when it already
    has dtype [d], a converted copy otherwise. *)
Definition to_dtype (x : ref) (d : dtype) : M ref :=
  a ← deref x;
  if bool_decide (t_dtype a = d) then mret x else alloc (astype d a).

(** [t[i]] on a tuple of integers. *)
Definition py_index (l : list nat) (i : Z) : Outcome nat :=
  let n := Z.of_nat (length l) in
  if (- n <=? i) && (i <? n)
  then Ok (nth (Z.to_nat (if i <? 0 then i + n else i)) l 0%nat)
  else Raise IndexError.

(** [int(f)] on a float: truncation toward zero, [OverflowError] on an
    infinity and [ValueError] on NaN. *)
Definition int_of_float (f : spec_float) : Outcome Z :=
  match f with
  | S754_infinity _ => Raise OverflowError
  | S754_nan => Raise ValueError
  | _ => Ok (trunc_float f)
  end.

(** Python objects compared by [==] and [!=] in the backend. *)
Inductive pyobj :=
| PyFunction (qualname : string)
| PyInt (z : Z)
| PyStr (s : string)
| PyNativeDtype (d : dtype).

(** [a == b]: integers and strings compare by value; a function object
    and a native dtype (a [torch.dtype]) define no equality with objects
    of another type, so each is equal only to itself. *)
Definition py_eq (a b : pyobj) : bool :=
  match a, b with
  | PyInt x, PyInt y => x =? y
  | PyStr s, PyStr t => String.eqb s t
  | PyFunction f, PyFunction g => String.eqb f g
  | PyNativeDtype d, PyNativeDtype e => bool_decide (d = e)
  | _, _ => false
  end.

(** [a != b]. *)
Definition py_ne (a b : pyobj) : bool := negb (py_eq a b).

(** A native call that takes two tensor operands receives both in dtype
    [p]. *)
Definition good (p : dtype) (c : Call) : Prop :=
  length (call_args c) = 2%nat -> Forall (fun v => t_dtype v = p) (call_args c).

(** Every native call of the log that takes two tensor operands receives
    both in dtype [p]. *)
Definition operands_have_dtype (p : dtype) (cs : list Call) : Prop :=
  Forall (good p) cs.

(** The object [r] holds a tensor of dtype [p]. *)
Definition holds (p : dtype) (h : Heap) (r : ref) : Prop :=
  exists v, h !! r = Some v /\ t_dtype v = p.


(** [spec p I m Q]: from a store satisfying [I], every native call that
    [m] makes with two tensor operands receives both in dtype [p], and a
    returned value satisfies [Q] in the final store. *)
Definition spec (p : dtype) {A} (I : Heap -> Prop) (m : M A)
    (Q : A -> Heap -> Prop) : Prop :=
  forall h, I h ->
    operands_have_dtype p (run m h).2 /\
    forall a h' cs, run m h = (Ok a, h', cs) -> Q a h'.

(** [wp m h Q]: the run of [m] from the store [h] ends with an outcome, a
    store and a log of native calls that satisfy [Q]. *)
Definition wp {A} (m : M A) (h : Heap)
    (Q : Outcome A -> Heap -> list Call -> Prop) : Prop :=
  match run m h with
  | (o, h', cs) => Q o h' cs
  end.

(** The names of the native functions called, in order. *)
Definition called (cs : list Call) : list string := map call_fn cs.


End Py.

(** ** The environment of the backend *)

(** What the backend functions use and the sources do not contain: the
    version of the native library, ivy's promotion table and the native
    numeric kernels.  Every result below holds for every environment. *)
Class Env := {
  (** [version], imported by the backend module. *)
  version : list nat;
  (** [ivy.promote_types]. *)
  promote_types : Torch.dtype -> Torch.dtype -> Torch.dtype;
  torch_linalg_cholesky : Torch.Tensor -> Outcome Torch.Tensor;
  torch_linalg_cross : Torch.Tensor -> Torch.Tensor -> Z -> Outcome Torch.Tensor;
  torch_linalg_det : Torch.Tensor -> Outcome Torch.Tensor;
  torch_linalg_eigh :
    Torch.Tensor -> string -> Outcome (Torch.Tensor * Torch.Tensor);
  torch_inner : Torch.Tensor -> Torch.Tensor -> Outcome Torch.Tensor;
  torch_inverse : Torch.Tensor -> Outcome Torch.Tensor;
  torch_linalg_matrix_norm :
    Torch.Tensor -> pyord -> Z * Z -> bool -> Outcome Torch.Tensor;
  torch_mul : Torch.Tensor -> Torch.Tensor -> Outcome Torch.Tensor;
  torch_outer : Torch.Tensor -> Torch.Tensor -> Outcome Torch.Tensor;
  torch_linalg_solve : Torch.Tensor -> Torch.Tensor -> Outcome Torch.Tensor;
  torch_tensordot :
    Torch.Tensor -> Torch.Tensor -> pyaxes -> Outcome Torch.Tensor;
  torch_pow : Z -> Z -> spec_float -> spec_float -> spec_float
}.

(** ** Helpers of ivy used by the backend *)

Module Ivy.
Import Torch Py.

Section WithEnv.
Context {E : Env}.

(** Modelled from the spec: [ivy.inplace_update], which the sources do
    not contain.  The data of the computed result is copied into the
    existing buffer, whose identity is preserved.  (The test
    [ivy.exists(out)] of the backend is the case analysis on [out].) *)
Definition inplace_update (x val : ref) : M ref :=
  v ← deref val;
  _ ← deref x;
  store x v;;
  mret x.

(** [ivy.as_native_dtype]: the native dtype (a [torch.dtype]) of a
    dtype. *)
Definition as_native_dtype (d : dtype) : dtype := d.

(** Modelled from the spec: [ivy.promote_types_of_inputs], which the
    sources do not contain.  The promotion resolver is invoked on the two
    dtypes and both operands are cast up to the promoted dtype. *)
Definition promote_types_of_inputs (x1 x2 : ref) : M (ref * ref) :=
  a ← deref x1;
  b ← deref x2;
  let promoted := promote_types (t_dtype a) (t_dtype b) in
  r1 ← alloc (astype promoted a);
  r2 ← alloc (astype promoted b);
  mret (r1, r2).

End WithEnv.
End Ivy.

(** ** The torch backend: [ivy/functional/backends/torch/linear_algebra.py] *)

Module Backend.
Import Torch Py Ivy.

Section WithEnv.
Context {E : Env}.

(** *** Calls into the native library on tensor objects *)

Definition shape_of (x : ref) : M (list nat) := a ← deref x; mret (t_shape a).

Definition call1 (fn : string) (k : Tensor -> Outcome Tensor)
    (x : ref) (out : option ref) : M ref :=
  a ← deref x; native fn [a] (k a) out.

Definition call2 (fn : string) (k : Tensor -> Tensor -> Outcome Tensor)
    (x1 x2 : ref) (out : option ref) : M ref :=
  a ← deref x1; b ← deref x2; native fn [a; b] (k a b) out.

Definition torch_transpose (x : ref) (dim0 dim1 : Z) : M ref :=
  call1 "torch.transpose" (fun a => Torch.transpose a dim0 dim1) x None.

Definition torch_t (x : ref) : M ref := call1 "torch.t" Torch.t x None.

Definition torch_unsqueeze (x : ref) (dim : Z) : M ref :=
  call1 "torch.unsqueeze" (fun a => Torch.unsqueeze a dim) x None.

Definition torch_squeeze (x : ref) (dim : Z) : M ref :=
  call1 "torch.squeeze" (fun a => Torch.squeeze a dim) x None.

(** *** The backend functions *)

(** [cholesky(x, /, *, upper=False, out=None)]. *)
Definition cholesky (x : ref) (upper : bool) (out : option ref) : M ref :=
  if negb upper then
    call1 "torch.linalg.cholesky" torch_linalg_cholesky x out
  else
    sh ← shape_of x;
    let n := Z.of_nat (length sh) in
    xt ← torch_transpose x (n - 1) (n - 2);
    l ← call1 "torch.linalg.cholesky" torch_linalg_cholesky xt None;
    ret ← torch_transpose l (n - 1) (n - 2);
    match out with
    | Some o => inplace_update o ret
    | None => mret ret
    end.

(** [cross(x1, x2, /, *, axisa=-1, axisb=-1, axisc=-1, axis=None,
    out=None)]. *)
Definition cross (x1 x2 : ref) (axisa axisb axisc : Z) (axis : option Z)
    (out : option ref) : M ref :=
  let axis := match axis with None => -1 | Some a => a end in
  '(x1, x2) ← promote_types_of_inputs x1 x2;
  if negb (axis =? 0) then
    call2 "torch.linalg.cross" (fun a b => torch_linalg_cross a b axis)
      x1 x2 None
  else
    x1 ← torch_transpose x1 axisa 1;
    x2 ← torch_transpose x2 axisb 1;
    r ← call2 "torch.linalg.cross" (fun a b => torch_linalg_cross a b (-1))
          x1 x2 out;
    torch_transpose r axisc 1.

(** [det(x, /, *, out=None)]. *)
Definition det (x : ref) (out : option ref) : M ref :=
  call1 "torch.linalg.det" torch_linalg_det x out.

(** [diagonal(x, /, *, offset=0, axis1=-2, axis2=-1, out=None)]. *)
Definition diagonal (x : ref) (offset axis1 axis2 : Z) (out : option ref)
  : M ref :=
  call1 "torch.diagonal" (fun a => Torch.diagonal a offset axis1 axis2) x None.


(** [inner(x1, x2, *, out=None)]. *)
Definition inner (x1 x2 : ref) (out : option ref) : M ref :=
  '(x1, x2) ← promote_types_of_inputs x1 x2;
  call2 "torch.inner" torch_inner x1 x2 out.

(** [inv(x, /, *, adjoint=False, out=None)].  The test compares the
    function [torch.linalg.det] itself with [0]; a path that ends without
    a [return] yields [None]. *)
Definition inv (x : ref) (adjoint : bool) (out : option ref)
  : M (option ref) :=
  if py_eq (PyFunction "torch.linalg.det") (PyInt 0) then
    let ret := x in
    match out with
    | Some o => r ← inplace_update o ret; mret (Some r)
    | None => mret None
    end
  else
    if negb adjoint then
      ret ← call1 "torch.inverse" torch_inverse x out;
      mret (Some ret)
    else
      x ← torch_t x;
      ret ← call1 "torch.inverse" torch_inverse x out;
      match out with
      | Some o => r ← inplace_update o ret; mret (Some r)
      | None => mret (Some ret)
      end.

(** [matmul(x1, x2, /, *, transpose_a=False, transpose_b=False,
    out=None)]. *)
Definition matmul (x1 x2 : ref) (transpose_a transpose_b : bool)
    (out : option ref) : M ref :=
  x1 ← (if transpose_a then torch_t x1 else mret x1);
  x2 ← (if transpose_b then torch_t x2 else mret x2);
  '(x1, x2) ← promote_types_of_inputs x1 x2;
  call2 "torch.matmul" Torch.matmul x1 x2 out.

(** [matrix_norm(x, /, *, ord="fro", axis=(-2, -1), keepdims=False,
    out=None)]. *)
Definition matrix_norm (x : ref) (ord : pyord) (axis : Z * Z)
    (keepdims : bool) (out : option ref) : M ref :=
  ord ← match ord with
        | OrdNum (PFloat f) => z ← lift (int_of_float f); mret (OrdNum (PInt z))
        | _ => mret ord
        end;
  call1 "torch.linalg.matrix_norm"
    (fun a => torch_linalg_matrix_norm a ord axis keepdims) x out.

(** [matrix_transpose(x, /, *, out=None)]. *)
Definition matrix_transpose (x : ref) (out : option ref) : M ref :=
  call1 "torch.swapaxes" (fun a => Torch.swapaxes a (-1) (-2)) x None.

(** [outer(x1, x2, *, out=None)]. *)
Definition outer (x1 x2 : ref) (out : option ref) : M ref :=
  '(x1, x2) ← promote_types_of_inputs x1 x2;
  call2 "torch.outer" torch_outer x1 x2 out.

(** [for i in range(n): x2 = torch.unsqueeze(x2, dim=0)]. *)
Fixpoint unsqueeze_front (n : nat) (x2 : ref) : M ref :=
  match n with
  | O => mret x2
  | S n' => x2 ← torch_unsqueeze x2 0; unsqueeze_front n' x2
  end.

(** [solve(x1, x2, *, out=None)]. *)
Definition solve (x1 x2 : ref) (out : option ref) : M ref :=
  '(x1, x2) ← promote_types_of_inputs x1 x2;
  s1 ← shape_of x1;
  s2 ← shape_of x2;
  '(expanded_last, x2) ←
    (if (length s2 <=? 1)%nat then
       l2 ← lift (py_index s2 (-1));
       l1 ← lift (py_index s1 (-1));
       if (l2 =? l1)%nat
       then x2 ← torch_unsqueeze x2 1; mret (true, x2)
       else mret (false, x2)
     else mret (false, x2));
  a ← deref x1;
  b ← deref x2;
  let is_empty_x1 := (nelement a =? 0)%nat in
  let is_empty_x2 := (nelement b =? 0)%nat in
  ret ←
    (if is_empty_x1 || is_empty_x2 then
       x2 ← unsqueeze_front (length s1 - 2) x2;
       s2 ← shape_of x2;
       emit (mkCall "torch.broadcast_shapes" []);;
       output_shape ← lift (broadcast_shapes (take (length s1 - 2) s1)
                                             (take (length s2 - 2) s2));
       r2 ← lift (py_index s2 (-2));
       c2 ← lift (py_index s2 (-1));
       let output_shape := output_shape ++ [r2] ++ [c2] in
       ret ← native "torch.Tensor" [] (Ok (mkTensor float32 [0%nat] [])) None;
       call1 "torch.reshape" (fun v => Torch.reshape v output_shape) ret None
     else
       call2 "torch.linalg.solve" torch_linalg_solve x1 x2 None);
  if (expanded_last : bool) then torch_squeeze ret (-1) else mret ret.

(** [tensordot(x1, x2, axes=2, *, out=None)]. *)
Definition tensordot (x1 x2 : ref) (axes : pyaxes) (out : option ref)
  : M ref :=
  a ← deref x1;
  b ← deref x2;
  let dtype := as_native_dtype (promote_types (t_dtype a) (t_dtype b)) in
  x1 ← to_dtype x1 float32;
  x2 ← to_dtype x2 float32;
  ret ←
    (match axes with
     | AxesInt 0 =>
         a1 ← deref x1;
         b2 ← deref x2;
         x1 ← lift (Torch.reshape a1
                      (t_shape a1 ++ repeat 1%nat (rank b2))) ≫= alloc;
         call2 "torch.mul" torch_mul x1 x2 None
     | _ =>
         call2 "torch.tensordot" (fun u v => torch_tensordot u v axes)
           x1 x2 None
     end);
  to_dtype ret dtype.

(** [trace(x, /, *, offset=0, axis1=0, axis2=1, out=None)]. *)
Definition trace (x : ref) (offset axis1 axis2 : Z) (out : option ref)
  : M ref :=
  ret ← call1 "torch.diagonal"
          (fun a => Torch.diagonal a offset axis1 axis2) x None;
  ret ← call1 "torch.sum" (fun a => Ok (Torch.sum a)) ret None;
  mret ret.

(** [vecdot(x1, x2, axis=-1, *, out=None)].  The test
    [dtype != "float64"] compares the native dtype with a string. *)
Definition vecdot (x1 x2 : ref) (axis : Z) (out : option ref) : M ref :=
  a ← deref x1;
  b ← deref x2;
  let dtype := as_native_dtype (promote_types (t_dtype a) (t_dtype b)) in
  '(x1, x2) ←
    (if py_ne (PyNativeDtype dtype) (PyStr "float64")
     then x1 ← to_dtype x1 float32; x2 ← to_dtype x2 float32; mret (x1, x2)
     else mret (x1, x2));
  r ← call2 "torch.tensordot"
        (fun u v => torch_tensordot u v (AxesPair [axis] [axis])) x1 x2 out;
  to_dtype r dtype.

(** [vector_norm(x, axis=None, keepdims=False, ord=2, *, out=None)]. *)
Definition vector_norm (x : ref) (axis : pyaxis) (keepdims : bool)
    (ord : pynum) (out : option ref) : M ref :=
  py_normalized_vector ←
    call1 "torch.linalg.vector_norm"
      (fun a => linalg_vector_norm torch_pow a ord axis keepdims) x out;
  sh ← shape_of py_normalized_vector;
  match sh with
  | [] => torch_unsqueeze py_normalized_vector 0
  | _ => mret py_normalized_vector
  end.

(** *** Attributes attached to the backend functions *)

(** The functions defined by the backend module. *)
Inductive fn :=
| Cholesky | Cross | Det | Diag | Diagonal | Eigh | Eigvalsh | Inner | Inv
| Matmul | MatrixNorm | MatrixPower | MatrixRank | MatrixTranspose | Outer
| Pinv | Qr | Slogdet | Solve | Svd | Svdvals | Tensordot | Trace | Vecdot
| VectorNorm | VectorToSkewSymmetricMatrix | Vander.







End WithEnv.

(** *** The skew-symmetric matrix of a vector *)

(** [x[..., start:stop, :]] on a tensor object. *)
Definition getitem_slice (x : ref) (start stop : nat) : M ref :=
  call1 "Tensor.__getitem__" (fun a => slice_before_last a start stop) x None.

(** [-x] on a tensor object. *)
Definition torch_neg (x : ref) : M ref := call1 "torch.neg" Torch.neg x None.

(** [torch.cat(xs, dim, out=out)]. *)
Definition torch_cat (xs : list ref) (dim : Z) (out : option ref) : M ref :=
  ts ← mapM deref xs;
  native "torch.cat" ts (Torch.cat ts dim) out.

(** [vector_to_skew_symmetric_matrix(vector, *, out=None)]. *)
Definition vector_to_skew_symmetric_matrix (vector : ref) (out : option ref)
  : M ref :=
  v ← deref vector;
  let batch_shape := removelast (t_shape v) in
  vector_expanded ← torch_unsqueeze vector (-1);
  a1s ← getitem_slice vector_expanded 0 1;
  a2s ← getitem_slice vector_expanded 1 2;
  a3s ← getitem_slice vector_expanded 2 3;
  zs ← native "torch.zeros" []
         (Ok (zeros (t_dtype v) (batch_shape ++ [1; 1]%nat))) None;
  na3 ← torch_neg a3s;
  row1 ← torch_cat [zs; na3; a2s] (-1) None;
  na1 ← torch_neg a1s;
  row2 ← torch_cat [a3s; zs; na1] (-1) None;
  na2 ← torch_neg a2s;
  row3 ← torch_cat [na2; a1s; zs] (-1) None;
  torch_cat [row1; row2; row3] (-2) out.

End Backend.

(** ** The torch frontend:
    [ivy/functional/frontends/torch/miscellaneous_ops.py] *)

Module Frontend.
Import Torch Py.

(** The name of a dtype; an [ivy.Dtype] is a string, which the frontend
    searches with [in]. *)
Definition dtype_name (d : dtype) : string :=
  match d with
  | bool_ => "bool"
  | uint8 => "uint8"
  | int8 => "int8"
  | int16 => "int16"
  | int32 => "int32"
  | int64 => "int64"
  | bfloat16 => "bfloat16"
  | float16 => "float16"
  | float32 => "float32"
  | float64 => "float64"
  end.

(** [s in t] on strings: [s] occurs in [t]. *)
Fixpoint contains (s t : string) : bool :=
  String.prefix s t
  || match t with
     | EmptyString => false
     | String _ t' => contains s t'
     end.

(** [ivy.astype(x, dtype)] and [x.astype(dtype)], which the sources do not
    contain: a new array holding the elements of [x] converted to
    [dtype]. *)
Definition astype (x : ref) (d : dtype) : M ref :=
  a ← deref x; alloc (to_value d a).

(** [ivy.trace] and [ivy.diagonal] of
    [ivy/functional/ivy/linear_algebra.py] hand their arguments to the
    function of that name of the current backend. *)
Definition ivy_trace (x : ref) (offset axis1 axis2 : Z) (out : option ref)
  : M ref :=
  Backend.trace x offset axis1 axis2 out.

Definition ivy_diagonal (x : ref) (offset axis1 axis2 : Z) (out : option ref)
  : M ref :=
  Backend.diagonal x offset axis1 axis2 out.

(** [trace(input)]. *)
Definition trace (input : ref) : M ref :=
  a ← deref input;
  input ← (if contains "int" (dtype_name (t_dtype a))
           then astype input int64
           else mret input);
  a ← deref input;
  let target_type :=
    if contains "int" (dtype_name (t_dtype a)) then int64 else t_dtype a in
  ret ← ivy_trace input 0 0 1 None;
  astype ret target_type.

(** [diagonal(input, offset=0, dim1=0, dim2=1)]. *)
Definition diagonal (input : ref) (offset dim1 dim2 : Z) : M ref :=
  ivy_diagonal input offset dim1 dim2 None.

End Frontend.

(** ** The container broadcast of the dispatch pipeline *)

Module Nestable.

Section WithLeaves.
(** The values at the leaves: arrays and plain option values. *)
Variable V : Type.

(** An argument of a nestable operation: a plain value, or a container
    mapping keys, in insertion order, to nested arguments. *)
#[warnings="-register-all"]
Inductive Nest :=
| Leaf (v : V)
| Container (items : list (string * Nest)).

Fixpoint assoc {X} (k : string) (items : list (string * X)) : option X :=
  match items with
  | [] => None
  | (k', x) :: items' => if String.eqb k k' then Some x else assoc k items'
  end.

(** The part of another argument that goes with key [k]: a container is
    looked up, anything else is broadcast uniformly to every key. *)
Definition select (k : string) (arg : Nest) : Outcome Nest :=
  match arg with
  | Leaf v => Ok (Leaf v)
  | Container items =>
      match assoc k items with
      | Some sub => Ok sub
      | None => Raise KeyMismatch
      end
  end.

(** Modelled from the spec: the container broadcast engine
    ([handle_nestable] of [ivy.func_wrapper], which the sources do not
    contain).  A plain primary argument is handed to the operation
    directly; a container is traversed key by key, in order, and a new
    container with the same keys holds the results. *)
Fixpoint broadcast (op : V -> list Nest -> Outcome V) (c : Nest)
    (rest : list Nest) : Outcome Nest :=
  match c with
  | Leaf a => r ← op a rest; Ok (Leaf r)
  | Container items =>
      items' ←
        (fix go (its : list (string * Nest)) : Outcome (list (string * Nest)) :=
           match its with
           | [] => Ok []
           | (k, sub) :: its' =>
               rest_k ← mapM (select k) rest;
               r ← broadcast op sub rest_k;
               tl ← go its';
               Ok ((k, r) :: tl)
           end) items;
      Ok (Container items')
  end.

(** The container with the plain values [kvs] at its keys. *)
Definition flat (kvs : list (string * V)) : Nest :=
  Container (map (fun '(k, v) => (k, Leaf v)) kvs).

(** The container with the keys of [kvs] and the value [f k] at key [k]. *)
Definition keyed (kvs : list (string * V)) (f : string -> Nest) : Nest :=
  Container (map (fun '(k, _) => (k, f k)) kvs).

(** The plain-array layer normalisation [ivy.layer_norm], applied to an
    array and the remaining arguments [normalized_idxs, weight, bias,
    epsilon, new_std, out]; the sources do not contain it. *)
Variable layer_norm_array : V -> list Nest -> Outcome V.

(** Modelled from the spec: [ivy.layer_norm] is the plain-array operation
    made nestable by the broadcast engine. *)
Definition ivy_layer_norm (x normalized_idxs weight bias epsilon new_std out
    : Nest) : Outcome Nest :=
  broadcast layer_norm_array x
    [normalized_idxs; weight; bias; epsilon; new_std; out].

(** [ContainerWithNorms.layer_norm] of [ivy/container/norms.py]. *)
Definition layer_norm (self normalized_idxs weight bias epsilon new_std out
    : Nest) : Outcome Nest :=
  ivy_layer_norm self normalized_idxs weight bias epsilon new_std out.

End WithLeaves.

Arguments Leaf {V} v.
Arguments Container {V} items.

End Nestable.

(** ** A concrete environment for running examples *)

Module Example.
Import Torch Py.

(** Modelled from the spec: the promotion table of the promotion
    resolver ([ivy.promote_types]), which the sources do not contain.  It
    is total and symmetric, the identity on equal dtypes, favours the
    float on a mixed pair and the widest of two floats. *)
Definition promotion_table (a b : dtype) : dtype :=
  if bool_decide (a = b) then a else
  match float_format a, float_format b with
  | Some (_, _), Some (_, _) =>
      if bool_decide (a = float64 \/ b = float64) then float64 else float32
  | Some _, None => a
  | None, Some _ => b
  | None, None =>
      match int_format a, int_format b with
      | None, _ => b
      | _, None => a
      | Some (wa, sa), Some (wb, sb) =>
          if Bool.eqb sa sb then (if wa <? wb then b else a)
          else
            (* [uint8] against a signed type: the next signed width that
               holds both *)
            let s := if sa then a else b in
            match s with
            | int8 => int16
            | _ => s
            end
      end
  end.

Definition f32 (z : Z) : scalar := SFloat (binary_normalize 24 128 z 0 false).
Definition f64 (z : Z) : scalar := SFloat (binary_normalize 53 1024 z 0 false).

(** A float32 vector and a float32 matrix with integer entries. *)
Definition vec (l : list Z) : Tensor :=
  mkTensor float32 [length l] (map f32 l).
Definition mat (r c : nat) (l : list Z) : Tensor :=
  mkTensor float32 [r; c] (map f32 l).

Section Kernels.
Variables prec emax : Z.
Let fadd := SFadd prec emax.
Let fsub := SFsub prec emax.
Let fmul := SFmul prec emax.
Let fdiv := SFdiv prec emax.
Let f0 := binary_normalize prec emax 0 0 false.

Definition dot (u v : list spec_float) : spec_float :=
  fold_left fadd (zip_with fmul u v) f0.

(** Row [i] of the lower Cholesky factor, from the rows above it and
    row [i] of the matrix (Cholesky-Banachiewicz). *)
Definition chol_row (rows : list (list spec_float)) (arow : list spec_float)
    (i : nat) : list spec_float :=
  fold_left
    (fun acc j =>
       let lj := if (j =? i)%nat then acc else nth j rows [] in
       let s := dot (take j acc) (take j lj) in
       let d := fsub (nth j arow f0) s in
       acc ++ [if (j =? i)%nat then SFsqrt prec emax d
               else fdiv d (nth j lj f0)])
    (seq 0 (S i)) [].

Definition chol_rows (a : list (list spec_float)) : list (list spec_float) :=
  fold_left (fun rows i => rows ++ [chol_row rows (nth i a []) i])
            (seq 0 (length a)) [].

Definition positive (f : spec_float) : bool :=
  match f with
  | S754_finite false _ _ | S754_infinity false => true
  | _ => false
  end.
End Kernels.

(** The rows of a matrix, as floats of its dtype. *)
Definition rows_of (x : Tensor) (prec emax : Z) : list (list spec_float) :=
  match t_shape x with
  | [r; c] =>
      map (fun i => map (fun j => scalar_to_float prec emax (get x [i; j]))
                        (seq 0 c)) (seq 0 r)
  | _ => []
  end.

(** The Cholesky factorisation of one square float matrix; a pivot that
    is not positive is refused. *)
Definition cholesky_kernel (x : Tensor) : Outcome Tensor :=
  match float_format (t_dtype x), t_shape x with
  | Some (prec, emax), [n; m] =>
      if negb (n =? m)%nat then Raise RuntimeError else
      let l := chol_rows prec emax (rows_of x prec emax) in
      if forallb (fun i => positive (nth i (nth i l []) S754_nan)) (seq 0 n)
      then Ok (tabulate (t_dtype x) [n; n]
                 (fun idx => match idx with
                             | [i; j] => SFloat (nth j (nth i l [])
                                           (binary_normalize prec emax 0 0 false))
                             | _ => zero (t_dtype x)
                             end))
      else Raise RuntimeError
  | _, _ => Raise RuntimeError
  end.

(** The inverse of one 2x2 float matrix; a singular matrix is refused. *)
Definition inverse_kernel (x : Tensor) : Outcome Tensor :=
  match float_format (t_dtype x), t_shape x, t_data x with
  | Some (prec, emax), [2%nat; 2%nat], [a; b; c; d] =>
      let f := scalar_to_float prec emax in
      let det := SFsub prec emax (SFmul prec emax (f a) (f d))
                                 (SFmul prec emax (f b) (f c)) in
      if is_zero_float det then Raise RuntimeError else
      Ok (mkTensor (t_dtype x) [2%nat; 2%nat]
            [SFloat (SFdiv prec emax (f d) det);
             SFloat (SFdiv prec emax (SFopp (f b)) det);
             SFloat (SFdiv prec emax (SFopp (f c)) det);
             SFloat (SFdiv prec emax (f a) det)])
  | _, _, _ => Raise RuntimeError
  end.

(** The inner product of two vectors of one dtype. *)
Definition dot_kernel (a b : Tensor) : Outcome Tensor :=
  match t_shape a, t_shape b with
  | [n], [m] =>
      if (n =? m)%nat && bool_decide (t_dtype a = t_dtype b)
      then Ok (mkTensor (t_dtype a) []
                 [sum_scalars (t_dtype a)
                    (zip_with (mul (t_dtype a)) (t_data a) (t_data b))])
      else Raise RuntimeError
  | _, _ => Raise RuntimeError
  end.

(** A symmetric positive-definite matrix and its lower Cholesky factor. *)
Definition example_spd : Tensor := mat 2 2 [4; 2; 2; 5].
Definition example_factor : Tensor := mat 2 2 [2; 0; 1; 2].

(** A symmetric positive-definite matrix whose Cholesky factor is not
    exact in [float32], and the factor the kernel below computes. *)
Definition example_spd_inexact : Tensor := mat 2 2 [2; 1; 1; 2].
Definition example_factor_inexact : Tensor :=
  Eval vm_compute in
    match cholesky_kernel example_spd_inexact with
    | Ok l => l
    | Raise _ => example_spd_inexact
    end.


(** An environment at version 1.11.0 whose kernels agree with the native
    library on the operands of the examples below: square matrices for
    [cholesky], 2x2 matrices for [inverse], vectors for the products. *)
#[local] Instance env : Env := {|
  version := [1; 11; 0]%nat;
  promote_types := promotion_table;
  torch_linalg_cholesky := cholesky_kernel;
  torch_linalg_cross := fun _ _ _ => Raise RuntimeError;
  torch_linalg_det := fun _ => Raise RuntimeError;
  torch_linalg_eigh := fun _ _ => Raise RuntimeError;
  torch_inner := dot_kernel;
  torch_inverse := inverse_kernel;
  torch_linalg_matrix_norm := fun _ _ _ _ => Raise RuntimeError;
  torch_mul := fun _ _ => Raise RuntimeError;
  torch_outer := fun _ _ => Raise RuntimeError;
  torch_linalg_solve := fun _ _ => Raise RuntimeError;
  torch_tensordot := fun a b _ => dot_kernel a b;
  torch_pow := fun _ _ _ _ => S754_nan
|}.

(** The cross product of two float vectors of three elements. *)
Definition cross_kernel (a b : Tensor) (dim : Z) : Outcome Tensor :=
  match float_format (t_dtype a), t_shape a, t_shape b, t_data a, t_data b with
  | Some (prec, emax), [3%nat], [3%nat], [a1; a2; a3], [b1; b2; b3] =>
      if bool_decide (t_dtype a = t_dtype b) then
        let f := scalar_to_float prec emax in
        let m u v := SFmul prec emax (f u) (f v) in
        Ok (mkTensor (t_dtype a) [3%nat]
              [SFloat (SFsub prec emax (m a2 b3) (m a3 b2));
               SFloat (SFsub prec emax (m a3 b1) (m a1 b3));
               SFloat (SFsub prec emax (m a1 b2) (m a2 b1))])
      else Raise RuntimeError
  | _, _, _, _, _ => Raise RuntimeError
  end.

(** The solution of one 1x1 float system [a . x = b]; a zero [a] is
    refused. *)
Definition solve_kernel (a b : Tensor) : Outcome Tensor :=
  match float_format (t_dtype a), t_shape a, t_shape b, t_data a, t_data b with
  | Some (prec, emax), [1%nat; 1%nat], [1%nat; 1%nat], [u], [v] =>
      if bool_decide (t_dtype a = t_dtype b) then
        let f := scalar_to_float prec emax in
        if is_zero_float (f u) then Raise RuntimeError
        else Ok (mkTensor (t_dtype a) [1%nat; 1%nat]
                   [SFloat (SFdiv prec emax (f v) (f u))])
      else Raise RuntimeError
  | _, _, _, _, _ => Raise RuntimeError
  end.

(** The environment [env] with kernels for the cross product of vectors
    of three elements and for 1x1 linear systems. *)
Definition env_products : Env := {|
  version := [1; 11; 0]%nat;
  promote_types := promotion_table;
  torch_linalg_cholesky := cholesky_kernel;
  torch_linalg_cross := cross_kernel;
  torch_linalg_det := fun _ => Raise RuntimeError;
  torch_linalg_eigh := fun _ _ => Raise RuntimeError;
  torch_inner := dot_kernel;
  torch_inverse := inverse_kernel;
  torch_linalg_matrix_norm := fun _ _ _ _ => Raise RuntimeError;
  torch_mul := fun _ _ => Raise RuntimeError;
  torch_outer := fun _ _ => Raise RuntimeError;
  torch_linalg_solve := solve_kernel;
  torch_tensordot := fun a b _ => dot_kernel a b;
  torch_pow := fun _ _ _ _ => S754_nan
|}.

End Example.

(** * Properties *)

Import Torch Py Ivy.

(** The wrappers below are unfolded on request only. *)
Arguments native : simpl never.
Arguments inplace_update : simpl never.
Arguments promote_types_of_inputs : simpl never.
Arguments to_dtype : simpl never.
Arguments Backend.call1 : simpl never.
Arguments Backend.call2 : simpl never.

(** ** Running computations *)

Section RunFacts.
Context {A B : Type}.

Lemma run_bind (m : M A) (f : A -> M B) h :
  run (m ≫= f) h =
  match run m h with
  | (Ok a, h1, c1) =>
      match run (f a) h1 with (o, h2, c2) => (o, h2, c1 ++ c2) end
  | (Raise e, h1, c1) => (Raise e, h1, c1)
  end.
Proof. reflexivity. Qed.

Lemma run_bind_ok (m : M A) (f : A -> M B) h a h1 c1 :
  run m h = (Ok a, h1, c1) ->
  run (m ≫= f) h =
  match run (f a) h1 with (o, h2, c2) => (o, h2, c1 ++ c2) end.
Proof. intros Hm. rewrite run_bind, Hm. reflexivity. Qed.

Lemma run_bind_raise (m : M A) (f : A -> M B) h e h1 c1 :
  run m h = (Raise e, h1, c1) -> run (m ≫= f) h = (Raise e, h1, c1).
Proof. intros Hm. rewrite run_bind, Hm. reflexivity. Qed.

End RunFacts.

Lemma run_ret {A} (a : A) h : run (mret a) h = (Ok a, h, []).
Proof. reflexivity. Qed.

Lemma run_deref h r v : h !! r = Some v -> run (deref r) h = (Ok v, h, []).
Proof. intros Hr. unfold deref. simpl. rewrite Hr. reflexivity. Qed.

Lemma lookup_fresh (h : Heap) (v : Tensor) : (h ++ [v]) !! length h = Some v.
Proof. rewrite lookup_app_r by lia. rewrite Nat.sub_diag. reflexivity. Qed.

Lemma lookup_fresh_fst (h : Heap) (v w : Tensor) :
  (h ++ [v; w]) !! length h = Some v.
Proof. rewrite lookup_app_r by lia. rewrite Nat.sub_diag. reflexivity. Qed.

Lemma lookup_fresh_snd (h : Heap) (v w : Tensor) :
  (h ++ [v; w]) !! S (length h) = Some w.
Proof.
  rewrite lookup_app_r by lia.
  replace (S (length h) - length h)%nat with 1%nat by lia. reflexivity.
Qed.

Lemma lookup_old (h : Heap) (v w : Tensor) r :
  h !! r = Some v -> (h ++ [w]) !! r = Some v.
Proof. intros Hr. rewrite lookup_app_l; [exact Hr|]. eapply lookup_lt_Some, Hr. Qed.

Lemma run_native_fresh fn args v h :
  run (native fn args (Ok v) None) h =
  (Ok (length h), h ++ [v], [mkCall fn args]).
Proof. reflexivity. Qed.



Section CallFacts.
Context {E : Env}.

Lemma run_call1 fn k x out h a :
  h !! x = Some a ->
  run (Backend.call1 fn k x out) h = run (native fn [a] (k a) out) h.
Proof.
  intros Hx. unfold Backend.call1.
  rewrite (run_bind_ok _ _ _ _ _ _ (run_deref _ _ _ Hx)).
  destruct (run (native fn [a] (k a) out) h) as [[o h2] c2]. reflexivity.
Qed.

Lemma run_call2 fn k x1 x2 out h a b :
  h !! x1 = Some a -> h !! x2 = Some b ->
  run (Backend.call2 fn k x1 x2 out) h = run (native fn [a; b] (k a b) out) h.
Proof.
  intros H1 H2. unfold Backend.call2.
  rewrite (run_bind_ok _ _ _ _ _ _ (run_deref _ _ _ H1)).
  rewrite (run_bind_ok _ _ _ _ _ _ (run_deref _ _ _ H2)).
  destruct (run (native fn [a; b] (k a b) out) h) as [[o h2] c2]. reflexivity.
Qed.

Lemma run_promote_types_of_inputs x1 x2 h a b :
  h !! x1 = Some a -> h !! x2 = Some b ->
  run (promote_types_of_inputs x1 x2) h =
  (Ok (length h, S (length h)),
   h ++ [astype (promote_types (t_dtype a) (t_dtype b)) a;
         astype (promote_types (t_dtype a) (t_dtype b)) b], []).
Proof.
  intros H1 H2. unfold promote_types_of_inputs.
  rewrite (run_bind_ok _ _ _ _ _ _ (run_deref _ _ _ H1)).
  rewrite (run_bind_ok _ _ _ _ _ _ (run_deref _ _ _ H2)).
  simpl. rewrite length_app, Nat.add_1_r, <- app_assoc. reflexivity.
Qed.

End CallFacts.

(** ** A calculus for runs *)

Section WpRules.
Context {E : Env}.

Lemma wp_run {A} (m : M A) h Q o h' cs :
  wp m h Q -> run m h = (o, h', cs) -> Q o h' cs.
Proof. unfold wp. intros Hw Hr. rewrite Hr in Hw. exact Hw. Qed.

Lemma wp_intro {A} (m : M A) h (Q : Outcome A -> Heap -> list Call -> Prop) :
  (forall o h' cs, run m h = (o, h', cs) -> Q o h' cs) -> wp m h Q.
Proof. unfold wp. intros H. destruct (run m h) as [[o h'] cs]. apply H. reflexivity. Qed.

Lemma wp_eq {A} (m : M A) h X :
  wp m h (fun o h' cs => (o, h', cs) = X) -> run m h = X.
Proof. unfold wp. destruct (run m h) as [[o h'] cs]. auto. Qed.


Lemma wp_outcome {A} (m : M A) h (P : Outcome A -> Prop) :
  wp m h (fun o _ _ => P o) -> P (run m h).1.1.
Proof. unfold wp. destruct (run m h) as [[o h'] cs]. auto. Qed.

Lemma wp_mono {A} (m : M A) h (Q Q' : Outcome A -> Heap -> list Call -> Prop) :
  wp m h Q -> (forall o h' cs, Q o h' cs -> Q' o h' cs) -> wp m h Q'.
Proof. unfold wp. destruct (run m h) as [[o h'] cs]. auto. Qed.

Lemma wp_bind {A B} (m : M A) (f : A -> M B) h Q :
  wp m h (fun o h1 c1 =>
            match o with
            | Ok a => wp (f a) h1 (fun o2 h2 c2 => Q o2 h2 (c1 ++ c2))
            | Raise e => Q (Raise e) h1 c1
            end) ->
  wp (m ≫= f) h Q.
Proof.
  unfold wp. rewrite run_bind.
  destruct (run m h) as [[[a|e] h1] c1]; [|auto].
  destruct (run (f a) h1) as [[o2 h2] c2]. auto.
Qed.

Lemma wp_ret {A} (a : A) h (Q : Outcome A -> Heap -> list Call -> Prop) :
  Q (Ok a) h [] -> wp (mret a) h Q.
Proof. auto. Qed.

Lemma wp_raise {A} e h (Q : Outcome A -> Heap -> list Call -> Prop) :
  Q (Raise e) h [] -> wp (raise e) h Q.
Proof. auto. Qed.

Lemma wp_lift {A} (o : Outcome A) h (Q : Outcome A -> Heap -> list Call -> Prop) :
  Q o h [] -> wp (lift o) h Q.
Proof. auto. Qed.

Lemma wp_emit c h (Q : Outcome unit -> Heap -> list Call -> Prop) :
  Q (Ok ()) h [c] -> wp (emit c) h Q.
Proof. auto. Qed.

Lemma wp_alloc v (h : Heap) (Q : Outcome ref -> Heap -> list Call -> Prop) :
  Q (Ok (length h)) (h ++ [v]) [] -> wp (alloc v) h Q.
Proof. auto. Qed.

Lemma wp_deref r (h : Heap) (Q : Outcome Tensor -> Heap -> list Call -> Prop) :
  match h !! r with
  | Some v => Q (Ok v) h []
  | None => Q (Raise SystemError) h []
  end ->
  wp (deref r) h Q.
Proof. unfold wp, deref. cbn [run]. destruct (h !! r); auto. Qed.

Lemma wp_native fn args res out (h : Heap) (Q : Outcome ref -> Heap -> list Call -> Prop) :
  match res with
  | Raise e => Q (Raise e) h [mkCall fn args]
  | Ok v =>
      match out with
      | None => Q (Ok (length h)) (h ++ [v]) [mkCall fn args]
      | Some o =>
          match h !! o with
          | Some b =>
              if bool_decide (t_dtype b = t_dtype v)
              then Q (Ok o) (<[o:=v]> h) [mkCall fn args]
              else Q (Raise RuntimeError) h [mkCall fn args]
          | None => Q (Raise SystemError) h [mkCall fn args]
          end
      end
  end ->
  wp (native fn args res out) h Q.
Proof.
  unfold wp. destruct res as [v|e]; [|auto].
  destruct out as [o|]; [|auto].
  unfold native. rewrite !run_bind. cbn.
  destruct (h !! o) as [b|]; cbn; [|auto].
  destruct (bool_decide (t_dtype b = t_dtype v)); auto.
Qed.

Lemma wp_call1 fn k x out (h : Heap) (Q : Outcome ref -> Heap -> list Call -> Prop) :
  match h !! x with
  | Some a => wp (native fn [a] (k a) out) h Q
  | None => Q (Raise SystemError) h []
  end ->
  wp (Backend.call1 fn k x out) h Q.
Proof.
  intros H. unfold Backend.call1. apply wp_bind, wp_deref.
  destruct (h !! x) as [a|]; [|exact H].
  eapply wp_mono; [exact H|]. intros o h' cs HQ. exact HQ.
Qed.

Lemma wp_call2 fn k x1 x2 out (h : Heap) (Q : Outcome ref -> Heap -> list Call -> Prop) :
  match h !! x1, h !! x2 with
  | Some a, Some b => wp (native fn [a; b] (k a b) out) h Q
  | _, _ => Q (Raise SystemError) h []
  end ->
  wp (Backend.call2 fn k x1 x2 out) h Q.
Proof.
  intros H. unfold Backend.call2. apply wp_bind, wp_deref.
  destruct (h !! x1) as [a|]; [|exact H].
  apply wp_bind, wp_deref.
  destruct (h !! x2) as [b|]; [|exact H].
  eapply wp_mono; [exact H|]. intros o h' cs HQ. exact HQ.
Qed.

Lemma wp_promote x1 x2 (h : Heap) (Q : Outcome (ref * ref) -> Heap -> list Call -> Prop) :
  match h !! x1, h !! x2 with
  | Some a, Some b =>
      Q (Ok (length h, S (length h)))
        (h ++ [astype (promote_types (t_dtype a) (t_dtype b)) a;
               astype (promote_types (t_dtype a) (t_dtype b)) b]) []
  | _, _ => Q (Raise SystemError) h []
  end ->
  wp (promote_types_of_inputs x1 x2) h Q.
Proof.
  intros H. unfold promote_types_of_inputs.
  apply wp_bind, wp_deref. destruct (h !! x1) as [a|]; [|exact H].
  apply wp_bind, wp_deref. destruct (h !! x2) as [b|]; [|exact H].
  apply wp_bind, wp_alloc, wp_bind, wp_alloc, wp_ret.
  rewrite length_app, Nat.add_1_r, <- app_assoc. exact H.
Qed.

Lemma wp_to_dtype x d (h : Heap) (Q : Outcome ref -> Heap -> list Call -> Prop) :
  match h !! x with
  | Some a =>
      if bool_decide (t_dtype a = d) then Q (Ok x) h []
      else Q (Ok (length h)) (h ++ [astype d a]) []
  | None => Q (Raise SystemError) h []
  end ->
  wp (to_dtype x d) h Q.
Proof.
  intros H. unfold to_dtype. apply wp_bind, wp_deref.
  destruct (h !! x) as [a|]; [|exact H].
  destruct (bool_decide (t_dtype a = d)).
  - apply wp_ret. exact H.
  - apply wp_alloc. rewrite app_nil_l. exact H.
Qed.

Lemma wp_inplace_update x val (h : Heap)
    (Q : Outcome ref -> Heap -> list Call -> Prop) :
  match h !! val, h !! x with
  | Some v, Some _ => Q (Ok x) (<[x:=v]> h) []
  | _, _ => Q (Raise SystemError) h []
  end ->
  wp (inplace_update x val) h Q.
Proof.
  intros H. unfold inplace_update. apply wp_bind, wp_deref.
  destruct (h !! val) as [v|]; [|exact H].
  apply wp_bind, wp_deref. destruct (h !! x) as [b|]; [|exact H].
  apply wp_bind. unfold wp, store. cbn [run]. apply wp_ret. exact H.
Qed.

End WpRules.

(** One step of symbolic execution. *)
Ltac wp_step :=
  lazymatch goal with
  | |- wp (_ ≫= _) _ _ => apply wp_bind
  | |- wp (mret _) _ _ => apply wp_ret
  | |- wp (raise _) _ _ => apply wp_raise
  | |- wp (lift _) _ _ => apply wp_lift
  | |- wp (emit _) _ _ => apply wp_emit
  | |- wp (alloc _) _ _ => apply wp_alloc
  | |- wp (deref _) _ _ => apply wp_deref
  | |- wp (native _ _ _ _) _ _ => apply wp_native
  | |- wp (Backend.call1 _ _ _ _) _ _ => apply wp_call1
  | |- wp (Backend.call2 _ _ _ _ _) _ _ => apply wp_call2
  | |- wp (promote_types_of_inputs _ _) _ _ => apply wp_promote
  | |- wp (to_dtype _ _) _ _ => apply wp_to_dtype
  | |- wp (inplace_update _ _) _ _ => apply wp_inplace_update
  | |- wp (Backend.torch_transpose _ _ _) _ _ => unfold Backend.torch_transpose
  | |- wp (Backend.torch_t _) _ _ => unfold Backend.torch_t
  | |- wp (Backend.torch_unsqueeze _ _) _ _ => unfold Backend.torch_unsqueeze
  | |- wp (Backend.torch_squeeze _ _) _ _ => unfold Backend.torch_squeeze
  | |- wp (Backend.torch_neg _) _ _ => unfold Backend.torch_neg
  | |- wp (Backend.getitem_slice _ _ _) _ _ => unfold Backend.getitem_slice
  | |- wp (Backend.shape_of _) _ _ => unfold Backend.shape_of
  | |- wp (Backend.torch_cat _ _ _) _ _ =>
      unfold Backend.torch_cat; cbn [mapM]
  | |- wp (match ?x with _ => _ end) _ _ =>
      first [ match goal with H : x = _ |- _ => rewrite H end
            | destruct x eqn:? ]
  | |- wp (if ?x then _ else _) _ _ =>
      first [ match goal with H : x = _ |- _ => rewrite H end
            | destruct x eqn:? ]
  | |- match ?x with _ => _ end =>
      first [ match goal with H : x = _ |- _ => rewrite H end
            | destruct x eqn:? ]
  | |- if ?x then _ else _ =>
      first [ match goal with H : x = _ |- _ => rewrite H end
            | destruct x eqn:? ]
  end.

(** The size of the store and the objects that were in it before. *)
Ltac heap_len :=
  unfold ref, Heap in *; subst;
  repeat first [rewrite length_app | rewrite length_insert];
  cbn [length]; lia.

Ltac heap_old :=
  unfold ref, Heap in *;
  repeat (rewrite lookup_app_l
            by (repeat first [rewrite length_app | rewrite length_insert];
                cbn [length]; lia));
  assumption.

(** Normalisation of the lookups [l !! i = Some v] among the hypotheses. *)
Ltac heap_arith :=
  repeat first [rewrite length_app | rewrite length_insert];
  cbn [length]; lia.

Ltac heap_hyp H :=
  repeat first
    [ rewrite list_lookup_insert_eq in H by heap_arith
    | rewrite list_lookup_insert_ne in H by heap_arith
    | rewrite lookup_app_l in H by heap_arith
    | rewrite lookup_app_r in H by heap_arith ];
  try match type of H with
      | _ !! ?i = _ =>
          first
            [ replace i with 0%nat in H by heap_arith
            | replace i with 1%nat in H by heap_arith
            | replace i with 2%nat in H by heap_arith ];
          cbn [lookup list_lookup] in H
      end.

Ltac heap_simpl :=
  unfold ref, Heap in *;
  repeat match goal with
         | H : Some _ = Some _ |- _ => injection H as H
         | H : Ok _ = Ok _ |- _ => injection H as H
         | H : Some _ = None |- _ => discriminate H
         | H : None = Some _ |- _ => discriminate H
         | H : (_ ++ _) !! _ = _ |- _ => progress heap_hyp H
         | H : <[_:=_]> _ !! _ = _ |- _ => progress heap_hyp H
         | H1 : ?l !! ?i = Some _, H2 : ?l !! ?i = _ |- _ => rewrite H1 in H2
         end.

Ltac heap_goal :=
  unfold ref, Heap in *;
  repeat first
    [ rewrite list_lookup_insert_eq by heap_arith
    | rewrite list_lookup_insert_ne by heap_arith
    | rewrite lookup_app_l by heap_arith
    | rewrite lookup_app_r by heap_arith ];
  try match goal with
      | |- _ !! ?i = _ =>
          first
            [ replace i with 0%nat by heap_arith
            | replace i with 1%nat by heap_arith
            | replace i with 2%nat by heap_arith ];
          cbn [lookup list_lookup]
      end.

(** Symbolic execution to the leaves. *)
Ltac wp_go := repeat (wp_step; try (progress heap_simpl); subst).

(** The shape kernels keep the elements and the dtype. *)
Section ShapeKernels.
Context {E : Env}.

Lemma numel_app l1 l2 : numel (l1 ++ l2) = (numel l1 * numel l2)%nat.
Proof.
  induction l1 as [|n l1 IH]; cbn [app numel fold_right].
  - change (fold_right Nat.mul 1%nat l2) with (numel l2). lia.
  - change (fold_right Nat.mul 1%nat (l1 ++ l2)) with (numel (l1 ++ l2)).
    change (fold_right Nat.mul 1%nat l1) with (numel l1).
    rewrite IH. lia.
Qed.

Lemma unsqueeze_numel x dim y :
  unsqueeze x dim = Ok y -> numel (t_shape y) = numel (t_shape x).
Proof.
  unfold unsqueeze. destruct (_ && _); [|discriminate]. intros [= <-].
  cbn [t_shape].
  set (p := Z.to_nat _).
  rewrite <- (take_drop p (t_shape x)) at 3.
  rewrite !numel_app. cbn [numel fold_right].
  change (fold_right Nat.mul 1%nat (drop p (t_shape x)))
    with (numel (drop p (t_shape x))). lia.
Qed.


Lemma squeeze_data x dim y :
  squeeze x dim = Ok y -> t_dtype y = t_dtype x /\ t_data y = t_data x.
Proof.
  unfold squeeze. destruct (normalize_dim _ _) as [p|]; [|discriminate].
  cbn [mbind Outcome_bind].
  destruct (t_shape x !! p) as [[|[|n]]|]; intros [= <-]; auto.
Qed.

Lemma reshape_data x sh y :
  reshape x sh = Ok y -> t_dtype y = t_dtype x /\ t_data y = t_data x.
Proof.
  unfold reshape. destruct (_ =? _)%nat; [|discriminate]. intros [= <-]. auto.
Qed.

Lemma wp_unsqueeze_front n x (h : Heap)
    (Q : Outcome ref -> Heap -> list Call -> Prop) :
  (forall o h' cs,
     Forall (fun c => call_fn c = "torch.unsqueeze"%string) cs -> Q o h' cs) ->
  wp (Backend.unsqueeze_front n x) h Q.
Proof.
  revert x h Q. induction n as [|n IH]; intros x h Q HQ; cbn [Backend.unsqueeze_front].
  - apply wp_ret. apply HQ. constructor.
  - repeat wp_step; try (apply HQ; repeat constructor).
    apply IH. intros o h' cs Hcs. apply HQ.
    constructor; [reflexivity|exact Hcs].
Qed.

End ShapeKernels.

(** ** The order of [matrix_norm] *)

(** C10: with [ord] equal to [float('inf')] or [float('-inf')], the
    backend's [matrix_norm] raises [OverflowError] in [int(ord)]; no
    native call has been made and the store is unchanged. *)
Theorem matrix_norm_infinite_ord_raises {E : Env} x s axis keepdims out h :
  run (Backend.matrix_norm x (OrdNum (PFloat (S754_infinity s)))
         axis keepdims out) h
  = (Raise OverflowError, h, []).
Proof. reflexivity. Qed.

(** ** The singularity test of [inv] *)

Lemma native_calls fn args res out h :
  (run (native fn args res out) h).2 = [mkCall fn args].
Proof.
  destruct res as [v|e]; [|reflexivity].
  destruct out as [o|]; [|reflexivity].
  unfold native. rewrite !run_bind. simpl.
  destruct (h !! o) as [b|]; simpl; [|reflexivity].
  destruct (bool_decide (t_dtype b = t_dtype v)); reflexivity.
Qed.

Lemma inplace_update_calls x val h : (run (inplace_update x val) h).2 = [].
Proof.
  unfold inplace_update. rewrite !run_bind. simpl.
  destruct (h !! val) as [v|]; simpl; [|reflexivity].
  destruct (h !! x) as [b|]; reflexivity.
Qed.

(** Reduction of the pattern matching on a finished run, leaving the
    calls that remain to run folded. *)
Ltac run_red := cbv beta iota zeta; cbn [snd fst app].

Section InvFacts.
Context {E : Env}.

Lemma inv_test_is_false :
  py_eq (PyFunction "torch.linalg.det") (PyInt 0) = false.
Proof. reflexivity. Qed.

(** C5 (what the code does): whatever the determinant of the operand,
    [inv] does not take the branch guarded by the determinant test:
    without [adjoint] its one native call is [torch.inverse] on the
    operand, and with [adjoint] on a matrix it is [torch.inverse] on the
    transposed operand. *)
Theorem inv_reaches_native_inverse x out h v :
  h !! x = Some v ->
  (run (Backend.inv x false out) h).2 = [mkCall "torch.inverse" [v]] /\
  (forall vt, Torch.t v = Ok vt ->
     (run (Backend.inv x true out) h).2
     = [mkCall "torch.t" [v]; mkCall "torch.inverse" [vt]]).
Proof.
  intros Hx. split.
  - unfold Backend.inv. rewrite inv_test_is_false. cbn [negb].
    rewrite run_bind, (run_call1 _ _ _ _ _ _ Hx).
    pose proof (native_calls "torch.inverse" [v] (torch_inverse v) out h) as Hc.
    destruct (run (native "torch.inverse" [v] (torch_inverse v) out) h)
      as [[[r|e] h1] c1]; simpl in Hc; subst c1; reflexivity.
  - intros vt Hvt. unfold Backend.inv. rewrite inv_test_is_false. cbn [negb].
    unfold Backend.torch_t.
    rewrite run_bind, (run_call1 _ _ _ _ _ _ Hx), Hvt, run_native_fresh.
    rewrite run_bind, (run_call1 _ _ _ _ _ _ (lookup_fresh h vt)).
    pose proof (native_calls "torch.inverse" [vt] (torch_inverse vt) out
                  (h ++ [vt])) as Hc.
    destruct (run (native "torch.inverse" [vt] (torch_inverse vt) out)
                  (h ++ [vt])) as [[[r|e] h1] c1]; simpl in Hc; subst c1;
      [|reflexivity].
    destruct out as [o|]; [|reflexivity].
    run_red. rewrite run_bind.
    pose proof (inplace_update_calls o r h1) as Hi.
    destruct (run (inplace_update o r) h1) as [[[r'|e] h2] c2];
      simpl in Hi; subst c2; reflexivity.
Qed.

End InvFacts.

(** On the singular matrix [[1, 2], [2, 4]] the call ends in the error of
    the native inverse. *)
Example inv_singular_run :
  run (Backend.inv (E := Example.env) 0%nat false None)
      [Example.mat 2 2 [1; 2; 2; 4]]
  = (Raise RuntimeError, [Example.mat 2 2 [1; 2; 2; 4]],
     [mkCall "torch.inverse" [Example.mat 2 2 [1; 2; 2; 4]]]).
Proof. vm_compute. reflexivity. Qed.

(** At the singular matrix [[1, 2], [2, 4]] the native inverse is called
    (and refuses the operand). *)
Lemma inv_reaches_native_inverse_witness :
  [Example.mat 2 2 [1; 2; 2; 4]] !! 0%nat = Some (Example.mat 2 2 [1; 2; 2; 4]) /\
  (run (Backend.inv (E := Example.env) 0%nat false None)
       [Example.mat 2 2 [1; 2; 2; 4]]).2
  = [mkCall "torch.inverse" [Example.mat 2 2 [1; 2; 2; 4]]].
Proof.
  split; [reflexivity|].
  apply (inv_reaches_native_inverse (E := Example.env) 0%nat None
           [Example.mat 2 2 [1; 2; 2; 4]] (Example.mat 2 2 [1; 2; 2; 4])).
  reflexivity.
Defined.

(** ** Concrete scenarios *)

Section Scenarios.
Context {E : Env}.

(** C6: [matmul] of the one-dimensional arrays [[2, 0, 3]] and
    [[4, 1, 8]], of any numeric dtype the promotion table maps to itself,
    returns a zero-dimensional array whose only element is [32]. *)
Theorem matmul_vectors_32 d h x1 x2 :
  d <> bool_ ->
  promote_types d d = d ->
  h !! x1 = Some (of_ints d [3%nat] [2; 0; 3]) ->
  h !! x2 = Some (of_ints d [3%nat] [4; 1; 8]) ->
  exists r h' cs,
    run (Backend.matmul x1 x2 false false None) h = (Ok r, h', cs) /\
    h' !! r = Some (of_ints d [] [32]).
Proof.
  intros Hd Hp H1 H2.
  assert (Hk : Torch.matmul (astype d (of_ints d [3%nat] [2; 0; 3]))
                            (astype d (of_ints d [3%nat] [4; 1; 8]))
               = Ok (of_ints d [] [32])).
  { destruct d; try congruence; vm_compute; reflexivity. }
  unfold Backend.matmul.
  do 2 (rewrite run_bind; cbn [run mret M_ret]; run_red).
  rewrite run_bind.
  rewrite (run_promote_types_of_inputs _ _ _ _ _ H1 H2). cbn [t_dtype of_ints].
  rewrite Hp. run_red.
  set (a := astype d _) in *. set (b := astype d _) in *.
  rewrite (run_call2 _ _ _ _ _ _ _ _ (lookup_fresh_fst _ _ _)
             (lookup_fresh_snd _ _ _)).
  rewrite Hk, run_native_fresh.
  eexists _, _, _. split; [reflexivity|]. apply lookup_fresh.
Qed.

(** C7: [trace] of the 2x3 matrix [[[2, 0, 3], [3, 5, 6]]], of any
    numeric dtype, with offset 0 and the default axes 0 and 1, returns
    the zero-dimensional sum [7] of the main diagonal. *)
Theorem trace_2x3_is_7 d h x out :
  d <> bool_ ->
  h !! x = Some (of_ints d [2%nat; 3%nat] [2; 0; 3; 3; 5; 6]) ->
  exists r h' cs,
    run (Backend.trace x 0 0 1 out) h = (Ok r, h', cs) /\
    h' !! r = Some (of_ints (sum_dtype d) [] [7]).
Proof.
  intros Hd Hx.
  assert (Hk : Torch.diagonal (of_ints d [2%nat; 3%nat] [2; 0; 3; 3; 5; 6])
                 0 0 1 = Ok (of_ints d [2%nat] [2; 5])).
  { destruct d; vm_compute; reflexivity. }
  assert (Hs : Torch.sum (of_ints d [2%nat] [2; 5])
               = of_ints (sum_dtype d) [] [7]).
  { destruct d; try congruence; vm_compute; reflexivity. }
  unfold Backend.trace.
  rewrite run_bind, (run_call1 _ _ _ _ _ _ Hx), Hk, run_native_fresh.
  rewrite run_bind, (run_call1 _ _ _ _ _ _ (lookup_fresh _ _)), Hs,
    run_native_fresh.
  run_red. cbn [run mret M_ret]. run_red.
  eexists _, _, _. split; [reflexivity|]. apply lookup_fresh.
Qed.

(** C8 (what the code does): [vector_norm] of [[3, 4]], of any
    floating-point dtype, with [ord=2], [axis=None] and [keepdims=False]
    returns the value [5] in an array of shape [(1,)], not in a
    zero-dimensional one: the zero-dimensional result of the kernel is
    unsqueezed. *)
Theorem vector_norm_3_4_has_shape_1 d h x :
  float_format d <> None ->
  h !! x = Some (of_ints d [2%nat] [3; 4]) ->
  exists r h' cs,
    run (Backend.vector_norm x AxNone false (PInt 2) None) h = (Ok r, h', cs) /\
    h' !! r = Some (of_ints d [1%nat] [5]).
Proof.
  intros Hd Hx.
  assert (Hk : linalg_vector_norm torch_pow (of_ints d [2%nat] [3; 4])
                 (PInt 2) AxNone false = Ok (of_ints d [] [5])).
  { destruct d; try (exfalso; apply Hd; reflexivity); vm_compute; reflexivity. }
  unfold Backend.vector_norm.
  rewrite run_bind, (run_call1 _ _ _ _ _ _ Hx), Hk, run_native_fresh.
  unfold Backend.shape_of.
  rewrite run_bind, (run_bind_ok _ _ _ _ _ _ (run_deref _ _ _ (lookup_fresh _ _))).
  cbn [run mret M_ret t_shape of_ints]. run_red.
  unfold Backend.torch_unsqueeze.
  rewrite (run_call1 _ _ _ _ _ _ (lookup_fresh _ _)).
  change (unsqueeze (of_ints d [] [5]) 0) with (Ok (of_ints d [1%nat] [5])).
  rewrite run_native_fresh. run_red.
  eexists _, _, _. split; [reflexivity|]. apply lookup_fresh.
Qed.

End Scenarios.

Lemma matmul_vectors_32_witness :
  exists r h' cs,
    run (Backend.matmul (E := Example.env) 0%nat 1%nat false false None)
        [Example.vec [2; 0; 3]; Example.vec [4; 1; 8]] = (Ok r, h', cs) /\
    h' !! r = Some (of_ints float32 [] [32]).
Proof.
  apply (matmul_vectors_32 (E := Example.env) float32
           [Example.vec [2; 0; 3]; Example.vec [4; 1; 8]] 0%nat 1%nat);
    [discriminate | reflexivity | reflexivity | reflexivity].
Defined.

Lemma trace_2x3_is_7_witness :
  exists r h' cs,
    run (Backend.trace 0%nat 0 0 1 None)
        [Example.mat 2 3 [2; 0; 3; 3; 5; 6]] = (Ok r, h', cs) /\
    h' !! r = Some (of_ints float32 [] [7]).
Proof.
  apply (trace_2x3_is_7 float32
           [Example.mat 2 3 [2; 0; 3; 3; 5; 6]] 0%nat None);
    [discriminate | reflexivity].
Defined.

Lemma vector_norm_3_4_has_shape_1_witness :
  exists r h' cs,
    run (Backend.vector_norm (E := Example.env) 0%nat AxNone false (PInt 2) None)
        [Example.vec [3; 4]] = (Ok r, h', cs) /\
    h' !! r = Some (of_ints float32 [1%nat] [5]).
Proof.
  apply (vector_norm_3_4_has_shape_1 (E := Example.env) float32
           [Example.vec [3; 4]] 0%nat); [discriminate | reflexivity].
Defined.

(** ** The row-major layout *)

Section Layout.

Lemma seq_blocks (n N s : nat) :
  flat_map (fun i => seq (s + i * N) N) (seq 0 n) = seq s (n * N).
Proof.
  revert s. induction n as [|n IH]; intros s; [reflexivity|].
  rewrite <- cons_seq. cbn [flat_map].
  rewrite <- seq_shift, flat_map_concat_map, map_map, <- flat_map_concat_map.
  rewrite Nat.mul_0_l, Nat.add_0_r.
  replace (S n * N)%nat with (N + n * N)%nat by lia.
  rewrite seq_app. f_equal.
  rewrite <- (IH (s + N)%nat). apply flat_map_ext. intros i. f_equal. lia.
Qed.

Lemma map_add_seq (s k N : nat) :
  map (fun o => (s + o)%nat) (seq k N) = seq (s + k) N.
Proof.
  revert k. induction N as [|N IH]; intros k; [reflexivity|].
  cbn [seq map]. f_equal. rewrite IH. f_equal. lia.
Qed.

Lemma length_indices sh : length (indices sh) = numel sh.
Proof.
  induction sh as [|n sh IH]; [reflexivity|].
  cbn [indices numel fold_right].
  change (fold_right Nat.mul 1%nat sh) with (numel sh).
  rewrite <- IH. clear IH.
  generalize 0%nat. induction n as [|n IHn]; intros s; [reflexivity|].
  cbn [seq flat_map]. rewrite length_app, length_map, IHn. lia.
Qed.

(** The offsets of the indices of a shape, in order, are
    [0, 1, ..., numel - 1]. *)
Lemma offsets_of_indices sh :
  map (offset sh) (indices sh) = seq 0 (numel sh).
Proof.
  induction sh as [|n sh IH]; [reflexivity|].
  cbn [indices numel fold_right].
  change (fold_right Nat.mul 1%nat sh) with (numel sh).
  rewrite flat_map_concat_map, concat_map, map_map, <- flat_map_concat_map.
  rewrite <- (seq_blocks n (numel sh) 0).
  apply flat_map_ext. intros i. rewrite map_map. cbn [offset Nat.add].
  rewrite <- (map_map (offset sh) (fun o => (i * numel sh + o)%nat)), IH.
  rewrite map_add_seq, Nat.add_0_r. reflexivity.
Qed.

Lemma offset_lt sh idx : in_range sh idx -> (offset sh idx < numel sh)%nat.
Proof.
  revert idx. induction sh as [|n sh IH]; intros [|i idx] Hr;
    cbn in Hr; try contradiction.
  - cbn. lia.
  - destruct Hr as [Hi Hr]. specialize (IH _ Hr).
    cbn [offset numel fold_right].
    change (fold_right Nat.mul 1%nat sh) with (numel sh). nia.
Qed.

Lemma indices_in_range sh : Forall (in_range sh) (indices sh).
Proof.
  induction sh as [|n sh IH]; [repeat constructor|].
  cbn [indices]. apply List.Forall_forall. intros idx Hin.
  apply in_flat_map in Hin. destruct Hin as (i & Hi & Hin).
  apply in_map_iff in Hin. destruct Hin as (idx' & <- & Hin').
  apply in_seq in Hi. split; [lia|].
  eapply List.Forall_forall in IH; [exact IH|exact Hin'].
Qed.

Lemma nth_flat_map_uniform {X Y} (g : X -> list Y) (l : list X) N i o x :
  (forall y, length (g y) = N) -> (o < N)%nat ->
  nth_error l i = Some x ->
  nth_error (flat_map g l) (i * N + o) = nth_error (g x) o.
Proof.
  intros Hlen Ho. revert i. induction l as [|y l IH]; intros i Hi.
  - destruct i; discriminate.
  - destruct i as [|i]; cbn in Hi.
    + inversion Hi; subst. cbn [flat_map Nat.mul Nat.add].
      apply nth_error_app1. rewrite Hlen. exact Ho.
    + cbn [flat_map]. rewrite nth_error_app2 by (rewrite Hlen; lia).
      rewrite Hlen. replace (S i * N + o - N)%nat with (i * N + o)%nat by lia.
      apply IH, Hi.
Qed.

(** The index stored at the offset of [idx] is [idx]. *)
Lemma nth_indices sh idx :
  in_range sh idx -> nth_error (indices sh) (offset sh idx) = Some idx.
Proof.
  revert idx. induction sh as [|n sh IH]; intros [|i idx] Hr;
    cbn in Hr; try contradiction.
  - reflexivity.
  - destruct Hr as [Hi Hr]. cbn [indices offset].
    rewrite (nth_flat_map_uniform _ _ (numel sh) i _ i).
    + rewrite nth_error_map, (IH _ Hr). reflexivity.
    + intros y. rewrite length_map. apply length_indices.
    + apply offset_lt, Hr.
    + rewrite nth_error_seq. destruct (Nat.ltb_spec i n); [reflexivity|lia].
Qed.

Lemma get_tabulate d sh f idx :
  in_range sh idx -> get (tabulate d sh f) idx = f idx.
Proof.
  intros Hr. unfold get, tabulate. cbn [t_shape t_data t_dtype].
  apply nth_error_nth. rewrite nth_error_map, (nth_indices _ _ Hr). reflexivity.
Qed.

Lemma tabulate_get x :
  wf x -> tabulate (t_dtype x) (t_shape x) (get x) = x.
Proof.
  intros Hwf. destruct x as [d sh data]. unfold wf, tabulate, get in *.
  cbn [t_dtype t_shape t_data] in *. f_equal.
  rewrite <- (map_map (offset sh) (fun o => nth o data (zero d))).
  rewrite offsets_of_indices, <- Hwf.
  clear Hwf. generalize (zero d) as dflt. intros dflt.
  induction data as [|v data IH]; [reflexivity|].
  cbn [length seq map nth]. f_equal.
  rewrite <- seq_shift, map_map. exact IH.
Qed.

Lemma wf_tabulate d sh f : wf (tabulate d sh f).
Proof. unfold wf, tabulate. cbn. rewrite length_map. apply length_indices. Qed.

End Layout.

(** ** Transposition *)

Section Transposition.

Lemma in_range_Forall2 sh idx :
  in_range sh idx <-> Forall2 (fun n i => (i < n)%nat) sh idx.
Proof.
  revert idx. induction sh as [|n sh IH]; intros [|i idx]; cbn.
  - split; intros _; constructor.
  - split; [contradiction | intros Hr; inversion Hr].
  - split; [contradiction | intros Hr; inversion Hr].
  - split.
    + intros [Hi Hr]. constructor; [exact Hi | apply IH, Hr].
    + intros Hr. inversion Hr; subst. split; [assumption | apply IH; assumption].
Qed.

Lemma length_swap_at i j (l : list nat) : length (swap_at i j l) = length l.
Proof.
  unfold swap_at. destruct (l !! i), (l !! j); try reflexivity.
  rewrite !length_insert. reflexivity.
Qed.

Lemma swap_at_out_of_range i j (l : list nat) :
  ~ (i < length l /\ j < length l)%nat -> swap_at i j l = l.
Proof.
  intros Hn. unfold swap_at.
  destruct (l !! i) as [a|] eqn:Ha; [|reflexivity].
  destruct (l !! j) as [b|] eqn:Hb; [|reflexivity].
  exfalso. apply Hn. split; eapply lookup_lt_Some; eassumption.
Qed.

Lemma lookup_swap_at (l : list nat) i j k :
  (i < length l)%nat -> (j < length l)%nat ->
  swap_at i j l !! k =
  l !! (if decide (k = i) then j else if decide (k = j) then i else k).
Proof.
  intros Hi Hj. unfold swap_at.
  destruct (lookup_lt_is_Some_2 l i Hi) as [a Ha].
  destruct (lookup_lt_is_Some_2 l j Hj) as [b Hb].
  rewrite Ha, Hb, !list_lookup_insert, !length_insert.
  repeat case_decide; subst; try congruence; try lia;
    intuition (try congruence; try lia).
Qed.

Lemma swap_at_involutive i j (l : list nat) : swap_at i j (swap_at i j l) = l.
Proof.
  destruct (decide (i < length l /\ j < length l)%nat) as [[Hi Hj]|Hn].
  - apply list_eq. intros k.
    rewrite !lookup_swap_at by (rewrite ?length_swap_at; assumption).
    repeat case_decide; subst; try congruence; reflexivity.
  - rewrite !swap_at_out_of_range; try reflexivity; try assumption.
    rewrite swap_at_out_of_range by assumption. assumption.
Qed.

(** An index of the transposed shape, transposed, addresses the operand. *)
Lemma in_range_swap_at i j sh idx :
  in_range (swap_at i j sh) idx -> in_range sh (swap_at i j idx).
Proof.
  rewrite !in_range_Forall2. intros Hr.
  pose proof (Forall2_length _ _ _ Hr) as Hlen. rewrite length_swap_at in Hlen.
  destruct (decide (i < length sh /\ j < length sh)%nat) as [[Hi Hj]|Hn].
  - apply Forall2_same_length_lookup. split.
    { rewrite length_swap_at. exact Hlen. }
    intros k n m Hn Hm.
    rewrite lookup_swap_at in Hm by lia.
    rewrite Forall2_same_length_lookup in Hr. destruct Hr as [_ Hr].
    apply (Hr (if decide (k = i) then j else if decide (k = j) then i else k));
      [|exact Hm].
    rewrite lookup_swap_at by assumption.
    repeat case_decide; subst; try congruence; exact Hn.
  - rewrite swap_at_out_of_range in Hr by assumption.
    rewrite swap_at_out_of_range by (rewrite <- Hlen; assumption).
    exact Hr.
Qed.

Lemma transpose_inv x dim0 dim1 y :
  transpose x dim0 dim1 = Ok y ->
  exists i j,
    normalize_dim (rank x) dim0 = Ok i /\ normalize_dim (rank x) dim1 = Ok j /\
    y = tabulate (t_dtype x) (swap_at i j (t_shape x))
          (fun idx => get x (swap_at i j idx)).
Proof.
  unfold transpose. intros Ht.
  destruct (normalize_dim (rank x) dim0) as [i|e]; [|discriminate].
  destruct (normalize_dim (rank x) dim1) as [j|e]; [|discriminate].
  cbn in Ht. inversion Ht. eauto.
Qed.

(** Transposing twice gives the operand back. *)
Lemma transpose_involutive x dim0 dim1 y :
  wf x -> transpose x dim0 dim1 = Ok y -> transpose y dim0 dim1 = Ok x.
Proof.
  intros Hwf Ht. destruct (transpose_inv _ _ _ _ Ht) as (i & j & Hi & Hj & ->).
  unfold transpose, rank. cbn [t_shape t_dtype tabulate].
  rewrite length_swap_at. fold (rank x). rewrite Hi, Hj. cbn.
  f_equal. rewrite swap_at_involutive.
  transitivity (tabulate (t_dtype x) (t_shape x) (get x));
    [|apply tabulate_get, Hwf].
  unfold tabulate. f_equal.
  apply map_ext_in. intros idx Hin.
  pose proof (indices_in_range (t_shape x)) as Hall.
  rewrite List.Forall_forall in Hall. specialize (Hall _ Hin).
  etransitivity.
  - apply (get_tabulate (t_dtype x) (swap_at i j (t_shape x))
             (fun idx0 => get x (swap_at i j idx0)) (swap_at i j idx)).
    apply in_range_swap_at. rewrite swap_at_involutive. exact Hall.
  - cbv beta. rewrite swap_at_involutive. reflexivity.
Qed.



End Transposition.

(** ** The upper Cholesky factor *)

Section CholeskyFacts.
Context {E : Env}.

Lemma normalize_dim_last r :
  (2 <= r)%nat ->
  normalize_dim r (Z.of_nat r - 1) = Ok (r - 1)%nat /\
  normalize_dim r (Z.of_nat r - 2) = Ok (r - 2)%nat.
Proof.
  intros Hr. unfold normalize_dim.
  replace (Z.max (Z.of_nat r) 1) with (Z.of_nat r) by lia.
  split.
  - destruct (Z.leb_spec (- Z.of_nat r) (Z.of_nat r - 1)); [|lia].
    destruct (Z.ltb_spec (Z.of_nat r - 1) (Z.of_nat r)); [|lia].
    destruct (Z.ltb_spec (Z.of_nat r - 1) 0); [lia|].
    cbn. f_equal. lia.
  - destruct (Z.leb_spec (- Z.of_nat r) (Z.of_nat r - 2)); [|lia].
    destruct (Z.ltb_spec (Z.of_nat r - 2) (Z.of_nat r)); [|lia].
    destruct (Z.ltb_spec (Z.of_nat r - 2) 0); [lia|].
    cbn. f_equal. lia.
Qed.

Lemma swap_at_last2 (b : list nat) i j :
  swap_at (length b + 2 - 1) (length b + 2 - 2) (b ++ [i; j]) = b ++ [j; i].
Proof.
  replace (length b + 2 - 1)%nat with (length b + 1)%nat by lia.
  replace (length b + 2 - 2)%nat with (length b + 0)%nat by lia.
  unfold swap_at.
  rewrite !lookup_app_r by lia.
  replace (length b + 1 - length b)%nat with 1%nat by lia.
  replace (length b + 0 - length b)%nat with 0%nat by lia.
  cbn [lookup list_lookup].
  rewrite !insert_app_r_alt by lia.
  replace (length b + 1 - length b)%nat with 1%nat by lia.
  replace (length b + 0 - length b)%nat with 0%nat by lia.
  reflexivity.
Qed.

Lemma in_range_length sh idx : in_range sh idx -> length idx = length sh.
Proof.
  rewrite in_range_Forall2. intros Hr. symmetry. eapply Forall2_length, Hr.
Qed.

(** The swap of the last two axes of a lower-triangular stack is
    upper-triangular. *)
Lemma transpose_lower_is_upper l u :
  lower_triangular l -> transpose_last2 l = Ok u -> upper_triangular u.
Proof.
  intros Hl Ht b i j Hr Hji.
  destruct (transpose_inv _ _ _ _ Ht) as (p & q & Hp & Hq & ->).
  cbn [t_shape tabulate] in Hr.
  pose proof (in_range_length _ _ Hr) as Hlen.
  rewrite length_swap_at, length_app in Hlen. cbn [length] in Hlen.
  fold (rank l) in Hlen.
  destruct (normalize_dim_last (rank l)) as [Hp' Hq']; [lia|].
  rewrite Hp' in Hp. rewrite Hq' in Hq. inversion Hp. inversion Hq. subst p q.
  rewrite get_tabulate by exact Hr.
  apply in_range_swap_at in Hr.
  rewrite <- Hlen in *. rewrite swap_at_last2 in *.
  apply Hl; assumption.
Qed.

(** The swap of the last two axes is defined on every tensor of the rank
    of a tensor on which it is defined. *)
Lemma transpose_last2_defined X X' L :
  transpose_last2 X = Ok X' -> rank L = rank X ->
  exists U, transpose_last2 L = Ok U.
Proof.
  unfold transpose_last2, transpose. intros HX ->.
  destruct (normalize_dim (rank X) (Z.of_nat (rank X) - 1)) as [i|];
    [|discriminate].
  destruct (normalize_dim (rank X) (Z.of_nat (rank X) - 2)) as [j|];
    [|discriminate].
  cbn [mbind Outcome_bind]. eauto.
Qed.

(** C9: for a symmetric [x] on which the native kernel returns a factor
    [L] of the rank of [x] (as it does on every symmetric
    positive-definite [x]), [cholesky(x, upper=True)] returns the swap
    [U] of the last two axes of the result [L] of
    [cholesky(x, upper=False)].  It is computed by transposing [x],
    factoring the transposed operand and transposing the factor.  [U] is
    upper-triangular when [L] is lower-triangular, and [U^T . U = x] when
    [L . L^T = x]. *)
Theorem cholesky_upper_is_transposed_lower x h X L :
  h !! x = Some X ->
  symmetric X ->
  torch_linalg_cholesky X = Ok L ->
  rank L = rank X ->
  exists rl hl cl ru hu cu U,
    run (Backend.cholesky x false None) h = (Ok rl, hl, cl) /\
    hl !! rl = Some L /\
    run (Backend.cholesky x true None) h = (Ok ru, hu, cu) /\
    cu = [mkCall "torch.transpose" [X]; mkCall "torch.linalg.cholesky" [X];
          mkCall "torch.transpose" [L]] /\
    hu !! ru = Some U /\
    transpose_last2 L = Ok U /\
    (lower_triangular L -> upper_triangular U) /\
    (wf L ->
     (Lt ← transpose_last2 L; Torch.matmul L Lt) = Ok X ->
     (Ut ← transpose_last2 U; Torch.matmul Ut U) = Ok X).
Proof.
  intros Hx Hsym Hk Hrank.
  destruct (transpose_last2_defined _ _ _ Hsym Hrank) as [U HU].
  exists (length h), (h ++ [L]), [mkCall "torch.linalg.cholesky" [X]].
  exists (S (S (length h))), (h ++ [X] ++ [L] ++ [U]),
    [mkCall "torch.transpose" [X]; mkCall "torch.linalg.cholesky" [X];
     mkCall "torch.transpose" [L]], U.
  split; [|split; [|split; [|split; [|split; [|split; [|split]]]]]].
  - unfold Backend.cholesky. cbn [negb].
    rewrite (run_call1 _ _ _ _ _ _ Hx), Hk. reflexivity.
  - apply lookup_fresh.
  - unfold Backend.cholesky. cbn [negb]. unfold Backend.shape_of.
    rewrite run_bind, (run_bind_ok _ _ _ _ _ _ (run_deref _ _ _ Hx)).
    cbn [run mret M_ret]. run_red.
    unfold Backend.torch_transpose.
    rewrite run_bind, (run_call1 _ _ _ _ _ _ Hx).
    fold (rank X). change (transpose X _ _) with (transpose_last2 X).
    rewrite Hsym, run_native_fresh. run_red.
    rewrite run_bind, (run_call1 _ _ _ _ _ _ (lookup_fresh _ _)), Hk,
      run_native_fresh. run_red.
    rewrite run_bind, (run_call1 _ _ _ _ _ _ (lookup_fresh _ _)).
    rewrite <- Hrank. change (transpose L _ _) with (transpose_last2 L).
    rewrite HU, run_native_fresh. run_red. cbn [run mret M_ret].
    rewrite !length_app. cbn [length]. rewrite <- !app_assoc.
    repeat f_equal; lia.
  - reflexivity.
  - replace (h ++ [X] ++ [L] ++ [U]) with ((h ++ [X; L]) ++ [U])
      by (rewrite <- app_assoc; reflexivity).
    replace (S (S (length h))) with (length (h ++ [X; L]))
      by (rewrite length_app; cbn; lia).
    apply lookup_fresh.
  - exact HU.
  - intros Hlow. eapply transpose_lower_is_upper; eassumption.
  - intros Hwf Hprod. rewrite HU in Hprod. cbn [mbind Outcome_bind] in Hprod.
    assert (HUt : transpose_last2 U = Ok L).
    { unfold transpose_last2 in *.
      destruct (transpose_inv _ _ _ _ HU) as (p & q & _ & _ & HUeq).
      assert (HrU : rank U = rank L).
      { rewrite HUeq. unfold rank. cbn. apply length_swap_at. }
      rewrite HrU. eapply transpose_involutive; eassumption. }
    rewrite HUt. exact Hprod.
Qed.

End CholeskyFacts.

Lemma example_factor_lower : lower_triangular Example.example_factor.
Proof.
  intros b i j Hr Hij.
  destruct b as [|b0 [|b1 b2]]; cbn in Hr.
  - destruct Hr as (Hi & Hj & _).
    assert (i = 0%nat) by lia. assert (j = 1%nat) by lia. subst. reflexivity.
  - destruct Hr as (_ & _ & []).
  - destruct Hr as (_ & _ & Hr). destruct b2; contradiction.
Qed.

Lemma example_factor_inexact_lower :
  lower_triangular Example.example_factor_inexact.
Proof.
  intros b i j Hr Hij.
  destruct b as [|b0 [|b1 b2]]; cbn in Hr.
  - destruct Hr as (Hi & Hj & _).
    assert (i = 0%nat) by lia. assert (j = 1%nat) by lia. subst. reflexivity.
  - destruct Hr as (_ & _ & []).
  - destruct Hr as (_ & _ & Hr). destruct b2; contradiction.
Qed.

(** On the matrix [[2, 1], [1, 2]], whose factor is not exact in
    [float32], and on the matrix [[4, 2], [2, 5]], whose factor is. *)
Lemma cholesky_upper_is_transposed_lower_witness :
  (exists rl hl cl ru hu cu U,
     run (Backend.cholesky (E := Example.env) 0%nat false None)
       [Example.example_spd_inexact] = (Ok rl, hl, cl) /\
     hl !! rl = Some Example.example_factor_inexact /\
     run (Backend.cholesky (E := Example.env) 0%nat true None)
       [Example.example_spd_inexact] = (Ok ru, hu, cu) /\
     hu !! ru = Some U /\
     transpose_last2 Example.example_factor_inexact = Ok U /\
     upper_triangular U) /\
  (Lt ← transpose_last2 Example.example_factor_inexact;
   Torch.matmul Example.example_factor_inexact Lt)
  <> Ok Example.example_spd_inexact /\
  (exists rl hl cl ru hu cu U,
     run (Backend.cholesky (E := Example.env) 0%nat false None)
       [Example.example_spd] = (Ok rl, hl, cl) /\
     hl !! rl = Some Example.example_factor /\
     run (Backend.cholesky (E := Example.env) 0%nat true None)
       [Example.example_spd] = (Ok ru, hu, cu) /\
     hu !! ru = Some U /\
     transpose_last2 Example.example_factor = Ok U /\
     upper_triangular U /\
     (Ut ← transpose_last2 U; Torch.matmul Ut U) = Ok Example.example_spd).
Proof.
  split; [|split].
  - destruct (cholesky_upper_is_transposed_lower (E := Example.env) 0%nat
                [Example.example_spd_inexact] Example.example_spd_inexact
                Example.example_factor_inexact)
      as (rl & hl & cl & ru & hu & cu & U & H1 & H2 & H3 & _ & H5 & H6 & H7 & _).
    + reflexivity.
    + vm_compute. reflexivity.
    + vm_compute. reflexivity.
    + reflexivity.
    + exists rl, hl, cl, ru, hu, cu, U.
      repeat split; try assumption.
      apply H7, example_factor_inexact_lower.
  - vm_compute. intros H. discriminate H.
  - destruct (cholesky_upper_is_transposed_lower (E := Example.env) 0%nat
                [Example.example_spd] Example.example_spd Example.example_factor)
      as (rl & hl & cl & ru & hu & cu & U & H1 & H2 & H3 & _ & H5 & H6 & H7 & H8).
    + reflexivity.
    + vm_compute. reflexivity.
    + vm_compute. reflexivity.
    + reflexivity.
    + exists rl, hl, cl, ru, hu, cu, U.
      repeat split; try assumption.
      * apply H7, example_factor_lower.
      * apply H8; [reflexivity | vm_compute; reflexivity].
Defined.

(** ** The unsupported dtypes *)

Section GuardFacts.
Context {E : Env}.





End GuardFacts.



(** ** The container broadcast *)

Section NestFacts.
Import Nestable.
Variable V : Type.
Variable op : V -> list (Nest V) -> Outcome V.

Lemma assoc_keyed (kvs : list (string * V)) (f : string -> Nest V) k :
  In k (map fst kvs) ->
  assoc k (map (fun '(k, _) => (k, f k)) kvs) = Some (f k).
Proof.
  induction kvs as [|[k' v] kvs IH]; intros Hin; [contradiction|].
  cbn [map assoc]. destruct (String.eqb_spec k k') as [->|Hne]; [reflexivity|].
  apply IH. destruct Hin as [Heq|Hin]; [cbn in Heq; congruence|exact Hin].
Qed.

(** Broadcasting over a container of plain values applies the operation
    key by key, in order, to the leaf and the parts of the other
    arguments selected by the key. *)
Lemma broadcast_flat (kvs : list (string * V)) (rest : list (Nest V)) :
  broadcast V op (flat V kvs) rest =
  (items ← mapM (fun '(k, a) =>
                   rest_k ← mapM (select V k) rest;
                   r ← op a rest_k;
                   Ok (k, Leaf r)) kvs;
   Ok (Container items)).
Proof.
  unfold flat. cbn [broadcast]. f_equal.
  induction kvs as [|[k a] kvs IH]; [reflexivity|].
  cbn [map mapM]. rewrite IH. clear IH.
  destruct (mapM (select V k) rest) as [rest_k|e]; [|reflexivity].
  cbn. destruct (op a rest_k) as [r|e]; reflexivity.
Qed.

Lemma select_keyed (kvs : list (string * V)) (f : string -> Nest V) k :
  In k (map fst kvs) -> select V k (keyed V kvs f) = Ok (f k).
Proof.
  intros Hin. unfold select, keyed. rewrite assoc_keyed by exact Hin.
  reflexivity.
Qed.

Lemma mapM_ext_in {X Y} (f g : X -> Outcome Y) (l : list X) :
  (forall x, In x l -> f x = g x) -> mapM f l = mapM g l.
Proof.
  induction l as [|x l IH]; intros Hfg; [reflexivity|].
  cbn [mapM]. rewrite (Hfg x) by (left; reflexivity).
  rewrite IH by (intros y Hy; apply Hfg; right; exact Hy). reflexivity.
Qed.

(** The lookup of a key does not depend on the order of the items of a
    container that holds [f k] at every key [k]. *)
Lemma assoc_permuted (kvs : list (string * V)) (f : string -> Nest V)
    (ys : list (string * Nest V)) k :
  Permutation ys (map (fun '(k, _) => (k, f k)) kvs) ->
  In k (map fst kvs) ->
  assoc k ys = Some (f k).
Proof.
  intros Hp Hin.
  assert (Hall : Forall (fun kv => kv.2 = f kv.1) ys).
  { eapply Permutation_Forall; [symmetry; exact Hp|].
    apply List.Forall_forall. intros [k' v] Hkv. apply in_map_iff in Hkv.
    destruct Hkv as ([k'' a] & [= <- <-] & _). reflexivity. }
  assert (Hk : In k (map fst ys)).
  { apply in_map_iff in Hin. destruct Hin as ([k' a] & Hk' & Hin).
    cbn in Hk'. subst k'. apply in_map_iff. exists (k, f k). split; [reflexivity|].
    eapply Permutation_in; [symmetry; exact Hp|].
    apply in_map_iff. exists (k, a). split; [reflexivity|exact Hin]. }
  clear Hp Hin. induction Hall as [|[k' v] ys Hv _ IH]; [contradiction|].
  cbn [assoc]. cbn [fst snd] in Hv. subst v.
  destruct (String.eqb_spec k k') as [->|Hne]; [reflexivity|].
  apply IH. destruct Hk as [Heq|Hk]; [cbn in Heq; congruence|exact Hk].
Qed.

Lemma select_permuted (kvs : list (string * V)) (f : string -> Nest V)
    (ys : list (string * Nest V)) k :
  Permutation ys (map (fun '(k, _) => (k, f k)) kvs) ->
  In k (map fst kvs) ->
  select V k (Container ys) = Ok (f k).
Proof.
  intros Hp Hin. unfold select. rewrite (assoc_permuted kvs f ys k Hp Hin).
  reflexivity.
Qed.

(** C2: broadcasting [op] over [{"a": Xa, "b": Xb}] and a container that
    holds [Ya] at ["a"] and [Yb] at ["b"], in either order, gives
    [{"a": op(Xa, Ya), "b": op(Xb, Yb)}], keys in the order of the first
    container (an exception of [op] propagates): the arguments are
    matched by key.  So it is for any keys and a container that holds the
    same keys in any order.  In particular [Container.layer_norm] with
    per-key containers for [normalized_idxs], [bias] and [new_std]
    applies the plain-array operation [layer_norm_array] at every key to
    the leaf and the parameters of that key. *)
Theorem broadcast_applies_per_key :
  (forall xa xb ya yb,
     broadcast V op (Container [("a", Leaf xa); ("b", Leaf xb)]%string)
       [Container [("a", ya); ("b", yb)]%string]
     = (ra ← op xa [ya]; rb ← op xb [yb];
        Ok (Container [("a", Leaf ra); ("b", Leaf rb)]%string))) /\
  (forall xa xb ya yb,
     broadcast V op (Container [("a", Leaf xa); ("b", Leaf xb)]%string)
       [Container [("b", yb); ("a", ya)]%string]
     = (ra ← op xa [ya]; rb ← op xb [yb];
        Ok (Container [("a", Leaf ra); ("b", Leaf rb)]%string))) /\
  (forall kvs ys (f : string -> Nest V),
     Permutation ys (map (fun '(k, _) => (k, f k)) kvs) ->
     broadcast V op (flat V kvs) [Container ys]
     = (items ← mapM (fun '(k, a) => r ← op a [f k]; Ok (k, Leaf r)) kvs;
        Ok (Container items))) /\
  (forall xa xb ia ib w ba bb eps sa sb out,
     layer_norm V op
       (Container [("a", Leaf xa); ("b", Leaf xb)]%string)
       (Container [("a", ia); ("b", ib)]%string) (Leaf w)
       (Container [("b", bb); ("a", ba)]%string) (Leaf eps)
       (Container [("a", sa); ("b", sb)]%string) (Leaf out)
     = (ra ← op xa [ia; Leaf w; ba; Leaf eps; sa; Leaf out];
        rb ← op xb [ib; Leaf w; bb; Leaf eps; sb; Leaf out];
        Ok (Container [("a", Leaf ra); ("b", Leaf rb)]%string))) /\
  (forall kvs idxs w bias eps std out yi yb ys,
     Permutation yi (map (fun '(k, _) => (k, idxs k)) kvs) ->
     Permutation yb (map (fun '(k, _) => (k, bias k)) kvs) ->
     Permutation ys (map (fun '(k, _) => (k, std k)) kvs) ->
     layer_norm V op (flat V kvs) (Container yi) (Leaf w)
       (Container yb) (Leaf eps) (Container ys) (Leaf out)
     = (items ← mapM (fun '(k, a) =>
                        r ← op a [idxs k; Leaf w; bias k; Leaf eps; std k;
                                  Leaf out];
                        Ok (k, Leaf r)) kvs;
        Ok (Container items))).
Proof.
  split; [|split; [|split; [|split]]].
  - intros. cbn. destruct (op xa [ya]) as [ra|e]; [|reflexivity].
    cbn. destruct (op xb [yb]) as [rb|e]; reflexivity.
  - intros. cbn. destruct (op xa [ya]) as [ra|e]; [|reflexivity].
    cbn. destruct (op xb [yb]) as [rb|e]; reflexivity.
  - intros kvs ys f Hp. rewrite broadcast_flat.
    f_equal. apply mapM_ext_in. intros [k a] Hin.
    assert (Hk : In k (map fst kvs)).
    { apply in_map_iff. exists (k, a). split; [reflexivity|exact Hin]. }
    cbn [mapM]. rewrite (select_permuted kvs f ys k Hp Hk). reflexivity.
  - intros. cbn.
    destruct (op xa _) as [ra|e]; [|reflexivity].
    cbn. destruct (op xb _) as [rb|e]; reflexivity.
  - intros kvs idxs w bias eps std out yi yb ys Hi Hb Hs.
    unfold layer_norm, ivy_layer_norm. rewrite broadcast_flat.
    f_equal. apply mapM_ext_in. intros [k a] Hin.
    assert (Hk : In k (map fst kvs)).
    { apply in_map_iff. exists (k, a). split; [reflexivity|exact Hin]. }
    cbn [mapM].
    rewrite (select_permuted kvs idxs yi k Hi Hk),
      (select_permuted kvs bias yb k Hb Hk),
      (select_permuted kvs std ys k Hs Hk).
    reflexivity.
Qed.

End NestFacts.

(** With [op(x, y) = x + y]: [{"a": 1, "b": 2}] and [{"b": 20, "a": 10}]
    give [{"a": 11, "b": 22}]. *)
Lemma broadcast_applies_per_key_witness :
  Nestable.broadcast Z
    (fun a rest => match rest with
                   | [Nestable.Leaf y] => Ok (a + y)
                   | _ => Raise ValueError
                   end)
    (Nestable.flat Z [("a", 1); ("b", 2)]%string)
    [Nestable.Container
       [("b", Nestable.Leaf 20); ("a", Nestable.Leaf 10)]%string]
  = Ok (Nestable.Container
          [("a", Nestable.Leaf 11); ("b", Nestable.Leaf 22)]%string).
Proof.
  rewrite (proj1 (proj2 (proj2 (broadcast_applies_per_key Z _)))
             [("a", 1); ("b", 2)]%string _
             (fun k => if String.eqb k "a" then Nestable.Leaf 10
                       else Nestable.Leaf 20)).
  - reflexivity.
  - apply perm_swap.
Defined.

(** ** The [out] argument *)


Section OutFacts.
Context {E : Env}.

















End OutFacts.



(** ** The dtype of the operands handed to the native library *)

(** The rules of [spec], a small program logic for the call log. *)
Section CallLogic.
Variable p : dtype.




Lemma spec_bind {A B} I (m : M A) R (f : A -> M B) Q :
  spec p I m R -> (forall a, spec p (R a) (f a) Q) -> spec p I (m ≫= f) Q.
Proof.
  intros Hm Hf h HI. destruct (Hm h HI) as [Hc Hq]. rewrite run_bind.
  destruct (run m h) as [[[a|e] h1] c1]; cbn [snd] in *.
  - specialize (Hq a h1 c1 eq_refl). destruct (Hf a h1 Hq) as [Hc2 Hq2].
    destruct (run (f a) h1) as [[o h2] c2]; cbn [snd] in *. split.
    + apply Forall_app. split; assumption.
    + intros b h' cs Heq. inversion Heq; subst. eapply Hq2. reflexivity.
  - split; [exact Hc|]. intros b h' cs Heq. discriminate.
Qed.








End CallLogic.

Section BackendRules.
Context {E : Env}.
Variable p : dtype.






Lemma good_pair fn a b :
  t_dtype a = p -> t_dtype b = p -> good p (mkCall fn [a; b]).
Proof. intros Ha Hb _. cbn. repeat constructor; assumption. Qed.






(** A call with two tensor operands, both of dtype [p]. *)
Lemma spec_call2 I fn k x1 x2 out :
  (forall h, I h -> holds p h x1 /\ holds p h x2) ->
  spec p I (Backend.call2 fn k x1 x2 out) (fun _ _ => True).
Proof.
  intros Hx h HI. split; [|intros; exact Logic.I].
  destruct (Hx h HI) as [(a & Ha & Hda) (b & Hb & Hdb)].
  rewrite (run_call2 _ _ _ _ _ _ _ _ Ha Hb), native_calls.
  constructor; [apply good_pair; assumption|constructor].
Qed.


Lemma spec_promote da db x1 x2 :
  p = promote_types da db ->
  spec p (fun h => holds da h x1 /\ holds db h x2)
    (promote_types_of_inputs x1 x2)
    (fun r h => holds p h r.1 /\ holds p h r.2).
Proof.
  intros Hp h [(a & Ha & Hda) (b & Hb & Hdb)].
  rewrite (run_promote_types_of_inputs _ _ _ _ _ Ha Hb).
  split; [constructor|]. intros r h' cs Hr. inversion Hr; subst r h' cs.
  cbn [fst snd]. split.
  - eexists. split; [apply lookup_fresh_fst|]. cbn. congruence.
  - eexists. split; [apply lookup_fresh_snd|]. cbn. congruence.
Qed.

End BackendRules.

Section OperandDtypes.
Context {E : Env}.




Lemma inner_spec da db x1 x2 out :
  spec (promote_types da db) (fun h => holds da h x1 /\ holds db h x2)
    (Backend.inner x1 x2 out) (fun _ _ => True).
Proof.
  unfold Backend.inner.
  eapply spec_bind; [apply (spec_promote _ da db); reflexivity|].
  intros [r1 r2]. apply spec_call2. auto.
Qed.

Lemma outer_spec da db x1 x2 out :
  spec (promote_types da db) (fun h => holds da h x1 /\ holds db h x2)
    (Backend.outer x1 x2 out) (fun _ _ => True).
Proof.
  unfold Backend.outer.
  eapply spec_bind; [apply (spec_promote _ da db); reflexivity|].
  intros [r1 r2]. apply spec_call2. auto.
Qed.







End OperandDtypes.

Section Promotion.
Context {E : Env}.

Lemma calls_bind_ok {A B} (m : M A) (f : A -> M B) h a h1 c1 :
  run m h = (Ok a, h1, c1) ->
  (run (m ≫= f) h).2 = c1 ++ (run (f a) h1).2.
Proof.
  intros Hm. rewrite (run_bind_ok _ _ _ _ _ _ Hm).
  destruct (run (f a) h1) as [[o h2] c2]. reflexivity.
Qed.

Lemma run_to_dtype x d h a :
  h !! x = Some a ->
  exists r h',
    run (to_dtype x d) h = (Ok r, h', []) /\ h' !! r = Some (to_value d a) /\
    forall r0 v0, h !! r0 = Some v0 -> h' !! r0 = Some v0.
Proof.
  intros Hx. unfold to_dtype, to_value.
  rewrite (run_bind_ok _ _ _ _ _ _ (run_deref _ _ _ Hx)).
  destruct (bool_decide (t_dtype a = d)); cbn.
  - exists x, h. auto.
  - exists (length h), (h ++ [astype d a]).
    split; [reflexivity|]. split; [apply lookup_fresh|].
    intros r0 v0 Hr0. eapply lookup_old, Hr0.
Qed.


Lemma tensordot_default_calls x1 x2 out h a b :
  h !! x1 = Some a -> h !! x2 = Some b ->
  (run (Backend.tensordot x1 x2 (AxesInt 2) out) h).2
  = [mkCall "torch.tensordot" [to_value float32 a; to_value float32 b]].
Proof.
  intros H1 H2. unfold Backend.tensordot.
  rewrite (calls_bind_ok _ _ _ _ _ _ (run_deref _ _ _ H1)).
  rewrite (calls_bind_ok _ _ _ _ _ _ (run_deref _ _ _ H2)).
  destruct (run_to_dtype x1 float32 h a H1) as (r1 & h1 & Hr1 & Hv1 & Hk1).
  rewrite (calls_bind_ok _ _ _ _ _ _ Hr1).
  destruct (run_to_dtype x2 float32 h1 b (Hk1 _ _ H2))
    as (r2 & h2 & Hr2 & Hv2 & Hk2).
  rewrite (calls_bind_ok _ _ _ _ _ _ Hr2). cbn [app].
  rewrite run_bind, (run_call2 _ _ _ _ _ _ _ _ (Hk2 _ _ Hv1) Hv2).
  pose proof (native_calls "torch.tensordot"
                [to_value float32 a; to_value float32 b]
                (torch_tensordot (to_value float32 a) (to_value float32 b)
                   (AxesInt 2)) None h2) as Hc.
  destruct (run (native _ _ _ None) h2) as [[[r|e] h3] c3];
    cbn [snd] in Hc; subst c3; [|reflexivity].
  run_red.
  destruct (run (to_dtype r _) h3) as [[o4 h4] c4] eqn:Ht.
  assert (Hc4 : c4 = []).
  { unfold to_dtype in Ht. rewrite run_bind in Ht. unfold deref in Ht.
    cbn [run] in Ht. destruct (h3 !! r) as [v|]; [|inversion Ht; reflexivity].
    destruct (bool_decide _) in Ht; cbn in Ht; inversion Ht; reflexivity. }
  subst c4. reflexivity.
Qed.

End Promotion.

Section KernelOperands.
Context {E : Env}.






Lemma to_value_astype d a : t_dtype a <> d -> to_value d a = astype d a.
Proof.
  intros Hd. unfold to_value. rewrite bool_decide_eq_false_2 by exact Hd.
  reflexivity.
Qed.

Lemma to_value_same d a : t_dtype a = d -> to_value d a = a.
Proof.
  intros Hd. unfold to_value. rewrite bool_decide_eq_true_2 by exact Hd.
  reflexivity.
Qed.

Lemma vecdot_test d :
  py_ne (PyNativeDtype (as_native_dtype d)) (PyStr "float64") = true.
Proof. reflexivity. Qed.

End KernelOperands.


Section OperandValues.
Context {E : Env}.


End OperandValues.

Section CrossOperands.
Context {E : Env}.




End CrossOperands.

Section Float32Operands.
Context {E : Env}.








End Float32Operands.


Section PromotionClaim.
Context {E : Env}.


End PromotionClaim.



(** * Further properties of the backend and of the frontend *)

(** ** [trace] and [diagonal] *)

Section DiagonalFacts.

Lemma indices_vector len : indices [len] = map (fun i => [i]) (seq 0 len).
Proof.
  cbn [indices]. generalize 0%nat. 
  induction len as [|len IH]; intros s.
  - reflexivity.
  - cbn [seq flat_map map app]. rewrite IH. reflexivity.
Qed.

(** [torch.diagonal] of an [n] x [m] matrix, along its two axes. *)
Lemma diagonal_matrix X n m k dim1 dim2 :
  t_shape X = [n; m] ->
  (dim1 = 0 /\ dim2 = 1) \/ (dim1 = -2 /\ dim2 = -1) ->
  Torch.diagonal X k dim1 dim2
  = Ok (mkTensor (t_dtype X)
          [Z.to_nat (if 0 <=? k then Z.min (Z.of_nat n) (Z.of_nat m - k)
                     else Z.min (Z.of_nat n + k) (Z.of_nat m))]
          (map (fun i => get X [(i + Z.to_nat (Z.max (- k) 0))%nat;
                                (i + Z.to_nat (Z.max k 0))%nat])
               (seq 0 (Z.to_nat (if 0 <=? k
                                 then Z.min (Z.of_nat n) (Z.of_nat m - k)
                                 else Z.min (Z.of_nat n + k) (Z.of_nat m)))))).
Proof.
  intros Hs Hd. unfold Torch.diagonal, rank. rewrite Hs. cbn [length Nat.ltb Nat.leb].
  assert (Hn : normalize_dim 2 dim1 = Ok 0%nat /\ normalize_dim 2 dim2 = Ok 1%nat).
  { destruct Hd as [[-> ->]|[-> ->]]; split; reflexivity. }
  destruct Hn as [-> ->]. cbn [mbind Outcome_bind Nat.eqb nth].
  change (drop_dims [0%nat; 1%nat] [n; m]) with (@nil nat).
  cbn [app]. unfold tabulate. rewrite indices_vector, map_map.
  f_equal. f_equal. apply map_ext. intros i.
  cbn [List.last removelast weave Nat.eqb]. f_equal.
  f_equal; [|f_equal]; lia.
Qed.

End DiagonalFacts.
Section IntegerSums.

(** [wrap] depends on its argument modulo [2 ^ w] only. *)
Lemma wrap_congr w sg a b :
  a mod 2 ^ w = b mod 2 ^ w -> wrap w sg a = wrap w sg b.
Proof. unfold wrap. intros ->. reflexivity. Qed.

Lemma wrap_mod w sg z : 0 < w -> wrap w sg z mod 2 ^ w = z mod 2 ^ w.
Proof.
  intros Hw. unfold wrap.
  assert (Hp : 0 < 2 ^ w) by (apply Z.pow_pos_nonneg; lia).
  destruct (sg && _).
  - rewrite Zminus_mod, Z_mod_same_full, Z.sub_0_r, !Z.mod_mod by lia.
    reflexivity.
  - apply Z.mod_mod. lia.
Qed.

Lemma wrap_add w sg a b :
  0 < w -> wrap w sg (wrap w sg a + wrap w sg b) = wrap w sg (a + b).
Proof.
  intros Hw. apply wrap_congr.
  rewrite Z.add_mod, !wrap_mod, <- Z.add_mod by (try apply Z.pow_nonzero; lia).
  reflexivity.
Qed.

Lemma fold_add_int64 l z :
  fold_left (add int64) l (SInt (wrap 64 true z))
  = SInt (wrap 64 true (z + fold_right Z.add 0 (map scalar_to_Z l))).
Proof.
  revert z. induction l as [|x l IH]; intros z.
  - cbn [fold_left map fold_right]. rewrite Z.add_0_r. reflexivity.
  - cbn [fold_left map fold_right].
    change (add int64 (SInt (wrap 64 true z)) x)
      with (SInt (wrap 64 true (wrap 64 true (wrap 64 true z)
                                + wrap 64 true (scalar_to_Z x)))).
    rewrite wrap_add by lia.
    replace (wrap 64 true (wrap 64 true z + scalar_to_Z x))
      with (wrap 64 true (z + scalar_to_Z x)).
    2:{ apply wrap_congr.
        rewrite (Z.add_mod (wrap 64 true z)), wrap_mod, <- Z.add_mod
          by (try apply Z.pow_nonzero; lia).
        reflexivity. }
    rewrite IH. f_equal. f_equal. lia.
Qed.

(** The sum of integers and booleans, accumulated in [int64], is the
    sum of the integers wrapped to 64 bits: it does not depend on the
    order of the additions. *)
Lemma sum_scalars_int64 l :
  sum_scalars int64 l
  = SInt (wrap 64 true (fold_right Z.add 0 (map scalar_to_Z l))).
Proof.
  unfold sum_scalars.
  change (zero int64) with (SInt (wrap 64 true 0)).
  rewrite fold_add_int64. reflexivity.
Qed.

Lemma sum_dtype_int d : float_format d = None -> sum_dtype d = int64.
Proof. unfold sum_dtype. intros ->. reflexivity. Qed.

End IntegerSums.

Section TraceFacts.

(** X1: [trace] of an [n] x [m] matrix with any offset [k] hands
    [torch.sum] the elements [x[i + max(-k, 0), i + max(k, 0)]] of the
    diagonal [k] and returns a new zero-dimensional array of the dtype of
    [torch.sum] (int64 for integers and booleans).  For an integer or
    boolean matrix its element is the sum of the diagonal, wrapped to 64
    bits; an offset beyond the matrix gives the empty sum, zero, and no
    error. *)
Theorem trace_of_matrix x k out h X n m :
  h !! x = Some X -> t_shape X = [n; m] ->
  let len := Z.to_nat (if 0 <=? k then Z.min (Z.of_nat n) (Z.of_nat m - k)
                       else Z.min (Z.of_nat n + k) (Z.of_nat m)) in
  let diag := map (fun i => get X [(i + Z.to_nat (Z.max (- k) 0))%nat;
                                   (i + Z.to_nat (Z.max k 0))%nat])
                  (seq 0 len) in
  let d := sum_dtype (t_dtype X) in
  exists v,
    run (Backend.trace x k 0 1 out) h
    = (Ok (S (length h)),
       h ++ [mkTensor (t_dtype X) [len] diag; mkTensor d [] [v]],
       [mkCall "torch.diagonal" [X];
        mkCall "torch.sum" [mkTensor (t_dtype X) [len] diag]]) /\
    (float_format (t_dtype X) = None ->
     v = SInt (wrap 64 true (fold_right Z.add 0 (map scalar_to_Z diag)))) /\
    (Z.of_nat m <= k \/ k <= - Z.of_nat n -> v = zero d).
Proof.
  intros Hx Hs len diag d. exists (sum_scalars d diag).
  split; [|split].
  - unfold Backend.trace.
    rewrite run_bind, (run_call1 _ _ _ _ _ _ Hx).
    rewrite (diagonal_matrix X n m k 0 1 Hs) by (left; split; reflexivity).
    fold len. fold diag. rewrite run_native_fresh. run_red.
    rewrite run_bind, (run_call1 _ _ _ _ _ _ (lookup_fresh _ _)).
    rewrite run_native_fresh. run_red. cbn [run mret M_ret].
    unfold Torch.sum. cbn [t_dtype t_data]. fold d.
    rewrite length_app, <- app_assoc. cbn [length app]. rewrite Nat.add_1_r.
    reflexivity.
  - intros Hf. unfold d. rewrite (sum_dtype_int _ Hf).
    apply sum_scalars_int64.
  - intros Hk. assert (Hlen : len = 0%nat).
    { unfold len. destruct (Z.leb_spec 0 k); lia. }
    unfold diag. rewrite Hlen. reflexivity.
Qed.

Lemma diagonal_dtype X k dim1 dim2 D :
  Torch.diagonal X k dim1 dim2 = Ok D -> t_dtype D = t_dtype X.
Proof.
  unfold Torch.diagonal.
  destruct (rank X <? 2)%nat; [discriminate|].
  destruct (normalize_dim (rank X) dim1) as [d1|]; [|discriminate].
  destruct (normalize_dim (rank X) dim2) as [d2|]; [|discriminate].
  cbn [mbind Outcome_bind].
  destruct (d1 =? d2)%nat; [discriminate|].
  intros [= <-]. reflexivity.
Qed.

(** X2: whatever the rank of the operand and the axes, what [trace]
    returns is zero-dimensional and of the dtype of [torch.sum]; for an
    integer or boolean operand its element is the sum, wrapped to 64
    bits, of all the elements of [torch.diagonal(x, offset, axis1,
    axis2)]: for a stack of matrices the sum of the traces, not the array
    of the traces. *)
Theorem trace_is_zero_dimensional x k axis1 axis2 out h r h' cs :
  run (Backend.trace x k axis1 axis2 out) h = (Ok r, h', cs) ->
  exists X D v,
    h !! x = Some X /\ Torch.diagonal X k axis1 axis2 = Ok D /\
    h' !! r = Some (mkTensor (sum_dtype (t_dtype X)) [] [v]) /\
    (float_format (t_dtype X) = None ->
     v = SInt (wrap 64 true
                 (fold_right Z.add 0 (map scalar_to_Z (t_data D))))).
Proof.
  revert r h' cs.
  cut (wp (Backend.trace x k axis1 axis2 out) h
         (fun o h' _ => forall r, o = Ok r ->
            exists X D v,
              h !! x = Some X /\ Torch.diagonal X k axis1 axis2 = Ok D /\
              h' !! r = Some (mkTensor (sum_dtype (t_dtype X)) [] [v]) /\
              (float_format (t_dtype X) = None ->
               v = SInt (wrap 64 true
                           (fold_right Z.add 0
                              (map scalar_to_Z (t_data D))))))).
  { intros Hw r h' cs Hrun. exact (wp_run _ _ _ _ _ _ Hw Hrun r eq_refl). }
  unfold Backend.trace. wp_go.
  all: try (intros ? [=]); subst.
  match goal with
  | H : Torch.diagonal ?X _ _ _ = Ok ?D |- _ =>
      exists X, D, (sum_scalars (sum_dtype (t_dtype X)) (t_data D));
      pose proof (diagonal_dtype _ _ _ _ _ H) as Hd
  end.
  split; [reflexivity|]. split; [assumption|]. split.
  - heap_goal. unfold Torch.sum. rewrite Hd. reflexivity.
  - intros Hf. rewrite (sum_dtype_int _ Hf). apply sum_scalars_int64.
Qed.

(** X3: on an [n] x [m] matrix, [diagonal] with the default axes of the
    backend, [(-2, -1)], and the frontend's [diagonal] with its default
    axes, [(0, 1)], return the same new array, whatever [out]: the
    elements [x[i + max(-k, 0), i + max(k, 0)]] of the diagonal [k], of
    which there are [min(n, m - k)] for [k >= 0] and [min(n + k, m)] for
    [k < 0] (none when that is negative). *)
Theorem diagonal_of_matrix x k out h X n m :
  h !! x = Some X -> t_shape X = [n; m] ->
  let len := Z.to_nat (if 0 <=? k then Z.min (Z.of_nat n) (Z.of_nat m - k)
                       else Z.min (Z.of_nat n + k) (Z.of_nat m)) in
  let D := mkTensor (t_dtype X) [len]
             (map (fun i => get X [(i + Z.to_nat (Z.max (- k) 0))%nat;
                                   (i + Z.to_nat (Z.max k 0))%nat])
                  (seq 0 len)) in
  run (Backend.diagonal x k (-2) (-1) out) h
  = (Ok (length h), h ++ [D], [mkCall "torch.diagonal" [X]]) /\
  run (Frontend.diagonal x k 0 1) h
  = (Ok (length h), h ++ [D], [mkCall "torch.diagonal" [X]]).
Proof.
  intros Hx Hs len D. split.
  - unfold Backend.diagonal. rewrite (run_call1 _ _ _ _ _ _ Hx).
    rewrite (diagonal_matrix X n m k (-2) (-1) Hs) by (right; split; reflexivity).
    reflexivity.
  - unfold Frontend.diagonal, Frontend.ivy_diagonal, Backend.diagonal.
    rewrite (run_call1 _ _ _ _ _ _ Hx).
    rewrite (diagonal_matrix X n m k 0 1 Hs) by (left; split; reflexivity).
    reflexivity.
Qed.

Lemma to_value_dtype d a : t_dtype (to_value d a) = d.
Proof.
  unfold to_value. destruct (bool_decide (t_dtype a = d)) eqn:Hd; [|reflexivity].
  apply bool_decide_eq_true in Hd. exact Hd.
Qed.

Lemma to_value_shape d a : t_shape (to_value d a) = t_shape a.
Proof. unfold to_value. destruct (bool_decide _); reflexivity. Qed.

(** X4: on an operand of a dtype other than [float16] and [bfloat16]
    (which the frontend marks as unsupported), the frontend [trace]
    returns a zero-dimensional [int64] array for an integer dtype, signed
    or not (["int"] occurs in the name of the dtype), and a
    zero-dimensional array of the dtype of the operand otherwise, a
    boolean one for a boolean operand. *)
Theorem frontend_trace_dtype x h X r h' cs :
  h !! x = Some X ->
  t_dtype X <> float16 -> t_dtype X <> bfloat16 ->
  run (Frontend.trace x) h = (Ok r, h', cs) ->
  exists v,
    h' !! r = Some v /\ t_shape v = [] /\
    t_dtype v = match t_dtype X with
                | uint8 | int8 | int16 | int32 | int64 => int64
                | d => d
                end.
Proof.
  intros Hx _ _. pose proof (lookup_lt_Some _ _ _ Hx) as Hlt. revert r h' cs.
  cut (wp (Frontend.trace x) h
         (fun o h' _ => forall r, o = Ok r ->
            exists v,
              h' !! r = Some v /\ t_shape v = [] /\
              t_dtype v = match t_dtype X with
                          | uint8 | int8 | int16 | int32 | int64 => int64
                          | d => d
                          end)).
  { intros Hw r h' cs Hrun. exact (wp_run _ _ _ _ _ _ Hw Hrun r eq_refl). }
  unfold Frontend.trace, Frontend.astype, Frontend.ivy_trace, Backend.trace.
  wp_go.
  all: try (intros ? [=]); subst.
  all: eexists; (split; [heap_goal; reflexivity|]).
  all: rewrite to_value_shape, to_value_dtype; cbn [t_shape Torch.sum].
  all: split; [reflexivity|].
  all: repeat match goal with
              | H : context [to_value ?d ?a] |- _ =>
                  rewrite (to_value_dtype d a) in H
              end.
  all: rewrite ?to_value_dtype.
  all: match goal with H : Frontend.contains _ _ = _ |- _ => revert H end.
  all: destruct (t_dtype X); vm_compute; congruence.
Qed.

End TraceFacts.

(** [trace] of the int32 matrix [[1, 2, 3], [4, 5, 6]] with offset [1]
    is the int64 [8]. *)
Lemma trace_of_matrix_witness :
  exists v,
    run (Backend.trace 0%nat 1 0 1 None)
        [of_ints int32 [2; 3]%nat [1; 2; 3; 4; 5; 6]]
    = (Ok 2%nat,
       [of_ints int32 [2; 3]%nat [1; 2; 3; 4; 5; 6];
        of_ints int32 [2%nat] [2; 6]; mkTensor int64 [] [v]],
       [mkCall "torch.diagonal" [of_ints int32 [2; 3]%nat [1; 2; 3; 4; 5; 6]];
        mkCall "torch.sum" [of_ints int32 [2%nat] [2; 6]]]) /\
    v = SInt 8.
Proof.
  destruct (trace_of_matrix 0%nat 1 None
              [of_ints int32 [2; 3]%nat [1; 2; 3; 4; 5; 6]]
              (of_ints int32 [2; 3]%nat [1; 2; 3; 4; 5; 6]) 2 3
              eq_refl eq_refl) as (v & Hrun & Hint & _).
  exists v. split; [exact Hrun|]. rewrite (Hint eq_refl). reflexivity.
Defined.

(** The int32 stack [[[1, 2], [3, 4]], [[5, 6], [7, 8]]] with offset 1:
    the zero-dimensional int64 [3 + 4], not the array [[3, 4]]. *)
Lemma trace_is_zero_dimensional_witness :
  (exists X D v,
     [of_ints int32 [2; 2; 2]%nat [1; 2; 3; 4; 5; 6; 7; 8]] !! 0%nat = Some X /\
     Torch.diagonal X 1 0 1 = Ok D /\
     (run (Backend.trace 0%nat 1 0 1 None)
          [of_ints int32 [2; 2; 2]%nat [1; 2; 3; 4; 5; 6; 7; 8]]).1.2 !! 2%nat
     = Some (mkTensor (sum_dtype (t_dtype X)) [] [v]) /\
     (float_format (t_dtype X) = None ->
      v = SInt (wrap 64 true
                  (fold_right Z.add 0 (map scalar_to_Z (t_data D)))))) /\
  (run (Backend.trace 0%nat 1 0 1 None)
       [of_ints int32 [2; 2; 2]%nat [1; 2; 3; 4; 5; 6; 7; 8]]).1.2 !! 2%nat
  = Some (of_ints int64 [] [7]).
Proof.
  split; [|vm_compute; reflexivity].
  apply (trace_is_zero_dimensional 0%nat 1 0 1 None
           [of_ints int32 [2; 2; 2]%nat [1; 2; 3; 4; 5; 6; 7; 8]] 2%nat _
           (run (Backend.trace 0%nat 1 0 1 None)
                [of_ints int32 [2; 2; 2]%nat [1; 2; 3; 4; 5; 6; 7; 8]]).2).
  vm_compute. reflexivity.
Defined.

(** The diagonal [-1] of [[2, 0, 3], [3, 5, 6]] is [[3]]. *)
Lemma diagonal_of_matrix_witness :
  run (Backend.diagonal 0%nat (-1) (-2) (-1) (Some 0%nat))
      [Example.mat 2 3 [2; 0; 3; 3; 5; 6]]
  = (Ok 1%nat,
     [Example.mat 2 3 [2; 0; 3; 3; 5; 6]; of_ints float32 [1%nat] [3]],
     [mkCall "torch.diagonal" [Example.mat 2 3 [2; 0; 3; 3; 5; 6]]]) /\
  run (Frontend.diagonal 0%nat (-1) 0 1) [Example.mat 2 3 [2; 0; 3; 3; 5; 6]]
  = (Ok 1%nat,
     [Example.mat 2 3 [2; 0; 3; 3; 5; 6]; of_ints float32 [1%nat] [3]],
     [mkCall "torch.diagonal" [Example.mat 2 3 [2; 0; 3; 3; 5; 6]]]).
Proof.
  exact (diagonal_of_matrix 0%nat (-1) (Some 0%nat)
           [Example.mat 2 3 [2; 0; 3; 3; 5; 6]]
           (Example.mat 2 3 [2; 0; 3; 3; 5; 6]) 2 3 eq_refl eq_refl).
Defined.

(** The frontend [trace] of the int8 matrix [[100, 0], [0, 100]] is the
    int64 [200]. *)
Lemma frontend_trace_dtype_witness :
  (exists v,
     (run (Frontend.trace 0%nat) [of_ints int8 [2; 2]%nat [100; 0; 0; 100]]).1.2
       !! 4%nat = Some v /\
     t_shape v = [] /\ t_dtype v = int64) /\
  (run (Frontend.trace 0%nat) [of_ints int8 [2; 2]%nat [100; 0; 0; 100]]).1.2
    !! 4%nat = Some (of_ints int64 [] [200]).
Proof.
  split; [|vm_compute; reflexivity].
  apply (frontend_trace_dtype 0%nat [of_ints int8 [2; 2]%nat [100; 0; 0; 100]]
           (of_ints int8 [2; 2]%nat [100; 0; 0; 100]) 4%nat _
           (run (Frontend.trace 0%nat)
              [of_ints int8 [2; 2]%nat [100; 0; 0; 100]]).2 eq_refl);
    [vm_compute; discriminate | vm_compute; discriminate |].
  vm_compute. reflexivity.
Defined.

(** ** The shape of the result of [vector_norm] *)

Section VectorNormFacts.
Context {E : Env}.

Lemma unsqueeze_zero_dim k :
  t_shape k = [] ->
  unsqueeze k 0 = Ok (mkTensor (t_dtype k) [1%nat] (t_data k)).
Proof. intros Hs. unfold unsqueeze, rank. rewrite Hs. reflexivity. Qed.

(** X5: [vector_norm] never returns a zero-dimensional array: it returns
    the elements and the dtype of the result of the native kernel, with
    the shape [(1,)] when that result is zero-dimensional and with the
    shape of that result otherwise. *)
Theorem vector_norm_never_zero_dimensional x axis keepdims ord out h r h' cs :
  run (Backend.vector_norm x axis keepdims ord out) h = (Ok r, h', cs) ->
  exists a k v,
    h !! x = Some a /\
    linalg_vector_norm torch_pow a ord axis keepdims = Ok k /\
    h' !! r = Some v /\
    t_dtype v = t_dtype k /\ t_data v = t_data k /\
    t_shape v = (if (rank k =? 0)%nat then [1%nat] else t_shape k) /\
    t_shape v <> [].
Proof.
  revert r h' cs.
  cut (wp (Backend.vector_norm x axis keepdims ord out) h
         (fun o' h' _ => forall r, o' = Ok r ->
            exists a k v,
              h !! x = Some a /\
              linalg_vector_norm torch_pow a ord axis keepdims = Ok k /\
              h' !! r = Some v /\
              t_dtype v = t_dtype k /\ t_data v = t_data k /\
              t_shape v = (if (rank k =? 0)%nat then [1%nat] else t_shape k) /\
              t_shape v <> [])).
  { intros Hw r h' cs Hrun. exact (wp_run _ _ _ _ _ _ Hw Hrun r eq_refl). }
  unfold Backend.vector_norm.
  repeat wp_step.
  all: try (intros ? [=]).
  all: pose proof I as Hmark.
  all: try match goal with H : ?h !! ?o = Some _, H' : <[?o:=_]> ?h !! _ = _ |- _ =>
         pose proof (lookup_lt_Some _ _ _ H) end.
  all: heap_simpl; subst.
  all: try (rewrite (unsqueeze_zero_dim _ Heql) in *);
    repeat match goal with H : Ok _ = Ok _ |- _ => injection H as <- end.
  all: eexists _, _, _.
  all: split; [reflexivity|]; split; [eassumption|].
  all: split; [heap_goal; reflexivity|].
  all: cbn [t_dtype t_data t_shape]; unfold rank; rewrite ?Heql.
  all: repeat split; try reflexivity; try discriminate.
Qed.

End VectorNormFacts.

Section ReduceFacts.

Lemma drop_dims_all sh : drop_dims (seq 0 (length sh)) sh = [].
Proof.
  unfold drop_dims.
  assert (Hall : forall (l : list (nat * nat)),
             (forall p n, In (p, n) l -> (p < length sh)%nat) ->
             omap (fun '(p, n) =>
                     if bool_decide (p ∈ seq 0 (length sh)) then None else Some n)
                  l = []).
  { induction l as [|[p n] l IH]; intros Hl; [reflexivity|].
    cbn [omap list_omap]. rewrite bool_decide_eq_true_2.
    - apply IH. intros p' n' Hin. eapply Hl. right. exact Hin.
    - apply elem_of_seq. specialize (Hl p n (or_introl eq_refl)). lia. }
  apply Hall. intros p n Hin.
  apply in_combine_l in Hin. apply in_seq in Hin. lia.
Qed.

Lemma imap_all_dims {X} (f g : nat -> X) (sh : list nat) :
  imap (fun p n => if bool_decide (p ∈ seq 0 (length sh)) then f n else g n) sh
  = map f sh.
Proof.
  rewrite <- (imap_const f). apply imap_ext. intros i n Hi.
  rewrite bool_decide_eq_true_2; [reflexivity|].
  apply elem_of_seq. apply lookup_lt_Some in Hi. lia.
Qed.

Lemma indices_ones n : indices (repeat 1%nat n) = [repeat 0%nat n].
Proof.
  induction n as [|n IH]; [reflexivity|].
  cbn [repeat indices seq flat_map]. rewrite IH. reflexivity.
Qed.

Lemma zip_with_add_zeros (r : list nat) :
  zip_with Nat.add (repeat 0%nat (length r)) r = r.
Proof. induction r as [|i r IH]; [reflexivity|]. cbn. rewrite IH. reflexivity. Qed.

Lemma map_get_indices x : wf x -> map (get x) (indices (t_shape x)) = t_data x.
Proof.
  intros Hwf. pose proof (tabulate_get x Hwf) as Ht.
  unfold tabulate in Ht. apply (f_equal t_data) in Ht. exact Ht.
Qed.

(** Reducing every axis hands the reduction all the elements, in
    row-major order. *)
Lemma reduce_all d f x :
  wf x ->
  reduce d (seq 0 (rank x)) false f x = mkTensor d [] [f (t_data x)].
Proof.
  intros Hwf. unfold reduce, rank. rewrite drop_dims_all. f_equal.
  rewrite (imap_all_dims (fun _ => 1%nat) (fun n => n)).
  rewrite (imap_ext _ (fun _ n => n) (t_shape x)).
  2:{ intros i n Hi. rewrite bool_decide_eq_true_2; [reflexivity|].
      apply elem_of_seq. apply lookup_lt_Some in Hi. lia. }
  replace (imap (fun _ n => n) (t_shape x)) with (t_shape x).
  2:{ rewrite (imap_const (fun n : nat => n)). symmetry. apply map_id. }
  replace (map (fun _ : nat => 1%nat) (t_shape x))
    with (repeat 1%nat (length (t_shape x))).
  2:{ induction (t_shape x) as [|n l IH]; [reflexivity|]. cbn. f_equal. exact IH. }
  rewrite indices_ones. cbn [map]. f_equal. f_equal.
  etransitivity; [|apply (map_get_indices x Hwf)].
  apply map_ext_in. intros r Hr. f_equal.
  pose proof (indices_in_range (t_shape x)) as Hall.
  rewrite List.Forall_forall in Hall. specialize (Hall _ Hr).
  rewrite <- (in_range_length _ _ Hall). apply zip_with_add_zeros.
Qed.

End ReduceFacts.

Section AbsoluteValues.

Lemma nonneg_abs f : is_nan_float f = false -> nonneg (SFabs f).
Proof. destruct f as [s|s| |s m e]; cbn; intros H; (exact I || discriminate). Qed.

Lemma abs_nan f : is_nan_float f = true -> SFabs f = S754_nan.
Proof. destruct f; cbn; intros H; (reflexivity || discriminate). Qed.

Lemma nonneg_not_nan f : nonneg f -> is_nan_float f = false.
Proof. destruct f as [[]|[]| |[] m e]; cbn; intros H; (reflexivity || contradiction). Qed.

Lemma SFcompare_finite m1 e1 m2 e2 :
  SFcompare (S754_finite false m1 e1) (S754_finite false m2 e2)
  = Some (match e1 ?= e2 with
          | Eq => Pos.compare m1 m2
          | Lt => Lt
          | Gt => Gt
          end).
Proof. reflexivity. Qed.

Lemma SFleb_refl f : nonneg f -> SFleb f f = true.
Proof.
  destruct f as [[]|[]| |[] m e]; cbn [nonneg]; intros H; try contradiction;
    try reflexivity.
  unfold SFleb. rewrite SFcompare_finite, Z.compare_refl, Pos.compare_refl.
  reflexivity.
Qed.

Lemma SFltb_total a b :
  nonneg a -> nonneg b -> SFltb a b = false -> SFleb b a = true.
Proof.
  destruct a as [[]|[]| |[] m1 e1], b as [[]|[]| |[] m2 e2]; cbn [nonneg];
    intros Ha Hb; try contradiction; try reflexivity;
    try (intros H; discriminate H).
  unfold SFltb, SFleb. rewrite !SFcompare_finite.
  destruct (Z.compare_spec e1 e2), (Z.compare_spec e2 e1); subst;
    try lia; try discriminate; try reflexivity.
  destruct (Pos.compare_spec m1 m2), (Pos.compare_spec m2 m1); subst;
    try lia; try discriminate; reflexivity.
Qed.

Lemma SFleb_trans a b c :
  nonneg a -> nonneg b -> nonneg c ->
  SFleb a b = true -> SFleb b c = true -> SFleb a c = true.
Proof.
  destruct a as [[]|[]| |[] m1 e1], b as [[]|[]| |[] m2 e2],
    c as [[]|[]| |[] m3 e3]; cbn [nonneg];
    intros Ha Hb Hc; try contradiction; try reflexivity;
    try (intros H; discriminate H); try (intros _ H; discriminate H).
  unfold SFleb. rewrite !SFcompare_finite.
  destruct (Z.compare_spec e1 e2), (Z.compare_spec e2 e3),
    (Z.compare_spec e1 e3); subst; try lia; try discriminate;
    try reflexivity.
  destruct (Pos.compare_spec m1 m2), (Pos.compare_spec m2 m3),
    (Pos.compare_spec m1 m3); subst; try lia; try discriminate;
    reflexivity.
Qed.

(** A non-negative float below zero is zero. *)
Lemma SFleb_zero f : nonneg f -> SFleb f (S754_zero false) = true -> f = S754_zero false.
Proof.
  destruct f as [[]|[]| |[] m e]; cbn; intros H; try contradiction;
    try reflexivity; discriminate.
Qed.

Lemma SFleb_infinity f : nonneg f -> SFleb (S754_infinity false) f = true -> f = S754_infinity false.
Proof.
  destruct f as [[]|[]| |[] m e]; cbn; intros H; try contradiction;
    try reflexivity; discriminate.
Qed.

Lemma zero_least f : nonneg f -> SFleb (S754_zero false) f = true.
Proof. destruct f as [[]|[]| |[] m e]; cbn; intros H; (reflexivity || contradiction). Qed.

Lemma infinity_greatest f : nonneg f -> SFleb f (S754_infinity false) = true.
Proof. destruct f as [[]|[]| |[] m e]; cbn; intros H; (reflexivity || contradiction). Qed.

Lemma SFltb_leb a b : SFltb a b = true -> SFleb a b = true.
Proof.
  unfold SFltb, SFleb. destruct (SFcompare a b) as [[]|]; congruence.
Qed.

Lemma SFltb_nan_l v : SFltb S754_nan v = false.
Proof. reflexivity. Qed.

(** The maximum of a list, from the left, with NaN propagated. *)
Lemma max_fold_nan l a :
  is_nan_float a = true \/ Exists (fun u => is_nan_float u = true) l ->
  fold_left (fun a v => if is_nan_float v || SFltb a v then v else a) l a
  = S754_nan.
Proof.
  revert a. induction l as [|v l IH]; intros a H; cbn [fold_left].
  - destruct H as [H|H]; [|inversion H].
    destruct a; cbn in H; (reflexivity || discriminate).
  - apply IH. destruct (is_nan_float v) eqn:Hv; cbn [orb].
    + left. exact Hv.
    + destruct H as [H|H].
      * destruct a; cbn in H; try discriminate. rewrite SFltb_nan_l.
        left. reflexivity.
      * inversion H as [? ? Hv'|? ? H']; subst; [congruence|].
        right. exact H'.
Qed.

Lemma min_fold_nan l a :
  is_nan_float a = true \/ Exists (fun u => is_nan_float u = true) l ->
  fold_left (fun a v => if is_nan_float v || SFltb v a then v else a) l a
  = S754_nan.
Proof.
  revert a. induction l as [|v l IH]; intros a H; cbn [fold_left].
  - destruct H as [H|H]; [|inversion H].
    destruct a; cbn in H; (reflexivity || discriminate).
  - apply IH. destruct (is_nan_float v) eqn:Hv; cbn [orb].
    + left. exact Hv.
    + destruct H as [H|H].
      * destruct a; cbn in H; try discriminate.
        replace (SFltb v S754_nan) with false
          by (destruct v as [| | |[] ? ?]; reflexivity).
        left. reflexivity.
      * inversion H as [? ? Hv'|? ? H']; subst; [congruence|].
        right. exact H'.
Qed.

Lemma max_fold_spec l a :
  Forall nonneg l -> nonneg a ->
  let f := fold_left (fun a v => if is_nan_float v || SFltb a v then v else a)
             l a in
  nonneg f /\ SFleb a f = true /\ Forall (fun u => SFleb u f = true) l /\
  (f = a \/ In f l).
Proof.
  intros Hl. revert a. induction Hl as [|v l Hv Hl IH]; intros a Ha;
    cbn [fold_left].
  - repeat split; [exact Ha|apply SFleb_refl, Ha|constructor|left; reflexivity].
  - rewrite (nonneg_not_nan v Hv). cbn [orb].
    destruct (SFltb a v) eqn:Hlt.
    + destruct (IH v Hv) as (Hf & Hvf & Hall & Hin).
      repeat split; try assumption.
      * eapply SFleb_trans; [exact Ha|exact Hv|exact Hf| |exact Hvf].
        apply SFltb_leb, Hlt.
      * constructor; assumption.
      * destruct Hin as [->|Hin]; right; [left; reflexivity|right; exact Hin].
    + destruct (IH a Ha) as (Hf & Haf & Hall & Hin).
      repeat split; try assumption.
      * constructor; [|exact Hall].
        eapply SFleb_trans; [exact Hv|exact Ha|exact Hf| |exact Haf].
        apply SFltb_total; assumption.
      * destruct Hin as [->|Hin]; [left; reflexivity|right; right; exact Hin].
Qed.

Lemma min_fold_spec l a :
  Forall nonneg l -> nonneg a ->
  let f := fold_left (fun a v => if is_nan_float v || SFltb v a then v else a)
             l a in
  nonneg f /\ SFleb f a = true /\ Forall (fun u => SFleb f u = true) l /\
  (f = a \/ In f l).
Proof.
  intros Hl. revert a. induction Hl as [|v l Hv Hl IH]; intros a Ha;
    cbn [fold_left].
  - repeat split; [exact Ha|apply SFleb_refl, Ha|constructor|left; reflexivity].
  - rewrite (nonneg_not_nan v Hv). cbn [orb].
    destruct (SFltb v a) eqn:Hlt.
    + destruct (IH v Hv) as (Hf & Hfv & Hall & Hin).
      repeat split; try assumption.
      * eapply SFleb_trans; [exact Hf|exact Hv|exact Ha|exact Hfv|].
        apply SFltb_leb, Hlt.
      * constructor; assumption.
      * destruct Hin as [->|Hin]; right; [left; reflexivity|right; exact Hin].
    + destruct (IH a Ha) as (Hf & Hfa & Hall & Hin).
      repeat split; try assumption.
      * constructor; [|exact Hall].
        eapply SFleb_trans; [exact Hf|exact Ha|exact Hv|exact Hfa|].
        apply SFltb_total; assumption.
      * destruct Hin as [->|Hin]; [left; reflexivity|right; right; exact Hin].
Qed.

(** The maximum and the minimum of the absolute values of a list that is
    not empty are among them. *)
Lemma max_fold_in l :
  Forall nonneg l -> l <> [] ->
  In (fold_left (fun a v => if is_nan_float v || SFltb a v then v else a)
        l (S754_zero false)) l.
Proof.
  intros Hl Hne.
  destruct (max_fold_spec l (S754_zero false) Hl I) as (Hf & _ & Hall & [Heq|Hin]);
    [|exact Hin].
  destruct l as [|u l]; [congruence|].
  cbv zeta in Hall. rewrite Heq in Hall |- *.
  inversion Hall as [|? ? Hu _]; subst. inversion Hl as [|? ? Hnu _]; subst.
  left. apply SFleb_zero; assumption.
Qed.

Lemma min_fold_in l :
  Forall nonneg l -> l <> [] ->
  In (fold_left (fun a v => if is_nan_float v || SFltb v a then v else a)
        l (S754_infinity false)) l.
Proof.
  intros Hl Hne.
  destruct (min_fold_spec l (S754_infinity false) Hl I)
    as (Hf & _ & Hall & [Heq|Hin]); [|exact Hin].
  destruct l as [|u l]; [congruence|].
  cbv zeta in Hall. rewrite Heq in Hall |- *.
  inversion Hall as [|? ? Hu _]; subst. inversion Hl as [|? ? Hnu _]; subst.
  left. apply SFleb_infinity; assumption.
Qed.

End AbsoluteValues.

Section VectorNormMore.
Context {E : Env}.

Lemma linalg_vector_norm_all_shape fpow a ord k :
  linalg_vector_norm fpow a ord AxNone false = Ok k -> t_shape k = [].
Proof.
  unfold linalg_vector_norm.
  destruct (float_format (t_dtype a)) as [[prec emax]|]; [|discriminate].
  cbn [mbind Outcome_bind].
  destruct (negb _); [discriminate|].
  destruct (_ && _); [discriminate|].
  intros [= <-]. unfold reduce. cbn [t_shape]. apply drop_dims_all.
Qed.

Lemma linalg_vector_norm_all fpow X ord prec emax :
  wf X -> float_format (t_dtype X) = Some (prec, emax) -> t_data X <> [] ->
  linalg_vector_norm fpow X ord AxNone false
  = Ok (mkTensor (t_dtype X) []
          [norm_slice fpow prec emax (classify_ord ord) (t_data X)]).
Proof.
  intros Hwf Hf Hne. unfold linalg_vector_norm. rewrite Hf.
  cbn [mbind Outcome_bind].
  rewrite bool_decide_eq_true_2 by apply NoDup_seq. cbn [negb].
  replace (nelement X =? 0)%nat with false.
  2:{ symmetry. apply Nat.eqb_neq. unfold nelement. rewrite <- Hwf.
      destruct (t_data X); [congruence|discriminate]. }
  cbn [andb]. rewrite (reduce_all _ _ _ Hwf). reflexivity.
Qed.

Lemma abs_values_nonneg (l : list spec_float) :
  Forall (fun u => is_nan_float u = false) (map SFabs l) ->
  Forall nonneg (map SFabs l).
Proof.
  induction l as [|u l IH]; cbn [map]; intros H; [constructor|].
  inversion H as [|? ? Hu Hl]; subst. constructor; [|apply IH, Hl].
  destruct u as [[]|[]| |[] m e]; cbn in *; (exact I || discriminate).
Qed.

(** X6: with [axis=None] and [keepdims=False], [vector_norm] of a
    non-empty floating-point array of any rank hands the array to
    [torch.linalg.vector_norm], which gives for it what it gives for the
    one-dimensional array of all its elements in row-major order, and
    returns the norm in a new array of shape [(1,)].  For [ord=inf]
    ([ord=-inf]) the norm is NaN when an element is NaN, and otherwise
    the greatest (least) of the absolute values of all the elements. *)
Theorem vector_norm_flattens x ord h X prec emax :
  h !! x = Some X -> wf X ->
  float_format (t_dtype X) = Some (prec, emax) -> t_data X <> [] ->
  let d := t_dtype X in
  let A := map SFabs (map (scalar_to_float prec emax) (t_data X)) in
  exists f,
    run (Backend.vector_norm x AxNone false ord None) h
    = (Ok (S (length h)),
       h ++ [mkTensor d [] [SFloat f]; mkTensor d [1%nat] [SFloat f]],
       [mkCall "torch.linalg.vector_norm" [X];
        mkCall "torch.unsqueeze" [mkTensor d [] [SFloat f]]]) /\
    linalg_vector_norm torch_pow X ord AxNone false
    = linalg_vector_norm torch_pow
        (mkTensor d [length (t_data X)] (t_data X)) ord AxNone false /\
    (classify_ord ord = OrdInf \/ classify_ord ord = OrdNegInf ->
     Exists (fun u => is_nan_float u = true) A -> f = S754_nan) /\
    (classify_ord ord = OrdInf ->
     Forall (fun u => is_nan_float u = false) A ->
     In f A /\ Forall (fun u => SFleb u f = true) A) /\
    (classify_ord ord = OrdNegInf ->
     Forall (fun u => is_nan_float u = false) A ->
     In f A /\ Forall (fun u => SFleb f u = true) A).
Proof.
  intros Hx Hwf Hf Hne d A.
  assert (HA : map (fun v => SFabs (scalar_to_float prec emax v)) (t_data X) = A).
  { unfold A. rewrite map_map. reflexivity. }
  assert (HAne : A <> []).
  { unfold A. destruct (t_data X); [congruence|discriminate]. }
  exists (norm_of torch_pow prec emax (classify_ord ord) A).
  split; [|split; [|split; [|split]]].
  - unfold Backend.vector_norm.
    rewrite run_bind, (run_call1 _ _ _ _ _ _ Hx).
    rewrite (linalg_vector_norm_all _ _ _ _ _ Hwf Hf Hne).
    unfold norm_slice. rewrite HA. fold d.
    rewrite run_native_fresh. run_red.
    unfold Backend.shape_of.
    rewrite run_bind,
      (run_bind_ok _ _ _ _ _ _ (run_deref _ _ _ (lookup_fresh _ _))).
    cbn [run mret M_ret t_shape]. run_red.
    unfold Backend.torch_unsqueeze.
    rewrite (run_call1 _ _ _ _ _ _ (lookup_fresh _ _)).
    change (unsqueeze _ 0)
      with (Ok (mkTensor d [1%nat]
                  [SFloat (norm_of torch_pow prec emax (classify_ord ord) A)])).
    rewrite run_native_fresh. run_red.
    rewrite length_app, <- app_assoc. cbn [length app]. rewrite Nat.add_1_r.
    reflexivity.
  - rewrite (linalg_vector_norm_all _ _ _ _ _ Hwf Hf Hne).
    rewrite (linalg_vector_norm_all _
               (mkTensor d [length (t_data X)] (t_data X)) ord prec emax).
    + reflexivity.
    + unfold wf. cbn [t_data t_shape numel fold_right]. lia.
    + exact Hf.
    + exact Hne.
  - intros [Hc|Hc] Hnan; rewrite Hc; cbn [norm_of].
    + apply max_fold_nan. right. exact Hnan.
    + apply min_fold_nan. right. exact Hnan.
  - intros Hc Hfree. rewrite Hc. cbn [norm_of].
    pose proof (abs_values_nonneg _ Hfree) as Hnn.
    change (of_Z prec emax 0) with (S754_zero false).
    split; [apply max_fold_in; assumption|].
    apply (max_fold_spec A (S754_zero false) Hnn I).
  - intros Hc Hfree. rewrite Hc. cbn [norm_of].
    pose proof (abs_values_nonneg _ Hfree) as Hnn.
    split; [apply min_fold_in; assumption|].
    apply (min_fold_spec A (S754_infinity false) Hnn I).
Qed.

(** X7: with [axis=None], [keepdims=False] and a buffer [out],
    [vector_norm] writes the zero-dimensional norm into the buffer but
    returns another object, of shape [(1,)]: the identity of [out] is not
    preserved. *)
Theorem vector_norm_does_not_return_out x ord o h b r h' cs :
  h !! o = Some b ->
  run (Backend.vector_norm x AxNone false ord (Some o)) h = (Ok r, h', cs) ->
  r <> o /\
  exists k,
    h' !! o = Some k /\ t_shape k = [] /\
    h' !! r = Some (mkTensor (t_dtype k) [1%nat] (t_data k)).
Proof.
  intros Ho. pose proof (lookup_lt_Some _ _ _ Ho) as Hlt.
  revert r h' cs.
  cut (wp (Backend.vector_norm x AxNone false ord (Some o)) h
         (fun o' h' _ => forall r, o' = Ok r ->
            r <> o /\
            exists k,
              h' !! o = Some k /\ t_shape k = [] /\
              h' !! r = Some (mkTensor (t_dtype k) [1%nat] (t_data k)))).
  { intros Hw r h' cs Hrun. exact (wp_run _ _ _ _ _ _ Hw Hrun r eq_refl). }
  unfold Backend.vector_norm.
  repeat wp_step.
  all: try (intros ? [=]).
  all: heap_simpl; subst.
  all: match goal with
       | H : linalg_vector_norm _ _ _ _ _ = Ok _ |- _ =>
           pose proof (linalg_vector_norm_all_shape _ _ _ _ H) as Hsh
       end.
  all: try congruence.
  rewrite (unsqueeze_zero_dim _ Hsh) in *.
  repeat match goal with H : Ok _ = Ok _ |- _ => injection H as <- end.
  split; [heap_len|].
  eexists. split; [heap_goal; reflexivity|]. split; [assumption|].
  heap_goal. reflexivity.
Qed.

End VectorNormMore.

(** [vector_norm] of [[3, 4]]: the kernel returns a zero-dimensional
    array, the backend one of shape [(1,)]. *)
Lemma vector_norm_never_zero_dimensional_witness :
  exists a k v,
    [Example.vec [3; 4]] !! 0%nat = Some a /\
    linalg_vector_norm (@torch_pow Example.env) a (PInt 2) AxNone false = Ok k /\
    (run (Backend.vector_norm (E := Example.env) 0%nat AxNone false (PInt 2) None)
       [Example.vec [3; 4]]).1.2 !! 2%nat = Some v /\
    t_dtype v = t_dtype k /\ t_data v = t_data k /\
    t_shape v = (if (rank k =? 0)%nat then [1%nat] else t_shape k) /\
    t_shape v <> [].
Proof.
  apply (vector_norm_never_zero_dimensional (E := Example.env)
           0%nat AxNone false (PInt 2) None [Example.vec [3; 4]] 2%nat _
           (run (Backend.vector_norm (E := Example.env) 0%nat AxNone false
                   (PInt 2) None) [Example.vec [3; 4]]).2).
  vm_compute. reflexivity.
Defined.

(** The norm of the matrix [[0, 3], [4, 0]] with [ord=2] is that of
    [[0, 3, 4, 0]]: [5], in an array of shape [(1,)]; with [ord=inf] it
    is [4]. *)
Lemma vector_norm_flattens_witness :
  (exists f,
     run (Backend.vector_norm (E := Example.env) 0%nat AxNone false (PInt 2) None)
         [Example.mat 2 2 [0; 3; 4; 0]]
     = (Ok 2%nat,
        [Example.mat 2 2 [0; 3; 4; 0]; mkTensor float32 [] [SFloat f];
         mkTensor float32 [1%nat] [SFloat f]],
        [mkCall "torch.linalg.vector_norm" [Example.mat 2 2 [0; 3; 4; 0]];
         mkCall "torch.unsqueeze" [mkTensor float32 [] [SFloat f]]]) /\
     linalg_vector_norm (@torch_pow Example.env)
       (Example.mat 2 2 [0; 3; 4; 0]) (PInt 2) AxNone false
     = linalg_vector_norm (@torch_pow Example.env)
         (Example.vec [0; 3; 4; 0]) (PInt 2) AxNone false) /\
  (run (Backend.vector_norm (E := Example.env) 0%nat AxNone false (PInt 2) None)
       [Example.mat 2 2 [0; 3; 4; 0]]).1.2 !! 2%nat
  = Some (of_ints float32 [1%nat] [5]) /\
  (run (Backend.vector_norm (E := Example.env) 0%nat AxNone false
          (PFloat (S754_infinity false)) None)
       [Example.mat 2 2 [0; 3; 4; 0]]).1.2 !! 2%nat
  = Some (of_ints float32 [1%nat] [4]).
Proof.
  split; [|split; vm_compute; reflexivity].
  destruct (vector_norm_flattens (E := Example.env) 0%nat (PInt 2)
              [Example.mat 2 2 [0; 3; 4; 0]] (Example.mat 2 2 [0; 3; 4; 0])
              24 128 eq_refl eq_refl eq_refl) as (f & Hrun & Hflat & _).
  - discriminate.
  - exists f. split; [exact Hrun | exact Hflat].
Defined.

(** [vector_norm] of [[3, 4]] with a zero-dimensional buffer: the buffer
    holds [5], and the object returned is another one, of shape [(1,)]. *)
Lemma vector_norm_does_not_return_out_witness :
  2%nat <> 1%nat /\
  exists k,
    (run (Backend.vector_norm (E := Example.env) 0%nat AxNone false (PInt 2)
            (Some 1%nat))
       [Example.vec [3; 4]; of_ints float32 [] [0]]).1.2 !! 1%nat = Some k /\
    t_shape k = [] /\
    (run (Backend.vector_norm (E := Example.env) 0%nat AxNone false (PInt 2)
            (Some 1%nat))
       [Example.vec [3; 4]; of_ints float32 [] [0]]).1.2 !! 2%nat
    = Some (mkTensor (t_dtype k) [1%nat] (t_data k)).
Proof.
  apply (vector_norm_does_not_return_out (E := Example.env) 0%nat (PInt 2)
           1%nat [Example.vec [3; 4]; of_ints float32 [] [0]]
           (of_ints float32 [] [0]) 2%nat _
           (run (Backend.vector_norm (E := Example.env) 0%nat AxNone false
                   (PInt 2) (Some 1%nat))
              [Example.vec [3; 4]; of_ints float32 [] [0]]).2 eq_refl).
  vm_compute. reflexivity.
Defined.

(** ** The [out] argument of [cross] *)

Section CrossFacts.
Context {E : Env}.

(** X8: whatever its options, [cross] does not return the object passed
    as [out]; and unless [axis=0], the buffer keeps the value it had
    ([out] is not handed to the native call). *)
Theorem cross_never_returns_out x1 x2 axisa axisb axisc axis o h b r h' cs :
  h !! o = Some b ->
  run (Backend.cross x1 x2 axisa axisb axisc axis (Some o)) h = (Ok r, h', cs) ->
  r <> o /\ (axis <> Some 0 -> h' !! o = Some b).
Proof.
  intros Ho Hrun.
  pose proof (lookup_lt_Some _ _ _ Ho) as Hlt.
  revert r h' cs Hrun.
  cut (wp (Backend.cross x1 x2 axisa axisb axisc axis (Some o)) h
         (fun out h' _ => forall r, out = Ok r ->
            r <> o /\ (axis <> Some 0 -> h' !! o = Some b))).
  { intros Hw r h' cs Hrun. exact (wp_run _ _ _ _ _ _ Hw Hrun r eq_refl). }
  unfold Backend.cross.
  repeat wp_step.
  all: try (intros ? [=]).
  - split; [heap_len|]. intros _. heap_old.
  - split; [heap_len|]. intros Hax. exfalso. apply Hax.
    destruct axis as [a'|]; [|discriminate].
    apply negb_false_iff, Z.eqb_eq in Heqb0. congruence.
Qed.
End CrossFacts.

(** The cross product of [[1, 0, 0]] and [[0, 1, 0]] with a buffer: the
    result [[0, 0, 1]] is a new object and the buffer keeps its zeros. *)
Lemma cross_never_returns_out_witness :
  5%nat <> 2%nat /\
  (@None Z <> Some 0 ->
   (run (Backend.cross (E := Example.env_products) 0%nat 1%nat (-1) (-1) (-1)
           None (Some 2%nat))
      [Example.vec [1; 0; 0]; Example.vec [0; 1; 0]; Example.vec [0; 0; 0]]).1.2
     !! 2%nat = Some (Example.vec [0; 0; 0])).
Proof.
  apply (cross_never_returns_out (E := Example.env_products)
           0%nat 1%nat (-1) (-1) (-1) None 2%nat
           [Example.vec [1; 0; 0]; Example.vec [0; 1; 0]; Example.vec [0; 0; 0]]
           (Example.vec [0; 0; 0]) 5%nat _
           (run (Backend.cross (E := Example.env_products) 0%nat 1%nat
                   (-1) (-1) (-1) None (Some 2%nat))
              [Example.vec [1; 0; 0]; Example.vec [0; 1; 0];
               Example.vec [0; 0; 0]]).2 eq_refl).
  vm_compute. reflexivity.
Defined.

(** ** Transposed operands *)

Section MatrixTranspose.

Lemma normalize_dim_neg r :
  (2 <= r)%nat ->
  normalize_dim r (-1) = Ok (r - 1)%nat /\
  normalize_dim r (-2) = Ok (r - 2)%nat.
Proof.
  intros Hr. unfold normalize_dim.
  replace (Z.max (Z.of_nat r) 1) with (Z.of_nat r) by lia.
  split.
  - destruct (Z.leb_spec (- Z.of_nat r) (-1)); [|lia].
    destruct (Z.ltb_spec (-1) (Z.of_nat r)); [|lia].
    cbn. f_equal. lia.
  - destruct (Z.leb_spec (- Z.of_nat r) (-2)); [|lia].
    destruct (Z.ltb_spec (-2) (Z.of_nat r)); [|lia].
    cbn. f_equal. lia.
Qed.

Lemma normalize_dim_neg2_low r : (r < 2)%nat -> normalize_dim r (-2) = Raise IndexError.
Proof.
  intros Hr. unfold normalize_dim.
  destruct (Z.leb_spec (- Z.max (Z.of_nat r) 1) (-2)); [lia|]. reflexivity.
Qed.

Lemma in_range_swap_at_2 i j sh idx :
  in_range sh idx -> in_range (swap_at i j sh) (swap_at i j idx).
Proof.
  intros Hr. apply in_range_swap_at. rewrite !swap_at_involutive. exact Hr.
Qed.

Lemma swapaxes_last2 X :
  (2 <= rank X)%nat ->
  swapaxes X (-1) (-2)
  = Ok (tabulate (t_dtype X) (swap_at (rank X - 1) (rank X - 2) (t_shape X))
          (fun idx => get X (swap_at (rank X - 1) (rank X - 2) idx))).
Proof.
  intros Hr. unfold swapaxes, transpose.
  destruct (normalize_dim_neg _ Hr) as [-> ->]. reflexivity.
Qed.

(** X9: [matrix_transpose] refuses an operand of rank below two
    ([IndexError]); on any other it returns a new array in which the last
    two indices are exchanged, it does not use [out], and applied twice it
    gives the operand back. *)
Theorem matrix_transpose_round_trip x out h X :
  h !! x = Some X -> wf X ->
  ((rank X < 2)%nat ->
   run (Backend.matrix_transpose x out) h
   = (Raise IndexError, h, [mkCall "torch.swapaxes" [X]])) /\
  ((2 <= rank X)%nat ->
   exists Y,
     run (Backend.matrix_transpose x out) h
     = (Ok (length h), h ++ [Y], [mkCall "torch.swapaxes" [X]]) /\
     (forall b i j,
        in_range (t_shape X) (b ++ [i; j]) ->
        in_range (t_shape Y) (b ++ [j; i]) /\
        get Y (b ++ [j; i]) = get X (b ++ [i; j])) /\
     forall out',
       run (Backend.matrix_transpose (length h) out') (h ++ [Y])
       = (Ok (S (length h)), h ++ [Y; X], [mkCall "torch.swapaxes" [Y]])).
Proof.
  intros Hx Hwf. split.
  - intros Hr. unfold Backend.matrix_transpose.
    rewrite (run_call1 _ _ _ _ _ _ Hx).
    unfold swapaxes, transpose.
    destruct (normalize_dim (rank X) (-1)) as [i|e] eqn:Hi.
    + cbn [mbind Outcome_bind]. rewrite (normalize_dim_neg2_low _ Hr).
      reflexivity.
    + exfalso. unfold normalize_dim in Hi.
      destruct (Z.leb_spec (- Z.max (Z.of_nat (rank X)) 1) (-1)); [|lia].
      destruct (Z.ltb_spec (-1) (Z.max (Z.of_nat (rank X)) 1)); [|lia].
      discriminate.
  - intros Hr.
    pose proof (swapaxes_last2 X Hr) as HY.
    set (Y := tabulate _ _ _) in HY. exists Y.
    assert (HrY : rank Y = rank X).
    { unfold Y, rank. cbn [t_shape tabulate]. apply length_swap_at. }
    split; [|split].
    + unfold Backend.matrix_transpose.
      rewrite (run_call1 _ _ _ _ _ _ Hx), HY. reflexivity.
    + intros b i j Hin.
      pose proof (in_range_length _ _ Hin) as Hlen.
      rewrite length_app in Hlen. cbn [length] in Hlen. fold (rank X) in Hlen.
      assert (Hin' : in_range (t_shape Y) (b ++ [j; i])).
      { unfold Y. cbn [t_shape tabulate].
        rewrite <- (swap_at_last2 b i j). rewrite Hlen.
        apply in_range_swap_at_2. exact Hin. }
      split; [exact Hin'|].
      unfold Y in Hin' |- *. rewrite get_tabulate by exact Hin'.
      rewrite <- Hlen, swap_at_last2. reflexivity.
    + intros out'. unfold Backend.matrix_transpose.
      rewrite (run_call1 _ _ _ _ _ _ (lookup_fresh _ _)).
      assert (HX : swapaxes Y (-1) (-2) = Ok X).
      { apply (transpose_involutive X (-1) (-2) Y Hwf HY). }
      rewrite HX, run_native_fresh. rewrite length_app, <- app_assoc.
      cbn [length app]. rewrite Nat.add_1_r. reflexivity.
Qed.

End MatrixTranspose.

Section TransposeFlags.
Context {E : Env}.

Lemma t_rejects_batches a : (3 <= rank a)%nat -> Torch.t a = Raise RuntimeError.
Proof.
  intros Hr. unfold Torch.t.
  destruct (Nat.leb_spec (rank a) 1); [lia|].
  destruct (Nat.eqb_spec (rank a) 2); [lia|]. reflexivity.
Qed.

(** X10: the flags [transpose_a] and [transpose_b] of [matmul] and
    [adjoint] of [inv] transpose with [torch.t]: an operand of rank three
    or more is refused ([RuntimeError]) before the product or the inverse
    is computed. *)
Theorem transpose_flags_reject_batches x h a :
  h !! x = Some a -> (3 <= rank a)%nat ->
  (forall x2 transpose_b out,
     run (Backend.matmul x x2 true transpose_b out) h
     = (Raise RuntimeError, h, [mkCall "torch.t" [a]])) /\
  (forall x1 out,
     run (Backend.matmul x1 x false true out) h
     = (Raise RuntimeError, h, [mkCall "torch.t" [a]])) /\
  (forall out,
     run (Backend.inv x true out) h
     = (Raise RuntimeError, h, [mkCall "torch.t" [a]])).
Proof.
  intros Hx Hr. pose proof (t_rejects_batches a Hr) as Ht.
  assert (Hcall : run (Backend.torch_t x) h
                  = (Raise RuntimeError, h, [mkCall "torch.t" [a]])).
  { unfold Backend.torch_t. rewrite (run_call1 _ _ _ _ _ _ Hx), Ht. reflexivity. }
  repeat split.
  - intros. unfold Backend.matmul. apply run_bind_raise. exact Hcall.
  - intros. unfold Backend.matmul.
    rewrite (run_bind_ok _ _ _ _ _ _ (run_ret x1 h)).
    rewrite (run_bind_raise _ _ _ _ _ _ Hcall). reflexivity.
  - intros. unfold Backend.inv. rewrite inv_test_is_false. cbn [negb].
    apply run_bind_raise. exact Hcall.
Qed.

End TransposeFlags.

Section MatmulTransposed.
Context {E : Env}.

Lemma SFmul_comm prec emax x y : SFmul prec emax x y = SFmul prec emax y x.
Proof.
  destruct x as [sx|sx| |sx mx ex], y as [sy|sy| |sy my ey]; cbn;
    rewrite ?(xorb_comm sy sx); try reflexivity.
  rewrite (Pos.mul_comm my mx), (Z.add_comm ey ex). reflexivity.
Qed.

Lemma mul_comm d x y : mul d x y = mul d y x.
Proof.
  unfold mul, lift2.
  destruct (float_format d) as [[prec emax]|].
  - rewrite SFmul_comm. reflexivity.
  - destruct (int_format d) as [[w sg]|].
    + rewrite Z.mul_comm. reflexivity.
    + rewrite andb_comm. reflexivity.
Qed.

Lemma in_range_2 m n idx :
  in_range [m; n] idx -> exists i j, idx = [i; j] /\ (i < m)%nat /\ (j < n)%nat.
Proof.
  destruct idx as [|i [|j [|? ?]]]; cbn; try tauto.
  intros (Hi & Hj & _). eauto.
Qed.

Lemma get_astype p A idx :
  wf A -> in_range (t_shape A) idx ->
  get (astype p A) idx = cast_scalar p (get A idx).
Proof.
  intros Hwf Hr. unfold get, astype. cbn [t_shape t_data t_dtype].
  pose proof (offset_lt _ _ Hr) as Hlt. rewrite <- Hwf in Hlt.
  rewrite (nth_indep _ (zero p) (cast_scalar p (zero (t_dtype A))))
    by (rewrite length_map; exact Hlt).
  apply map_nth.
Qed.

(** The product of two matrices. *)
Lemma matmul_matrices a b d m k n :
  t_dtype a = d -> t_dtype b = d ->
  t_shape a = [m; k] -> t_shape b = [k; n] ->
  Torch.matmul a b
  = Ok (tabulate d [m; n]
          (fun idx =>
             sum_scalars d
               (map (fun l => mul d (get a [nth 0 idx 0%nat; l])
                                    (get b [l; nth 1 idx 0%nat]))
                    (seq 0 k)))).
Proof.
  intros Hda Hdb Hsa Hsb. unfold Torch.matmul, rank.
  rewrite Hda, Hdb, Hsa, Hsb.
  rewrite bool_decide_eq_true_2 by reflexivity.
  cbn [negb length Nat.eqb orb Nat.sub take nth].
  rewrite Nat.eqb_refl. cbn [negb].
  change (broadcast_shapes [] []) with (Ok (@nil nat)).
  cbn [mbind Outcome_bind app length take nth].
  unfold tabulate. cbn [t_data]. do 2 f_equal.
  apply map_ext. intros idx. f_equal. apply map_ext. intros l.
  unfold bcast_index. cbn [zip_with app drop length Nat.sub].
  unfold get. cbn [t_shape t_data t_dtype]. rewrite Hda, Hdb, Hsa, Hsb. reflexivity.
Qed.

Lemma t_matrix A k m :
  t_shape A = [k; m] ->
  Torch.t A = Ok (tabulate (t_dtype A) [m; k]
                    (fun idx => get A (swap_at 0 1 idx))).
Proof.
  intros Hs. unfold Torch.t, transpose, rank. rewrite !Hs. reflexivity.
Qed.

Lemma get_astype_tabulate p d sh f idx :
  in_range sh idx ->
  get (astype p (tabulate d sh f)) idx = cast_scalar p (f idx).
Proof.
  intros Hr. rewrite get_astype; [|apply wf_tabulate|exact Hr].
  rewrite get_tabulate by exact Hr. reflexivity.
Qed.

(** X11: for matrices [A] of shape [(k, m)] and [B] of shape [(n, k)],
    [matmul(A, B, transpose_a=True, transpose_b=True)] is the transpose of
    [matmul(B, A)] (the native product is not defined on booleans). *)
Theorem matmul_of_transposes xa xb h A B k m n :
  h !! xa = Some A -> h !! xb = Some B -> wf A -> wf B ->
  t_shape A = [k; m] -> t_shape B = [n; k] ->
  promote_types (t_dtype A) (t_dtype B) = promote_types (t_dtype B) (t_dtype A) ->
  promote_types (t_dtype A) (t_dtype B) <> bool_ ->
  exists r1 h1 c1 r2 h2 c2 P Q,
    run (Backend.matmul xa xb true true None) h = (Ok r1, h1, c1) /\
    h1 !! r1 = Some P /\
    run (Backend.matmul xb xa false false None) h = (Ok r2, h2, c2) /\
    h2 !! r2 = Some Q /\
    t_shape P = [m; n] /\ t_shape Q = [n; m] /\
    Torch.t Q = Ok P.
Proof.
  intros Ha Hb HwA HwB HsA HsB Hsym Hnb.
  pose proof (lookup_lt_Some _ _ _ Ha) as Hla.
  pose proof (lookup_lt_Some _ _ _ Hb) as Hlb.
  set (p := promote_types (t_dtype A) (t_dtype B)) in *.
  pose proof (t_matrix A k m HsA) as HtA.
  pose proof (t_matrix B n k HsB) as HtB.
  set (At := tabulate _ _ _) in HtA. set (Bt := tabulate _ _ _) in HtB.
  pose proof (matmul_matrices (astype p At) (astype p Bt) p m k n
                eq_refl eq_refl eq_refl eq_refl) as HP.
  pose proof (matmul_matrices (astype p B) (astype p A) p n k m
                eq_refl eq_refl HsB HsA) as HQ.
  set (P := tabulate _ _ _) in HP. set (Q := tabulate _ _ _) in HQ.
  assert (HtQ : Torch.t Q = Ok P).
  { rewrite (t_matrix Q n m eq_refl). f_equal.
    unfold P, tabulate. cbn [t_dtype]. f_equal.
    apply map_ext_in. intros idx Hin.
    pose proof (indices_in_range [m; n]) as Hall.
    rewrite List.Forall_forall in Hall. specialize (Hall _ Hin).
    destruct (in_range_2 _ _ _ Hall) as (i & j & -> & Hi & Hj).
    change (swap_at 0 1 [i; j]) with [j; i].
    unfold Q. rewrite get_tabulate by (cbn; lia). cbn [nth].
    f_equal. apply map_ext_in. intros l Hl. apply in_seq in Hl.
    rewrite mul_comm. f_equal.
    - unfold At. rewrite get_astype_tabulate by (cbn; lia).
      change (swap_at 0 1 [i; l]) with [l; i].
      rewrite get_astype; [reflexivity|exact HwA|rewrite HsA; cbn; lia].
    - unfold Bt. rewrite get_astype_tabulate by (cbn; lia).
      change (swap_at 0 1 [l; j]) with [j; l].
      rewrite get_astype; [reflexivity|exact HwB|rewrite HsB; cbn; lia]. }
  assert (Hp' : promote_types (t_dtype At) (t_dtype Bt) = p) by reflexivity.
  assert (Hp'' : promote_types (t_dtype B) (t_dtype A) = p) by (symmetry; exact Hsym).
  assert (HsP : t_shape P = [m; n]) by reflexivity.
  assert (HsQ : t_shape Q = [n; m]) by reflexivity.
  clearbody P Q At Bt.
  assert (H1 : wp (Backend.matmul xa xb true true None) h
                 (fun o h' _ => exists r, o = Ok r /\ h' !! r = Some P)).
  { unfold Backend.matmul. wp_go; rewrite ?Hp' in *;
      try (eexists; split; [reflexivity|]; heap_goal; congruence);
      congruence. }
  assert (H2 : wp (Backend.matmul xb xa false false None) h
                 (fun o h' _ => exists r, o = Ok r /\ h' !! r = Some Q)).
  { unfold Backend.matmul. wp_go; rewrite ?Hp'' in *;
      try (eexists; split; [reflexivity|]; heap_goal; congruence);
      congruence. }
  unfold wp in H1, H2.
  destruct (run (Backend.matmul xa xb true true None) h) as [[o1 h1] c1].
  destruct (run (Backend.matmul xb xa false false None) h) as [[o2 h2] c2].
  destruct H1 as (r1 & -> & Hr1). destruct H2 as (r2 & -> & Hr2).
  exists r1, h1, c1, r2, h2, c2, P, Q.
  repeat split; assumption.
Qed.

End MatmulTransposed.

(** The transpose of [[1, 2, 3], [4, 5, 6]], and the transpose of that. *)
Lemma matrix_transpose_round_trip_witness :
  exists Y,
    run (Backend.matrix_transpose 0%nat None) [Example.mat 2 3 [1; 2; 3; 4; 5; 6]]
    = (Ok 1%nat, [Example.mat 2 3 [1; 2; 3; 4; 5; 6]] ++ [Y],
       [mkCall "torch.swapaxes" [Example.mat 2 3 [1; 2; 3; 4; 5; 6]]]) /\
    (forall b i j,
       in_range [2; 3]%nat (b ++ [i; j]) ->
       in_range (t_shape Y) (b ++ [j; i]) /\
       get Y (b ++ [j; i]) = get (Example.mat 2 3 [1; 2; 3; 4; 5; 6]) (b ++ [i; j])) /\
    forall out',
      run (Backend.matrix_transpose 1%nat out')
          ([Example.mat 2 3 [1; 2; 3; 4; 5; 6]] ++ [Y])
      = (Ok 2%nat, [Example.mat 2 3 [1; 2; 3; 4; 5; 6]] ++ [Y; Example.mat 2 3 [1; 2; 3; 4; 5; 6]],
         [mkCall "torch.swapaxes" [Y]]).
Proof.
  apply (proj2 (matrix_transpose_round_trip 0%nat None
                  [Example.mat 2 3 [1; 2; 3; 4; 5; 6]]
                  (Example.mat 2 3 [1; 2; 3; 4; 5; 6]) eq_refl eq_refl)).
  cbn. lia.
Defined.

(** A stack of one 1x1 matrix is refused by the transposing flags. *)
Lemma transpose_flags_reject_batches_witness :
  run (Backend.inv (E := Example.env) 0%nat true None)
      [mkTensor float32 [1; 1; 1]%nat [Example.f32 2]]
  = (Raise RuntimeError, [mkTensor float32 [1; 1; 1]%nat [Example.f32 2]],
     [mkCall "torch.t" [mkTensor float32 [1; 1; 1]%nat [Example.f32 2]]]).
Proof.
  apply (transpose_flags_reject_batches (E := Example.env) 0%nat
           [mkTensor float32 [1; 1; 1]%nat [Example.f32 2]]
           (mkTensor float32 [1; 1; 1]%nat [Example.f32 2]) eq_refl).
  cbn. lia.
Defined.

(** [A = [[1, 2, 3], [4, 5, 6]]] and [B = [[1, 1]]]. *)
Lemma matmul_of_transposes_witness :
  exists r1 h1 c1 r2 h2 c2 P Q,
    run (Backend.matmul (E := Example.env) 0%nat 1%nat true true None)
        [Example.mat 2 3 [1; 2; 3; 4; 5; 6]; Example.mat 1 2 [1; 1]]
    = (Ok r1, h1, c1) /\
    h1 !! r1 = Some P /\
    run (Backend.matmul (E := Example.env) 1%nat 0%nat false false None)
        [Example.mat 2 3 [1; 2; 3; 4; 5; 6]; Example.mat 1 2 [1; 1]]
    = (Ok r2, h2, c2) /\
    h2 !! r2 = Some Q /\
    t_shape P = [3; 1]%nat /\ t_shape Q = [1; 3]%nat /\
    Torch.t Q = Ok P.
Proof.
  apply (matmul_of_transposes (E := Example.env) 0%nat 1%nat
           [Example.mat 2 3 [1; 2; 3; 4; 5; 6]; Example.mat 1 2 [1; 1]]
           (Example.mat 2 3 [1; 2; 3; 4; 5; 6]) (Example.mat 1 2 [1; 1])
           2 3 1 eq_refl eq_refl eq_refl eq_refl eq_refl eq_refl eq_refl).
  discriminate.
Defined.

(** ** The branches of [solve] *)

Section SolveFacts.
Context {E : Env}.

(** X12: [x2.shape[-1]] on a zero-dimensional [x2], and [x1.shape[-1]]
    on a zero-dimensional [x1] beside a one-dimensional [x2], raise
    [IndexError]: [solve] fails after the promotion and before any call
    into the native library. *)
Theorem solve_zero_dimensional_operand x1 x2 out h a b :
  h !! x1 = Some a -> h !! x2 = Some b ->
  t_shape b = [] \/ (length (t_shape b) = 1%nat /\ t_shape a = []) ->
  run (Backend.solve x1 x2 out) h
  = (Raise IndexError,
     h ++ [astype (promote_types (t_dtype a) (t_dtype b)) a;
           astype (promote_types (t_dtype a) (t_dtype b)) b], []).
Proof.
  intros H1 H2 Hsh. unfold Backend.solve.
  rewrite run_bind, (run_promote_types_of_inputs _ _ _ _ _ H1 H2). run_red.
  unfold Backend.shape_of.
  rewrite run_bind, (run_bind_ok _ _ _ _ _ _ (run_deref _ _ _ (lookup_fresh_fst _ _ _))).
  cbn [run mret M_ret]. run_red.
  rewrite run_bind, (run_bind_ok _ _ _ _ _ _ (run_deref _ _ _ (lookup_fresh_snd _ _ _))).
  cbn [run mret M_ret t_shape astype]. run_red.
  destruct Hsh as [Hb|[Hb Ha]].
  - rewrite Hb. reflexivity.
  - rewrite Hb, Ha. destruct (t_shape b) as [|n [|m l]]; try discriminate.
    reflexivity.
Qed.

End SolveFacts.

Section SolveVector.
Context {E : Env}.

Lemma squeeze_last_ok x : exists v, squeeze x (-1) = Ok v.
Proof.
  unfold squeeze, normalize_dim.
  destruct (Z.leb_spec (- Z.max (Z.of_nat (rank x)) 1) (-1)); [|lia].
  destruct (Z.ltb_spec (-1) (Z.max (Z.of_nat (rank x)) 1)); [|lia].
  cbn [andb mbind Outcome_bind].
  destruct (t_shape x !! _) as [[|[|k]]|]; eauto.
Qed.

(** X13: a one-dimensional [x2] whose length is the last dimension of a
    non-empty [x1] is handed to the kernel as a column, beside the
    promoted [x1], and the last axis of the solution is squeezed; an error
    of the kernel is the error of [solve]. *)
Theorem solve_vector_rhs x1 x2 out h a b n :
  h !! x1 = Some a -> h !! x2 = Some b ->
  t_shape b = [n] -> py_index (t_shape a) (-1) = Ok n ->
  numel (t_shape a) <> 0%nat -> n <> 0%nat ->
  let p := promote_types (t_dtype a) (t_dtype b) in
  let col := mkTensor p [n; 1%nat] (t_data (astype p b)) in
  (forall res,
     torch_linalg_solve (astype p a) col = Ok res ->
     exists v,
       squeeze res (-1) = Ok v /\
       run (Backend.solve x1 x2 out) h
       = (Ok (4 + length h)%nat,
          h ++ [astype p a; astype p b; col; res; v],
          [mkCall "torch.unsqueeze" [astype p b];
           mkCall "torch.linalg.solve" [astype p a; col];
           mkCall "torch.squeeze" [res]])) /\
  (forall e,
     torch_linalg_solve (astype p a) col = Raise e ->
     run (Backend.solve x1 x2 out) h
     = (Raise e, h ++ [astype p a; astype p b; col],
        [mkCall "torch.unsqueeze" [astype p b];
         mkCall "torch.linalg.solve" [astype p a; col]])).
Proof.
  intros H1 H2 Hb Ha Hna Hn p col.
  assert (Hcol : unsqueeze (astype p b) 1 = Ok col).
  { unfold unsqueeze, rank. cbn [t_shape astype t_dtype t_data]. rewrite Hb.
    reflexivity. }
  assert (Hne : (nelement (astype p a) =? 0)%nat || (nelement col =? 0)%nat = false).
  { apply orb_false_iff. split; apply Nat.eqb_neq; unfold nelement.
    - exact Hna.
    - unfold col. cbn [t_shape numel fold_right]. lia. }
  assert (Ha' : py_index (t_shape (astype p a)) (-1) = Ok n) by exact Ha.
  assert (Hb' : py_index (t_shape (astype p b)) (-1) = Ok n).
  { cbn [t_shape astype]. rewrite Hb. reflexivity. }
  assert (Hl : (length (t_shape (astype p b)) <=? 1)%nat = true).
  { cbn [t_shape astype]. rewrite Hb. reflexivity. }
  pose proof (Nat.eqb_refl n) as Hnn.
  split.
  - intros res Hres. destruct (squeeze_last_ok res) as [v Hv].
    exists v. split; [exact Hv|].
    apply wp_eq. unfold Backend.solve.
    apply wp_bind, wp_promote. rewrite H1, H2. fold p. clearbody col p.
    wp_go.
    rewrite <- !app_assoc, !length_app. cbn [length app].
    match goal with
    | |- (Ok ?n1, _, _) = (Ok ?n2, _, _) => replace n1 with n2 by lia
    end.
    reflexivity.
  - intros e He.
    apply wp_eq. unfold Backend.solve.
    apply wp_bind, wp_promote. rewrite H1, H2. fold p. clearbody col p.
    wp_go.
    rewrite <- !app_assoc. reflexivity.
Qed.
End SolveVector.

Section SolveEmpty.
Context {E : Env}.

Lemma not_called_unsqueeze cs :
  Forall (fun c => call_fn c = "torch.unsqueeze"%string) cs ->
  ~ In "torch.linalg.solve"%string (called cs).
Proof.
  intros Hall Hin. unfold called in Hin. apply in_map_iff in Hin.
  destruct Hin as (c & Hc & Hin).
  rewrite List.Forall_forall in Hall. specialize (Hall _ Hin).
  rewrite Hall in Hc. discriminate.
Qed.

Ltac not_called :=
  let Hin := fresh "Hin" in
  intros Hin; unfold called in Hin; rewrite ?map_app in Hin;
  cbn [map call_fn] in Hin; rewrite ?in_app_iff in Hin; cbn [In] in Hin;
  repeat match goal with
         | H : Forall (fun c => call_fn c = "torch.unsqueeze"%string) _ |- _ =>
             apply not_called_unsqueeze in H; unfold called in H
         end;
  intuition (try discriminate).

(** X14: when an operand has no element, [solve] does not call
    [torch.linalg.solve]; what it returns is an empty array of dtype
    [float32], whatever the dtypes of the operands. *)
Theorem solve_empty_operand x1 x2 out h a b o h' cs :
  h !! x1 = Some a -> h !! x2 = Some b ->
  numel (t_shape a) = 0%nat \/ numel (t_shape b) = 0%nat ->
  run (Backend.solve x1 x2 out) h = (o, h', cs) ->
  ~ In "torch.linalg.solve"%string (called cs) /\
  forall r, o = Ok r ->
    exists v, h' !! r = Some v /\ t_dtype v = float32 /\ t_data v = [].
Proof.
  intros H1 H2 Hempty. revert o h' cs.
  cut (wp (Backend.solve x1 x2 out) h
         (fun o h' cs =>
            ~ In "torch.linalg.solve"%string (called cs) /\
            forall r, o = Ok r ->
              exists v, h' !! r = Some v /\ t_dtype v = float32 /\ t_data v = [])).
  { intros Hw o h' cs Hrun. exact (wp_run _ _ _ _ _ _ Hw Hrun). }
  unfold Backend.solve.
  apply wp_bind, wp_promote. rewrite H1, H2.
  set (p := promote_types _ _).
  wp_go.
  all: try (apply wp_unsqueeze_front; intros; wp_go).
  all: try match goal with
           | H : unsqueeze (astype _ _) 1 = Ok _ |- _ =>
               pose proof (unsqueeze_numel _ _ _ H) as Hnum
           end.
  all: try match goal with
           | H : _ || _ = false |- _ =>
               exfalso; apply orb_false_iff in H; destruct H as [Ha Hb];
               apply Nat.eqb_neq in Ha, Hb; unfold nelement in Ha, Hb;
               cbn [t_shape astype] in *; destruct Hempty; congruence
           end.
  all: split; [not_called|].
  all: try (intros ? [=]).
  all: subst; eexists; (split; [heap_goal; reflexivity|]).
  all: repeat match goal with
              | H : reshape _ _ = Ok _ |- _ => apply reshape_data in H; destruct H
              | H : squeeze _ _ = Ok _ |- _ => apply squeeze_data in H; destruct H
              end.
  all: cbn [t_dtype t_data] in *; split; congruence.
Qed.

End SolveEmpty.

(** [solve] with a zero-dimensional right-hand side. *)
Lemma solve_zero_dimensional_operand_witness :
  run (Backend.solve (E := Example.env_products) 0%nat 1%nat None)
      [Example.mat 1 1 [2]; of_ints float32 [] [4]]
  = (Raise IndexError,
     [Example.mat 1 1 [2]; of_ints float32 [] [4];
      Example.mat 1 1 [2]; of_ints float32 [] [4]], []).
Proof.
  apply (solve_zero_dimensional_operand (E := Example.env_products)
           0%nat 1%nat None [Example.mat 1 1 [2]; of_ints float32 [] [4]]
           (Example.mat 1 1 [2]) (of_ints float32 [] [4]) eq_refl eq_refl).
  left. reflexivity.
Defined.

(** The system [2 x = 4] with the right-hand side given as the vector
    [[4]]: the solution is the vector [[2]]. *)
Lemma solve_vector_rhs_witness :
  exists v,
    squeeze (Example.mat 1 1 [2]) (-1) = Ok v /\
    run (Backend.solve (E := Example.env_products) 0%nat 1%nat None)
        [Example.mat 1 1 [2]; Example.vec [4]]
    = (Ok 6%nat,
       [Example.mat 1 1 [2]; Example.vec [4];
        astype float32 (Example.mat 1 1 [2]); astype float32 (Example.vec [4]);
        mkTensor float32 [1; 1]%nat (t_data (astype float32 (Example.vec [4])));
        Example.mat 1 1 [2]; v],
       [mkCall "torch.unsqueeze" [astype float32 (Example.vec [4])];
        mkCall "torch.linalg.solve"
          [astype float32 (Example.mat 1 1 [2]);
           mkTensor float32 [1; 1]%nat (t_data (astype float32 (Example.vec [4])))];
        mkCall "torch.squeeze" [Example.mat 1 1 [2]]]).
Proof.
  apply (proj1 (solve_vector_rhs (E := Example.env_products) 0%nat 1%nat None
                  [Example.mat 1 1 [2]; Example.vec [4]]
                  (Example.mat 1 1 [2]) (Example.vec [4]) 1%nat
                  eq_refl eq_refl eq_refl eq_refl
                  ltac:(discriminate) ltac:(discriminate))
           (Example.mat 1 1 [2])).
  vm_compute. reflexivity.
Defined.

(** [solve] on an empty float64 system: the result is an empty float32
    array. *)
Lemma solve_empty_operand_witness :
  ~ In "torch.linalg.solve"%string
      (called (run (Backend.solve (E := Example.env_products) 0%nat 1%nat None)
                 [mkTensor float64 [0; 0]%nat []; mkTensor float64 [0; 1]%nat []]).2) /\
  forall r,
    Ok 5%nat = Ok r ->
    exists v,
      (run (Backend.solve (E := Example.env_products) 0%nat 1%nat None)
         [mkTensor float64 [0; 0]%nat []; mkTensor float64 [0; 1]%nat []]).1.2
        !! r = Some v /\
      t_dtype v = float32 /\ t_data v = [].
Proof.
  apply (solve_empty_operand (E := Example.env_products) 0%nat 1%nat None
           [mkTensor float64 [0; 0]%nat []; mkTensor float64 [0; 1]%nat []]
           (mkTensor float64 [0; 0]%nat []) (mkTensor float64 [0; 1]%nat [])
           (Ok 5%nat) _ _ eq_refl eq_refl).
  - left. reflexivity.
  - vm_compute. reflexivity.
Defined.

(** ** The dtype of the result of [tensordot] and [vecdot] *)

Section ContractionDtype.
Context {E : Env}.

(** X15: [tensordot] and [vecdot] compute in [float32] (C1) and convert
    the result: what they return has the promoted dtype of the operands,
    for every value of [axes], [axis] and [out]. *)
Theorem contraction_result_dtype x1 x2 h a b :
  h !! x1 = Some a -> h !! x2 = Some b ->
  (forall axes out r h' cs,
     run (Backend.tensordot x1 x2 axes out) h = (Ok r, h', cs) ->
     exists v, h' !! r = Some v /\
               t_dtype v = promote_types (t_dtype a) (t_dtype b)) /\
  (forall axis out r h' cs,
     run (Backend.vecdot x1 x2 axis out) h = (Ok r, h', cs) ->
     exists v, h' !! r = Some v /\
               t_dtype v = promote_types (t_dtype a) (t_dtype b)).
Proof.
  intros H1 H2.
  pose proof (lookup_lt_Some _ _ _ H1) as Hlt1.
  pose proof (lookup_lt_Some _ _ _ H2) as Hlt2.
  split.
  - intros axes out.
    cut (wp (Backend.tensordot x1 x2 axes out) h
           (fun o h' _ => forall r, o = Ok r ->
              exists v, h' !! r = Some v /\
                        t_dtype v = promote_types (t_dtype a) (t_dtype b))).
    { intros Hw r h' cs Hrun. exact (wp_run _ _ _ _ _ _ Hw Hrun r eq_refl). }
    unfold Backend.tensordot, as_native_dtype.
    wp_go.
    all: try (intros ? [=]); subst.
    all: eexists; (split; [first [eassumption | heap_goal; reflexivity]|]).
    all: first [ reflexivity
               | match goal with
                 | H : bool_decide _ = true |- _ =>
                     apply bool_decide_eq_true in H; exact H
                 end ].
  - intros axis out.
    cut (wp (Backend.vecdot x1 x2 axis out) h
           (fun o h' _ => forall r, o = Ok r ->
              exists v, h' !! r = Some v /\
                        t_dtype v = promote_types (t_dtype a) (t_dtype b))).
    { intros Hw r h' cs Hrun. exact (wp_run _ _ _ _ _ _ Hw Hrun r eq_refl). }
    unfold Backend.vecdot, as_native_dtype.
    wp_go.
    all: try (intros ? [=]); subst.
    all: eexists; (split; [first [eassumption | heap_goal; reflexivity]|]).
    all: first [ reflexivity
               | match goal with
                 | H : bool_decide _ = true |- _ =>
                     apply bool_decide_eq_true in H; exact H
                 end ].
Qed.

End ContractionDtype.

(** [tensordot] of a float32 and a float64 vector returns a float64
    array. *)
Lemma contraction_result_dtype_witness :
  exists v,
    (run (Backend.tensordot (E := Example.env) 0%nat 1%nat (AxesInt 1) None)
       [Example.vec [2; 0; 3]; of_ints float64 [3%nat] [4; 1; 8]]).1.2
      !! 4%nat = Some v /\
    t_dtype v = float64.
Proof.
  apply (proj1 (contraction_result_dtype (E := Example.env) 0%nat 1%nat
                  [Example.vec [2; 0; 3]; of_ints float64 [3%nat] [4; 1; 8]]
                  (Example.vec [2; 0; 3]) (of_ints float64 [3%nat] [4; 1; 8])
                  eq_refl eq_refl)
           (AxesInt 1) None 4%nat _
           (run (Backend.tensordot (E := Example.env) 0%nat 1%nat (AxesInt 1) None)
              [Example.vec [2; 0; 3]; of_ints float64 [3%nat] [4; 1; 8]]).2).
  vm_compute. reflexivity.
Defined.

(** ** The skew-symmetric matrix of a vector *)

Section SkewFacts.

Lemma in_range_app s1 s2 i1 i2 :
  in_range s1 i1 -> in_range s2 i2 -> in_range (s1 ++ s2) (i1 ++ i2).
Proof.
  revert i1. induction s1 as [|n s1 IH]; intros [|i i1] H1 H2;
    cbn in H1; try contradiction; [exact H2|].
  destruct H1 as [Hi H1]. split; [exact Hi|]. apply IH; assumption.
Qed.

Lemma nth_app_0 (b : list nat) i l : nth (length b) (b ++ i :: l) 0%nat = i.
Proof. rewrite app_nth2 by lia. rewrite Nat.sub_diag. reflexivity. Qed.

Lemma nth_app_1 (b : list nat) i j l :
  nth (length b + 1) (b ++ i :: j :: l) 0%nat = j.
Proof.
  rewrite app_nth2 by lia.
  replace (length b + 1 - length b)%nat with 1%nat by lia. reflexivity.
Qed.

Lemma insert_app_0 (b : list nat) i l v :
  <[length b:=v]> (b ++ i :: l) = b ++ v :: l.
Proof.
  rewrite insert_app_r_alt by lia. rewrite Nat.sub_diag. reflexivity.
Qed.

Lemma insert_app_1 (b : list nat) i j l v :
  <[(length b + 1)%nat:=v]> (b ++ i :: j :: l) = b ++ i :: v :: l.
Proof.
  rewrite insert_app_r_alt by lia.
  replace (length b + 1 - length b)%nat with 1%nat by lia. reflexivity.
Qed.

(** An axis of size one added at the end does not move the elements. *)
Lemma offset_snoc_one sh idx :
  length idx = length sh ->
  offset (sh ++ [1%nat]) (idx ++ [0%nat]) = offset sh idx.
Proof.
  revert idx. induction sh as [|n sh IH]; intros [|i idx] Hlen;
    try discriminate; [reflexivity|].
  cbn [app offset]. rewrite IH by (cbn in Hlen; lia).
  rewrite numel_app. cbn [numel fold_right]. lia.
Qed.

Lemma unsqueeze_last V :
  unsqueeze V (-1)
  = Ok (mkTensor (t_dtype V) (t_shape V ++ [1%nat]) (t_data V)).
Proof.
  unfold unsqueeze.
  destruct (Z.leb_spec (- (Z.of_nat (rank V) + 1)) (-1)); [|lia].
  destruct (Z.ltb_spec (-1) (Z.of_nat (rank V) + 1)); [|lia].
  cbn [andb].
  destruct (Z.ltb_spec (-1) 0); [|lia].
  replace (Z.to_nat (-1 + (Z.of_nat (rank V) + 1))) with (rank V) by lia.
  unfold rank. rewrite firstn_all, drop_all. reflexivity.
Qed.

Lemma get_unsqueeze_last d sh data idx :
  length idx = length sh ->
  get (mkTensor d (sh ++ [1%nat]) data) (idx ++ [0%nat])
  = get (mkTensor d sh data) idx.
Proof.
  intros Hlen. unfold get. cbn [t_shape t_data t_dtype].
  rewrite offset_snoc_one by exact Hlen. reflexivity.
Qed.

(** The slice [k:k+1] of the axis before the last. *)
Lemma slice_one E bs n c k :
  t_shape E = bs ++ [n; c] -> (k < n)%nat ->
  slice_before_last E k (S k)
  = Ok (tabulate (t_dtype E) (bs ++ [1%nat; c])
          (fun idx => get E (<[length bs:=(nth (length bs) idx 0 + k)%nat]> idx))).
Proof.
  intros Hs Hk. unfold slice_before_last, rank. rewrite Hs, length_app.
  cbn [length].
  destruct (Nat.ltb_spec (length bs + 2) 2); [lia|].
  replace (length bs + 2 - 2)%nat with (length bs) by lia.
  rewrite nth_app_0. unfold slice_bounds.
  replace (Nat.min k n) with k by lia.
  replace (Nat.min (S k) n - k)%nat with 1%nat by lia.
  rewrite insert_app_0. reflexivity.
Qed.

Lemma short_slice E bs n c k :
  t_shape E = bs ++ [n; c] -> (n <= k)%nat ->
  slice_before_last E k (S k)
  = Ok (tabulate (t_dtype E) (bs ++ [0%nat; c])
          (fun idx => get E (<[length bs:=(nth (length bs) idx 0 + n)%nat]> idx))).
Proof.
  intros Hs Hk. unfold slice_before_last, rank. rewrite Hs, length_app.
  cbn [length].
  destruct (Nat.ltb_spec (length bs + 2) 2); [lia|].
  replace (length bs + 2 - 2)%nat with (length bs) by lia.
  rewrite nth_app_0. unfold slice_bounds.
  replace (Nat.min k n) with n by lia.
  replace (Nat.min (S k) n - n)%nat with 0%nat by lia.
  rewrite insert_app_0. reflexivity.
Qed.

Lemma get_mapped d sh f g idx :
  in_range sh idx ->
  get (mkTensor d sh (map g (t_data (tabulate d sh f)))) idx = g (f idx).
Proof.
  intros Hr. unfold get, tabulate. cbn [t_shape t_data t_dtype].
  rewrite map_map.
  apply nth_error_nth. rewrite nth_error_map, (nth_indices _ _ Hr). reflexivity.
Qed.

(** Three operands of size one along the last axis, concatenated along
    it. *)
Lemma cat_last3 d bs r (u0 u1 u2 : Tensor) :
  Forall (fun u => t_dtype u = d /\ t_shape u = bs ++ [r; 1%nat]) [u0; u1; u2] ->
  cat [u0; u1; u2] (-1)
  = Ok (tabulate d (bs ++ [r; 3%nat])
          (fun idx =>
             let '(k, j) := locate [1; 1; 1]%nat (nth (length bs + 1) idx 0%nat) in
             get (nth k [u0; u1; u2] u0) (<[(length bs + 1)%nat:=j]> idx))).
Proof.
  intros Hall.
  apply Forall_cons in Hall. destruct Hall as [[Hd0 Hs0] Hall].
  apply Forall_cons in Hall. destruct Hall as [[Hd1 Hs1] Hall].
  apply Forall_cons in Hall. destruct Hall as [[Hd2 Hs2] _].
  unfold cat, rank. rewrite Hs0, length_app. cbn [length].
  destruct (Nat.eqb_spec (length bs + 2) 0); [lia|].
  destruct (normalize_dim_neg (length bs + 2)) as [-> _]; [lia|].
  cbn [mbind Outcome_bind].
  replace (length bs + 2 - 1)%nat with (length bs + 1)%nat by lia.
  cbn [forallb map]. rewrite Hd0, Hd1, Hd2, Hs0, Hs1, Hs2.
  rewrite !bool_decide_eq_true_2 by reflexivity. cbn [andb].
  rewrite !nth_app_1. cbn [sum_list sum_list_with Nat.add].
  rewrite insert_app_1. reflexivity.
Qed.

(** Three operands of size one along the axis before the last,
    concatenated along it. *)
Lemma cat_rows3 d bs c (u0 u1 u2 : Tensor) :
  Forall (fun u => t_dtype u = d /\ t_shape u = bs ++ [1%nat; c]) [u0; u1; u2] ->
  cat [u0; u1; u2] (-2)
  = Ok (tabulate d (bs ++ [3%nat; c])
          (fun idx =>
             let '(k, j) := locate [1; 1; 1]%nat (nth (length bs) idx 0%nat) in
             get (nth k [u0; u1; u2] u0) (<[length bs:=j]> idx))).
Proof.
  intros Hall.
  apply Forall_cons in Hall. destruct Hall as [[Hd0 Hs0] Hall].
  apply Forall_cons in Hall. destruct Hall as [[Hd1 Hs1] Hall].
  apply Forall_cons in Hall. destruct Hall as [[Hd2 Hs2] _].
  unfold cat, rank. rewrite Hs0, length_app. cbn [length].
  destruct (Nat.eqb_spec (length bs + 2) 0); [lia|].
  destruct (normalize_dim_neg (length bs + 2)) as [_ ->]; [lia|].
  cbn [mbind Outcome_bind].
  replace (length bs + 2 - 2)%nat with (length bs) by lia.
  cbn [forallb map]. rewrite Hd0, Hd1, Hd2, Hs0, Hs1, Hs2.
  rewrite !bool_decide_eq_true_2 by reflexivity. cbn [andb].
  rewrite !nth_app_0. cbn [sum_list sum_list_with Nat.add].
  rewrite insert_app_0. reflexivity.
Qed.

End SkewFacts.

Section SkewMatrix.

Lemma locate_ones i :
  (i < 3)%nat -> locate [1; 1; 1]%nat i = (i, 0%nat).
Proof. intros Hi. destruct i as [|[|[|i]]]; try lia; reflexivity. Qed.

Lemma skew_run vector h V E A1 A2 A3 N1 N2 N3 R1 R2 R3 M :
  h !! vector = Some V ->
  unsqueeze V (-1) = Ok E ->
  slice_before_last E 0 1 = Ok A1 ->
  slice_before_last E 1 2 = Ok A2 ->
  slice_before_last E 2 3 = Ok A3 ->
  Torch.neg A1 = Ok N1 -> Torch.neg A2 = Ok N2 -> Torch.neg A3 = Ok N3 ->
  cat [zeros (t_dtype V) (removelast (t_shape V) ++ [1; 1]%nat); N3; A2] (-1)
  = Ok R1 ->
  cat [A3; zeros (t_dtype V) (removelast (t_shape V) ++ [1; 1]%nat); N1] (-1)
  = Ok R2 ->
  cat [N2; A1; zeros (t_dtype V) (removelast (t_shape V) ++ [1; 1]%nat)] (-1)
  = Ok R3 ->
  cat [R1; R2; R3] (-2) = Ok M ->
  exists r h' cs,
    run (Backend.vector_to_skew_symmetric_matrix vector None) h = (Ok r, h', cs) /\
    h' !! r = Some M.
Proof.
  intros Hx HE HA1 HA2 HA3 HN1 HN2 HN3 HR1 HR2 HR3 HM.
  pose proof (lookup_lt_Some _ _ _ Hx) as Hlt.
  cut (wp (Backend.vector_to_skew_symmetric_matrix vector None) h
         (fun o h' _ => exists r, o = Ok r /\ h' !! r = Some M)).
  { unfold wp.
    destruct (run (Backend.vector_to_skew_symmetric_matrix vector None) h)
      as [[o h'] cs].
    intros (r & -> & Hr). eauto. }
  unfold Backend.vector_to_skew_symmetric_matrix.
  wp_go.
  eexists. split; [reflexivity|]. heap_goal. reflexivity.
Qed.

(** X16: for an array of shape [bs + (n,)] with [n >= 3] and a dtype
    other than boolean, [vector_to_skew_symmetric_matrix] returns an array
    of shape [bs + (3, 3)] and of the dtype of the operand whose matrix at
    each batch index is [[0, -a3, a2], [a3, 0, -a1], [-a2, a1, 0]], for
    the first three elements [a1, a2, a3] of the vector at that index;
    the elements beyond the third are ignored. *)
Theorem skew_symmetric_matrix_entries vector h V bs n :
  h !! vector = Some V ->
  t_shape V = bs ++ [n] -> (3 <= n)%nat -> t_dtype V <> bool_ ->
  exists r h' cs M,
    run (Backend.vector_to_skew_symmetric_matrix vector None) h = (Ok r, h', cs) /\
    h' !! r = Some M /\
    t_dtype M = t_dtype V /\ t_shape M = bs ++ [3; 3]%nat /\
    forall b, in_range bs b ->
      let d := t_dtype V in
      let a1 := get V (b ++ [0%nat]) in
      let a2 := get V (b ++ [1%nat]) in
      let a3 := get V (b ++ [2%nat]) in
      get M (b ++ [0; 0]%nat) = zero d /\
      get M (b ++ [0; 1]%nat) = neg_scalar d a3 /\
      get M (b ++ [0; 2]%nat) = a2 /\
      get M (b ++ [1; 0]%nat) = a3 /\
      get M (b ++ [1; 1]%nat) = zero d /\
      get M (b ++ [1; 2]%nat) = neg_scalar d a1 /\
      get M (b ++ [2; 0]%nat) = neg_scalar d a2 /\
      get M (b ++ [2; 1]%nat) = a1 /\
      get M (b ++ [2; 2]%nat) = zero d.
Proof.
  intros Hx Hs Hn Hd.
  pose proof (lookup_lt_Some _ _ _ Hx) as Hlt.
  set (d := t_dtype V).
  set (E := mkTensor d (t_shape V ++ [1%nat]) (t_data V)).
  assert (HE : unsqueeze V (-1) = Ok E) by apply unsqueeze_last.
  assert (HsE : t_shape E = bs ++ [n; 1%nat]).
  { unfold E. cbn [t_shape]. rewrite Hs, <- app_assoc. reflexivity. }
  set (A := fun k => tabulate d (bs ++ [1; 1]%nat)
                (fun idx => get E (<[length bs:=(nth (length bs) idx 0 + k)%nat]> idx))).
  assert (HA : forall k, (k < 3)%nat -> slice_before_last E k (S k) = Ok (A k)).
  { intros k Hk. apply (slice_one E bs n 1 k HsE). lia. }
  set (Zs := zeros d (bs ++ [1; 1]%nat)).
  assert (HZ : zeros (t_dtype V) (removelast (t_shape V) ++ [1; 1]%nat) = Zs).
  { rewrite Hs, removelast_last. reflexivity. }
  set (N := fun k => mkTensor d (bs ++ [1; 1]%nat)
                       (map (neg_scalar d) (t_data (A k)))).
  assert (HN : forall k, Torch.neg (A k) = Ok (N k)).
  { intros k. unfold Torch.neg. cbn [t_dtype A tabulate].
    rewrite bool_decide_eq_false_2 by exact Hd. reflexivity. }
  assert (Hall : forall u, In u [Zs; A 0%nat; A 1%nat; A 2%nat;
                                 N 0%nat; N 1%nat; N 2%nat] ->
                           t_dtype u = d /\ t_shape u = bs ++ [1; 1]%nat).
  { intros u Hu. cbn [In] in Hu.
    repeat match goal with H : _ \/ _ |- _ => destruct H as [<-|H] end;
      try contradiction; split; reflexivity. }
  set (R := fun u0 u1 u2 : Tensor =>
              tabulate d (bs ++ [1; 3]%nat)
                (fun idx =>
                   let '(k, j) := locate [1; 1; 1]%nat (nth (length bs + 1) idx 0%nat) in
                   get (nth k [u0; u1; u2] u0) (<[(length bs + 1)%nat:=j]> idx))).
  assert (HR : forall u0 u1 u2,
             In u0 [Zs; A 0%nat; A 1%nat; A 2%nat; N 0%nat; N 1%nat; N 2%nat] ->
             In u1 [Zs; A 0%nat; A 1%nat; A 2%nat; N 0%nat; N 1%nat; N 2%nat] ->
             In u2 [Zs; A 0%nat; A 1%nat; A 2%nat; N 0%nat; N 1%nat; N 2%nat] ->
             cat [u0; u1; u2] (-1) = Ok (R u0 u1 u2)).
  { intros u0 u1 u2 H0 H1 H2. apply cat_last3.
    repeat constructor; apply Hall; assumption. }
  set (R1 := R Zs (N 2%nat) (A 1%nat)).
  set (R2 := R (A 2%nat) Zs (N 0%nat)).
  set (R3 := R (N 1%nat) (A 0%nat) Zs).
  set (M := tabulate d (bs ++ [3; 3]%nat)
              (fun idx =>
                 let '(k, j) := locate [1; 1; 1]%nat (nth (length bs) idx 0%nat) in
                 get (nth k [R1; R2; R3] R1) (<[length bs:=j]> idx))).
  assert (HM : cat [R1; R2; R3] (-2) = Ok M).
  { apply cat_rows3. repeat constructor; reflexivity. }
  assert (HR1 : cat [Zs; N 2%nat; A 1%nat] (-1) = Ok R1)
    by (apply HR; cbn [In]; auto 10).
  assert (HR2 : cat [A 2%nat; Zs; N 0%nat] (-1) = Ok R2)
    by (apply HR; cbn [In]; auto 10).
  assert (HR3 : cat [N 1%nat; A 0%nat; Zs] (-1) = Ok R3)
    by (apply HR; cbn [In]; auto 10).
  assert (HA0 := HA 0%nat ltac:(lia)).
  assert (HA1 := HA 1%nat ltac:(lia)).
  assert (HA2 := HA 2%nat ltac:(lia)).
  assert (HN0 := HN 0%nat). assert (HN1 := HN 1%nat). assert (HN2 := HN 2%nat).
  (* the elements *)
  assert (Hin00 : forall b, in_range bs b -> in_range (bs ++ [1; 1]%nat) (b ++ [0; 0]%nat)).
  { intros b Hb. apply in_range_app; [exact Hb|]. cbn. lia. }
  assert (HgA : forall k b, in_range bs b ->
                  get (A k) (b ++ [0; 0]%nat) = get V (b ++ [k])).
  { intros k b Hb. unfold A. rewrite get_tabulate by (apply Hin00, Hb).
    rewrite <- (in_range_length _ _ Hb), nth_app_0, insert_app_0.
    cbn [Nat.add]. unfold E.
    change (b ++ [k; 0%nat]) with (b ++ [k] ++ [0%nat]).
    rewrite app_assoc, get_unsqueeze_last.
    - destruct V; reflexivity.
    - rewrite Hs, !length_app. cbn [length].
      rewrite (in_range_length _ _ Hb). reflexivity. }
  assert (HgN : forall k b, in_range bs b ->
                  get (N k) (b ++ [0; 0]%nat) = neg_scalar d (get V (b ++ [k]))).
  { intros k b Hb. unfold N, A. rewrite get_mapped by (apply Hin00, Hb).
    fold (A k). f_equal.
    rewrite <- (HgA k b Hb). unfold A.
    rewrite get_tabulate by (apply Hin00, Hb). reflexivity. }
  assert (HgZ : forall b, in_range bs b -> get Zs (b ++ [0; 0]%nat) = zero d).
  { intros b Hb. unfold Zs, zeros. rewrite get_tabulate by (apply Hin00, Hb).
    reflexivity. }
  assert (HgR : forall u0 u1 u2 b j, in_range bs b -> (j < 3)%nat ->
                  get (R u0 u1 u2) (b ++ [0; j]%nat)
                  = get (nth j [u0; u1; u2] u0) (b ++ [0; 0]%nat)).
  { intros u0 u1 u2 b j Hb Hj. unfold R.
    rewrite get_tabulate by (apply in_range_app; [exact Hb|cbn; lia]).
    rewrite <- (in_range_length _ _ Hb), nth_app_1, (locate_ones j Hj).
    rewrite insert_app_1. reflexivity. }
  assert (HgM : forall b i j, in_range bs b -> (i < 3)%nat -> (j < 3)%nat ->
                  get M (b ++ [i; j]) = get (nth i [R1; R2; R3] R1) (b ++ [0; j]%nat)).
  { intros b i j Hb Hi Hj. unfold M.
    rewrite get_tabulate by (apply in_range_app; [exact Hb|cbn; lia]).
    rewrite <- (in_range_length _ _ Hb), nth_app_0, (locate_ones i Hi).
    rewrite insert_app_0. reflexivity. }
  assert (Hentries : forall b, in_range bs b ->
      get M (b ++ [0; 0]%nat) = zero d /\
      get M (b ++ [0; 1]%nat) = neg_scalar d (get V (b ++ [2%nat])) /\
      get M (b ++ [0; 2]%nat) = get V (b ++ [1%nat]) /\
      get M (b ++ [1; 0]%nat) = get V (b ++ [2%nat]) /\
      get M (b ++ [1; 1]%nat) = zero d /\
      get M (b ++ [1; 2]%nat) = neg_scalar d (get V (b ++ [0%nat])) /\
      get M (b ++ [2; 0]%nat) = neg_scalar d (get V (b ++ [1%nat])) /\
      get M (b ++ [2; 1]%nat) = get V (b ++ [0%nat]) /\
      get M (b ++ [2; 2]%nat) = zero d).
  { intros b Hb.
    repeat split; rewrite HgM by (try exact Hb; lia); cbn [nth];
      unfold R1, R2, R3; rewrite HgR by (try exact Hb; lia); cbn [nth];
      first [apply HgZ | apply HgA | apply HgN]; exact Hb. }
  assert (HdM : t_dtype M = d) by reflexivity.
  assert (HsM : t_shape M = bs ++ [3; 3]%nat) by reflexivity.
  rewrite <- HZ in HR1, HR2, HR3.
  destruct (skew_run vector h V E (A 0%nat) (A 1%nat) (A 2%nat)
              (N 0%nat) (N 1%nat) (N 2%nat) R1 R2 R3 M
              Hx HE HA0 HA1 HA2 HN0 HN1 HN2 HR1 HR2 HR3 HM)
    as (r & h' & cs & Hrun & Hr).
  exists r, h', cs, M. repeat split; try assumption; apply Hentries; assumption.
Qed.

End SkewMatrix.

Section SkewErrors.

Lemma slice_shape E bs n c k :
  t_shape E = bs ++ [n; c] ->
  exists A len,
    slice_before_last E k (S k) = Ok A /\ t_dtype A = t_dtype E /\
    t_shape A = bs ++ [len; c] /\ ((n <= k)%nat -> len = 0%nat).
Proof.
  intros Hs. destruct (Nat.lt_ge_cases k n) as [Hk|Hk].
  - eexists _, 1%nat. split; [apply (slice_one E bs n c k Hs Hk)|].
    repeat split. lia.
  - eexists _, 0%nat. split; [apply (short_slice E bs n c k Hs Hk)|].
    repeat split.
Qed.

Lemma neg_shape A N :
  Torch.neg A = Ok N -> t_dtype N = t_dtype A /\ t_shape N = t_shape A.
Proof.
  unfold Torch.neg. destruct (bool_decide _); [discriminate|].
  intros [= <-]. split; reflexivity.
Qed.

Lemma neg_bool A : t_dtype A = bool_ -> Torch.neg A = Raise RuntimeError.
Proof.
  intros Hd. unfold Torch.neg. rewrite bool_decide_eq_true_2 by exact Hd.
  reflexivity.
Qed.

Lemma neg_ok A : t_dtype A <> bool_ -> exists N, Torch.neg A = Ok N.
Proof.
  intros Hd. unfold Torch.neg. rewrite bool_decide_eq_false_2 by exact Hd.
  eauto.
Qed.

Lemma cat_mismatch d bs (u0 u1 u2 : Tensor) r :
  t_shape u0 = bs ++ [1%nat; r] -> t_dtype u1 = d ->
  t_shape u1 = bs ++ [0%nat; r] ->
  cat [u0; u1; u2] (-1) = Raise RuntimeError.
Proof.
  intros Hs0 Hd1 Hs1. unfold cat, rank. rewrite Hs0, length_app. cbn [length].
  destruct (Nat.eqb_spec (length bs + 2) 0); [lia|].
  destruct (normalize_dim_neg (length bs + 2)) as [-> _]; [lia|].
  cbn [mbind Outcome_bind forallb].
  replace (length bs + 2 - 1)%nat with (length bs + 1)%nat by lia.
  rewrite Hs0, Hs1, !insert_app_1.
  rewrite !bool_decide_eq_true_2 by reflexivity. cbn [andb].
  rewrite (bool_decide_eq_false_2 (bs ++ [0%nat; 0%nat] = bs ++ [1%nat; 0%nat])).
  - rewrite andb_false_r. reflexivity.
  - intros Heq. apply app_inv_head in Heq. discriminate.
Qed.

(** X17: [vector_to_skew_symmetric_matrix] refuses a zero-dimensional
    operand ([IndexError], from the indexing), and an operand whose last
    axis has fewer than three elements or whose dtype is boolean
    ([RuntimeError], from the concatenation or the negation). *)
Theorem skew_symmetric_matrix_rejects vector out h V :
  h !! vector = Some V ->
  (t_shape V = [] ->
   exists h' cs,
     run (Backend.vector_to_skew_symmetric_matrix vector out) h
     = (Raise IndexError, h', cs)) /\
  (forall bs n,
     t_shape V = bs ++ [n] -> (n < 3)%nat \/ t_dtype V = bool_ ->
     exists h' cs,
       run (Backend.vector_to_skew_symmetric_matrix vector out) h
       = (Raise RuntimeError, h', cs)).
Proof.
  intros Hx. pose proof (lookup_lt_Some _ _ _ Hx) as Hlt.
  pose proof (unsqueeze_last V) as HE.
  set (E := mkTensor _ _ _) in HE.
  assert (Hwp : forall e,
             wp (Backend.vector_to_skew_symmetric_matrix vector out) h
               (fun o _ _ => o = Raise e) ->
             exists h' cs,
               run (Backend.vector_to_skew_symmetric_matrix vector out) h
               = (Raise e, h', cs)).
  { intros e. unfold wp.
    destruct (run (Backend.vector_to_skew_symmetric_matrix vector out) h)
      as [[o h'] cs]. intros ->. eauto. }
  split.
  - intros Hs. apply Hwp.
    assert (HA : slice_before_last E 0 1 = Raise IndexError).
    { unfold slice_before_last, rank, E. cbn [t_shape]. rewrite Hs. reflexivity. }
    clearbody E.
    unfold Backend.vector_to_skew_symmetric_matrix. wp_go. reflexivity.
  - intros bs n Hs Hcase. apply Hwp.
    assert (HsE : t_shape E = bs ++ [n; 1%nat]).
    { unfold E. cbn [t_shape]. rewrite Hs, <- app_assoc. reflexivity. }
    assert (HdE : t_dtype E = t_dtype V) by reflexivity.
    destruct (slice_shape E bs n 1 0 HsE) as (A1 & l1 & HA1 & Hd1 & Hs1 & _).
    destruct (slice_shape E bs n 1 1 HsE) as (A2 & l2 & HA2 & Hd2 & Hs2 & _).
    destruct (slice_shape E bs n 1 2 HsE) as (A3 & l3 & HA3 & Hd3 & Hs3 & Hl3).
    clearbody E.
    destruct (decide (t_dtype V = bool_)) as [Hb|Hb].
    + assert (HN3 : Torch.neg A3 = Raise RuntimeError).
      { apply neg_bool. congruence. }
      unfold Backend.vector_to_skew_symmetric_matrix. wp_go. reflexivity.
    + destruct Hcase as [Hn|Hbool]; [|contradiction].
      destruct (neg_ok A3) as [N3 HN3]; [congruence|].
      destruct (neg_shape _ _ HN3) as [HdN HsN].
      rewrite Hs3, (Hl3 ltac:(lia)) in HsN.
      assert (Hcat : forall u2,
                 cat [zeros (t_dtype V) (removelast (t_shape V) ++ [1; 1]%nat);
                      N3; u2] (-1) = Raise RuntimeError).
      { intros u2. apply (cat_mismatch (t_dtype N3) bs _ _ _ 1%nat).
        - unfold zeros. cbn [t_shape tabulate]. rewrite Hs, removelast_last.
          reflexivity.
        - reflexivity.
        - exact HsN. }
      pose proof (Hcat A2) as Hcat2.
      unfold Backend.vector_to_skew_symmetric_matrix. wp_go. reflexivity.
Qed.

End SkewErrors.

(** The skew-symmetric matrix of the int32 vector [[1, 2, 3]]. *)
Lemma skew_symmetric_matrix_entries_witness :
  exists r h' cs M,
    run (Backend.vector_to_skew_symmetric_matrix 0%nat None)
        [of_ints int32 [3%nat] [1; 2; 3]] = (Ok r, h', cs) /\
    h' !! r = Some M /\
    t_dtype M = int32 /\ t_shape M = [3; 3]%nat /\
    forall b, in_range [] b ->
      let d := int32 in
      let a1 := get (of_ints int32 [3%nat] [1; 2; 3]) (b ++ [0%nat]) in
      let a2 := get (of_ints int32 [3%nat] [1; 2; 3]) (b ++ [1%nat]) in
      let a3 := get (of_ints int32 [3%nat] [1; 2; 3]) (b ++ [2%nat]) in
      get M (b ++ [0; 0]%nat) = zero d /\
      get M (b ++ [0; 1]%nat) = neg_scalar d a3 /\
      get M (b ++ [0; 2]%nat) = a2 /\
      get M (b ++ [1; 0]%nat) = a3 /\
      get M (b ++ [1; 1]%nat) = zero d /\
      get M (b ++ [1; 2]%nat) = neg_scalar d a1 /\
      get M (b ++ [2; 0]%nat) = neg_scalar d a2 /\
      get M (b ++ [2; 1]%nat) = a1 /\
      get M (b ++ [2; 2]%nat) = zero d.
Proof.
  apply (skew_symmetric_matrix_entries 0%nat [of_ints int32 [3%nat] [1; 2; 3]]
           (of_ints int32 [3%nat] [1; 2; 3]) [] 3%nat eq_refl eq_refl).
  - lia.
  - discriminate.
Defined.

(** A vector of two elements is refused. *)
Lemma skew_symmetric_matrix_rejects_witness :
  exists h' cs,
    run (Backend.vector_to_skew_symmetric_matrix 0%nat None)
        [of_ints int32 [2%nat] [1; 2]] = (Raise RuntimeError, h', cs).
Proof.
  apply (proj2 (skew_symmetric_matrix_rejects 0%nat None
                  [of_ints int32 [2%nat] [1; 2]]
                  (of_ints int32 [2%nat] [1; 2]) eq_refl)
           [] 2%nat eq_refl).
  left. lia.
Defined.
